(** * mongodb-odm: a shallow embedding of the sanitizer, the aggregation
      pipeline factory and the document lifecycle engine.

    Sources embedded here:
    - [src/utils/sanitizeQuery.ts]             (sanitizeQuery)
    - [core/Aggregation] (unnamed/part_004)    (pipelineFactory and the stage factories)
    - [core/Model]       (unnamed/part_005)    (insert / update / delete lifecycle)
    - [index]            (unnamed/part_000)    (getModel)
    - [types]            (unnamed/part_002)    (typeIsUpdate)

    JavaScript objects are association lists in enumeration order.  Objects
    whose identity matters (the filter a caller hands to the engine, which
    sanitizeQuery edits in place) live in an explicit heap and are passed by
    location.  The document store is an opaque collaborator: its primitives
    are a record of functions over an abstract state, and a run of the
    engine yields, next to its outcome, the calls it made to them. *)

From Stdlib Require Import ZArith String Ascii List Bool Lia.
From stdpp Require Import base option list strings.

Import ListNotations.
#[local] Set Warnings "-register-all".
Local Open Scope string_scope.
Local Open Scope list_scope.

(* ===================================================================== *)
(** ** Errors and results *)
(* ===================================================================== *)

(** The three JavaScript error classes the sources throw. *)
Inductive error : Type :=
| Error (message : string)
| TypeError (message : string)
| AssertionError (message : string).

Inductive result (A : Type) : Type :=
| Ok (a : A)
| Throw (e : error).
Arguments Ok {A} a.
Arguments Throw {A} e.

(* ===================================================================== *)
(** ** ObjectID (mongodb / bson)

    An ObjectID wraps a 12-byte identifier.  [toHexString] renders it as 24
    lower-case hexadecimal characters; the constructor accepts either a
    12-character binary string or 24 hexadecimal characters and throws on
    anything else. *)
(* ===================================================================== *)

Record ObjectID : Type := mkObjectID { id : list Byte.byte }.

Definition ObjectID_isValid (o : ObjectID) : Prop := length (id o) = 12%nat.

Definition hex_digit (n : N) : ascii :=
  nth (N.to_nat n)
      ["0"; "1"; "2"; "3"; "4"; "5"; "6"; "7"; "8"; "9";
       "a"; "b"; "c"; "d"; "e"; "f"]%char "0"%char.

Definition hex_value (c : ascii) : option N :=
  let n := N_of_ascii c in
  if ((48 <=? n) && (n <=? 57))%N then Some (n - 48)%N
  else if ((97 <=? n) && (n <=? 102))%N then Some (n - 87)%N
  else if ((65 <=? n) && (n <=? 70))%N then Some (n - 55)%N
  else None.

Definition byte_to_hex (b : Byte.byte) : string :=
  let n := Byte.to_N b in
  String (hex_digit (n / 16)) (String (hex_digit (n mod 16)) EmptyString).

Fixpoint bytes_to_hex (l : list Byte.byte) : string :=
  match l with
  | [] => EmptyString
  | b :: r => byte_to_hex b +:+ bytes_to_hex r
  end.

Definition toHexString (o : ObjectID) : string := bytes_to_hex (id o).

Fixpoint bytes_of_hex (s : string) : option (list Byte.byte) :=
  match s with
  | EmptyString => Some []
  | String c1 (String c2 r) =>
      match hex_value c1, hex_value c2, bytes_of_hex r with
      | Some h, Some l, Some bs =>
          match Byte.of_N (h * 16 + l) with
          | Some b => Some (b :: bs)
          | None => None
          end
      | _, _, _ => None
      end
  | String _ EmptyString => None
  end.

Definition createFromHexString (s : string) : option ObjectID :=
  option_map mkObjectID (bytes_of_hex s).

(** [new ObjectID(s)] for a string argument. *)
Definition ObjectID_new (s : string) : result ObjectID :=
  let invalid := TypeError
    "Argument passed in must be a single String of 12 bytes or a string of 24 hex characters" in
  if Nat.eqb (String.length s) 12 then Ok (mkObjectID (list_byte_of_string s))
  else if Nat.eqb (String.length s) 24 then
    match createFromHexString s with
    | Some o => Ok o
    | None => Throw invalid
    end
  else Throw invalid.

(* ===================================================================== *)
(** ** JavaScript values and objects *)
(* ===================================================================== *)

Inductive value : Type :=
| VUndefined
| VNull
| VBool (b : bool)
| VNum (n : Z)
| VStr (s : string)
| VOid (o : ObjectID)
| VDate (t : Z)
| VArr (l : list value)
| VObj (o : list (string * value)).

(** A plain object: its own enumerable properties, in enumeration order. *)
Abbreviation obj := (list (string * value)).

Definition keys (o : obj) : list string := map fst o.

(** [o[k]] *)
Fixpoint obj_get (o : obj) (k : string) : option value :=
  match o with
  | [] => None
  | (k', v) :: r => if String.eqb k k' then Some v else obj_get r k
  end.

(** [o[k]] as an expression: a missing property reads as [undefined]. *)
Definition prop (o : obj) (k : string) : value :=
  match obj_get o k with Some v => v | None => VUndefined end.

(** [o.hasOwnProperty(k)] *)
Definition hasOwnProperty (o : obj) (k : string) : bool :=
  match obj_get o k with Some _ => true | None => false end.

(** [o[k] = v]: overwrite in place, or append a new property. *)
Fixpoint obj_set (o : obj) (k : string) (v : value) : obj :=
  match o with
  | [] => [(k, v)]
  | (k', v') :: r =>
      if String.eqb k k' then (k', v) :: r else (k', v') :: obj_set r k v
  end.

(** [delete o[k]] *)
Definition obj_delete (o : obj) (k : string) : obj :=
  List.filter (fun p => negb (String.eqb k (fst p))) o.

(** [{ ...a, ...b }] *)
Definition spread (a b : obj) : obj :=
  fold_left (fun acc p => obj_set acc (fst p) (snd p)) b a.

(** [_.pick(o, ks)] *)
Definition pick (o : obj) (ks : list string) : obj :=
  fold_left (fun acc k => match obj_get o k with
                          | Some v => obj_set acc k v
                          | None => acc
                          end) ks [].

(** [_.omit(o, ks)] *)
Definition omit (o : obj) (ks : list string) : obj :=
  List.filter (fun p => negb (existsb (String.eqb (fst p)) ks)) o.

(** Truthiness of a value ([if (v)], [v || w], [!v]). *)
Definition truthy (v : value) : bool :=
  match v with
  | VUndefined | VNull => false
  | VBool b => b
  | VNum n => negb (Z.eqb n 0)
  | VStr s => negb (String.eqb s "")
  | VOid _ | VDate _ | VArr _ | VObj _ => true
  end.

(** Predicates of [@sindresorhus/is]. *)
Definition is_plainObject (v : value) : bool :=
  match v with VObj _ => true | _ => false end.

Definition is_object (v : value) : bool :=
  match v with VOid _ | VDate _ | VArr _ | VObj _ => true | _ => false end.

Definition is_emptyObject (v : value) : bool :=
  match v with
  | VObj [] | VArr [] | VDate _ => true
  | _ => false
  end.

Definition is_date (v : value) : bool :=
  match v with VDate _ => true | _ => false end.

Definition is_nullOrUndefined (v : value) : bool :=
  match v with VUndefined | VNull => true | _ => false end.

(** [s.startsWith('$')] *)
Definition startsWith_dollar (s : string) : bool := String.prefix "$" s.

(** An optional boolean flag compared with [=== true]. *)
Definition is_true (b : option bool) : bool :=
  match b with Some true => true | _ => false end.

(* ===================================================================== *)
(** ** Schemas ([types]) *)
(* ===================================================================== *)

Inductive FieldBasicType : Type :=
| TString | TNumber | TBoolean | TDate | TObjectID | TArray.

Inductive FieldValidationStrategy : Type :=
| ValidateRegExp (pattern : string)
| ValidateNumber (bound : Z)
| ValidateEnum (allowed : list value)
| ValidateFunction (f : value -> bool).

(** [default?: FieldValue | FieldDefaultValueFunction] *)
Inductive FieldDefault : Type :=
| DefaultValue (v : value)
| DefaultFunction (f : unit -> value).

Inductive FieldSpecs : Type :=
| mkFieldSpecs (type : FieldType)
               (ref : option string)
               (required : option bool)
               (encrypted : option bool)
               (default : option FieldDefault)
               (format : option (value -> value))
               (validate : option FieldValidationStrategy)
               (random : option (unit -> value))
with FieldType : Type :=
| TBasic (t : FieldBasicType)
| TArrayOf (t : FieldBasicType)
| TNested (subfields : list (string * FieldSpecs)).

Definition type (f : FieldSpecs) : FieldType :=
  match f with mkFieldSpecs x _ _ _ _ _ _ _ => x end.
Definition ref (f : FieldSpecs) : option string :=
  match f with mkFieldSpecs _ x _ _ _ _ _ _ => x end.
Definition required (f : FieldSpecs) : option bool :=
  match f with mkFieldSpecs _ _ x _ _ _ _ _ => x end.
Definition encrypted (f : FieldSpecs) : option bool :=
  match f with mkFieldSpecs _ _ _ x _ _ _ _ => x end.
Definition default (f : FieldSpecs) : option FieldDefault :=
  match f with mkFieldSpecs _ _ _ _ x _ _ _ => x end.
Definition format (f : FieldSpecs) : option (value -> value) :=
  match f with mkFieldSpecs _ _ _ _ _ x _ _ => x end.
Definition validate (f : FieldSpecs) : option FieldValidationStrategy :=
  match f with mkFieldSpecs _ _ _ _ _ _ x _ => x end.
Definition random (f : FieldSpecs) : option (unit -> value) :=
  match f with mkFieldSpecs _ _ _ _ _ _ _ x => x end.

Record IndexOptions : Type := { unique : option bool }.

(** [{ spec, options }] *)
Record SchemaIndex : Type := {
  index_spec : obj;
  index_options : option IndexOptions }.

Record Schema : Type := {
  model : string;
  collection : string;
  timestamps : option bool;
  allowUpsert : option bool;
  noInserts : option bool;
  noInsertMany : option bool;
  noUpdates : option bool;
  noUpdateMany : option bool;
  noDeletes : option bool;
  noDeleteMany : option bool;
  cascade : option (list string);
  fields : list (string * FieldSpecs);
  indexes : option (list SchemaIndex) }.

(** [schema.fields[key]] and [schema.fields.hasOwnProperty(key)] *)
Fixpoint field_get (fs : list (string * FieldSpecs)) (k : string) : option FieldSpecs :=
  match fs with
  | [] => None
  | (k', f) :: r => if String.eqb k k' then Some f else field_get r k
  end.

Definition fields_hasOwnProperty (fs : list (string * FieldSpecs)) (k : string) : bool :=
  match field_get fs k with Some _ => true | None => false end.

(** [schema.timestamps && ...]: the flag used as a condition. *)
Definition flag (b : option bool) : bool :=
  match b with Some b => b | None => false end.

(* ===================================================================== *)
(** ** Computations that may throw

    The engine's code is sequential code over some state that either
    returns or throws.  [MonadThrow] is the interface of such computations;
    it has two instances below: [H], over the heap alone, and [M], over the
    whole world, which also logs the calls made to the store. *)
(* ===================================================================== *)

Class MonadThrow (T : Type -> Type) : Type := {
  ret : forall {A}, A -> T A;
  bind : forall {A B}, T A -> (A -> T B) -> T B;
  throw : forall {A}, error -> T A }.

Declare Scope st_scope.
Delimit Scope st_scope with st.
Notation "'do' x <- m ; k" := (bind m (fun x => k))
  (at level 10, x name, m at level 100, k at level 200,
   format "'[v' 'do'  x  <-  m ; '/' k ']'") : st_scope.
Notation "'do' ' p <- m ; k" := (bind m (fun x => match x with p => k end))
  (at level 10, p pattern, m at level 100, k at level 200) : st_scope.
Notation "'exec' m ; k" := (bind m (fun _ => k))
  (at level 10, m at level 100, k at level 200,
   format "'[v' 'exec'  m ; '/' k ']'") : st_scope.
Local Open Scope st_scope.

Section Combinators.

Context {T : Type -> Type} `{MonadThrow T}.

Definition lift_result {A} (r : result A) : T A :=
  match r with Ok a => ret a | Throw e => throw e end.

(** [assert(c, e)] *)
Definition assert (c : bool) (e : error) : T unit :=
  if c then ret tt else throw e.

(** [for (const x of xs) body(x)] *)
Fixpoint for_each {A} (xs : list A) (body : A -> T unit) : T unit :=
  match xs with
  | [] => ret tt
  | x :: r => exec body x; for_each r body
  end.

(** A loop that collects one result per element. *)
Fixpoint map_st {A B} (xs : list A) (body : A -> T B) : T (list B) :=
  match xs with
  | [] => ret []
  | x :: r => do y <- body x; do ys <- map_st r body; ret (y :: ys)
  end.

End Combinators.

(* ===================================================================== *)
(** ** The heap of caller-visible objects *)
(* ===================================================================== *)

Definition loc := nat.
Abbreviation heap := (list obj).

(** Computations over the heap. *)
Definition H (A : Type) : Type := heap -> result A * heap.

#[export] Instance H_monad : MonadThrow H := {|
  ret := fun A a h => (Ok a, h);
  bind := fun A B m f h =>
            match m h with
            | (Ok a, h') => f a h'
            | (Throw e, h') => (Throw e, h')
            end;
  throw := fun A e h => (Throw e, h) |}.

(** Allocation of an object literal. *)
Definition alloc (o : obj) : H loc := fun h => (Ok (length h), h ++ [o]).

(** Dereference.  A location handed out by [alloc] is never dangling; the
    error case is there to make [read] total. *)
Definition read (l : loc) : H obj :=
  fun h => match h !! l with
           | Some o => (Ok o, h)
           | None => (Throw (TypeError "dangling object reference"), h)
           end.

Definition write (l : loc) (o : obj) : H unit :=
  fun h => (Ok tt, <[l := o]> h).

(** [delete o[key]] on the object at [l]. *)
Definition delete_prop (l : loc) (key : string) : H unit :=
  do o <- read l; write l (obj_delete o key).

(** [Query<T> = string | ObjectID | FilterQuery<T>]; a filter object is held
    by reference. *)
Inductive Query : Type :=
| QObjectID (o : ObjectID)
| QString (s : string)
| QObject (l : loc).

(* ===================================================================== *)
(** ** utils/sanitizeQuery *)
(* ===================================================================== *)

(** One turn of the strict-mode loop (lines 72-79): the four [continue]
    guards, then [delete o[key]]. *)
Definition sanitizeQuery_step (schema : Schema) (o : loc) (key : string) : H unit :=
  if String.eqb key "_id" then ret tt
  else if flag (timestamps schema) && String.eqb key "createdAt" then ret tt
  else if flag (timestamps schema) && String.eqb key "updatedAt" then ret tt
  else if fields_hasOwnProperty (fields schema) key then ret tt
  else delete_prop o key.

(** [sanitizeQuery(schema, query, { strict })].  The result is a reference:
    a fresh object in the two identifier branches, the argument itself in
    the object branch. *)
Definition sanitizeQuery (schema : Schema) (query : Query) (strict : bool) : H loc :=
  match query with
  | QObjectID oid => alloc [("_id", VOid oid)]
  | QString s =>
      do objectId <- lift_result (ObjectID_new s);
      alloc [("_id", VOid objectId)]
  | QObject o =>
      exec (if strict then
              do current <- read o;
              for_each (keys current) (sanitizeQuery_step schema o)
            else ret tt);
      ret o
  end.

(** The keys strict sanitization retains: the identifier, the two timestamp
    keys of a schema with timestamps, and the declared fields. *)
Definition retained_key (schema : Schema) (key : string) : bool :=
  String.eqb key "_id"
  || (flag (timestamps schema) && String.eqb key "createdAt")
  || (flag (timestamps schema) && String.eqb key "updatedAt")
  || fields_hasOwnProperty (fields schema) key.

(** Modelled from the spec: [utils/sanitizeDocument] is not among the
    sources.  Section 4.2 gives its contract: the input is copied into a
    canonical document fragment, and every key that is neither in the
    schema's field mapping nor an identifier or timestamp key is dropped
    silently. *)
Definition sanitizeDocument (schema : Schema) (doc : obj) : obj :=
  List.filter (fun p => retained_key schema (fst p)) doc.

(* ===================================================================== *)
(** ** The store: an opaque collection API *)
(* ===================================================================== *)

(** The options bag the engine's methods accept and forward; each flag is
    absent ([None]) unless the caller sets it.  The option interfaces of
    this version of [types] are not among the sources: the record lists the
    options the methods of [Model] read. *)
Record Options : Type := {
  strict : option bool;
  ignoreUniqueIndex : option bool;
  ignoreTimestamps : option bool;
  upsert : option bool;
  returnDoc : option bool;
  returnDocs : option bool;
  skipHooks : option bool;
  returnOriginal : option bool }.

Definition no_options : Options :=
  {| strict := None; ignoreUniqueIndex := None; ignoreTimestamps := None;
     upsert := None; returnDoc := None; returnDocs := None;
     skipHooks := None; returnOriginal := None |}.

Definition or_else (a b : option bool) : option bool :=
  match a with Some _ => a | None => b end.

(** [{ ...a, ...b }] on option bags: what [b] sets wins. *)
Definition spread_options (a b : Options) : Options :=
  {| strict := or_else (strict b) (strict a);
     ignoreUniqueIndex := or_else (ignoreUniqueIndex b) (ignoreUniqueIndex a);
     ignoreTimestamps := or_else (ignoreTimestamps b) (ignoreTimestamps a);
     upsert := or_else (upsert b) (upsert a);
     returnDoc := or_else (returnDoc b) (returnDoc a);
     returnDocs := or_else (returnDocs b) (returnDocs a);
     skipHooks := or_else (skipHooks b) (skipHooks a);
     returnOriginal := or_else (returnOriginal b) (returnOriginal a) |}.

(** [{ result: { ok, n }, ops }] *)
Record WriteOpResult : Type := {
  result_ok : Z;
  result_n : option Z;
  ops : list value }.

(** [{ ok, value, lastErrorObject: { upserted } }] *)
Record FindAndModifyWriteOpResult : Type := {
  ok : Z;
  res_value : value;
  upserted : value }.

(** One call to a collection primitive, as recorded in the trace. *)
Inductive StoreCall : Type :=
| CallAggregate (coll : string) (pipeline : list obj)
| CallInsertOne (coll : string) (doc : obj)
| CallInsertMany (coll : string) (docs : list obj)
| CallUpdateOne (coll : string) (filter : value) (update : obj) (opts : Options)
| CallUpdateMany (coll : string) (filter : value) (update : obj) (opts : Options)
| CallFindOneAndUpdate (coll : string) (filter : value) (update : obj) (opts : Options)
| CallDeleteOne (coll : string) (filter : value)
| CallDeleteMany (coll : string) (filter : value)
| CallFindOneAndDelete (coll : string) (filter : value)
| CallFindOneAndReplace (coll : string) (filter : value) (replacement : obj) (opts : Options).

(** The primitives of the driver's [Collection], over a store state [S]. *)
Record Store (S : Type) : Type := {
  store_aggregate : string -> list obj -> S -> result (list value) * S;
  store_insertOne : string -> obj -> S -> result WriteOpResult * S;
  store_insertMany : string -> list obj -> S -> result WriteOpResult * S;
  store_updateOne : string -> value -> obj -> Options -> S -> result WriteOpResult * S;
  store_updateMany : string -> value -> obj -> Options -> S -> result WriteOpResult * S;
  store_findOneAndUpdate :
    string -> value -> obj -> Options -> S -> result FindAndModifyWriteOpResult * S;
  store_deleteOne : string -> value -> S -> result WriteOpResult * S;
  store_deleteMany : string -> value -> S -> result WriteOpResult * S;
  store_findOneAndDelete : string -> value -> S -> result FindAndModifyWriteOpResult * S;
  store_findOneAndReplace :
    string -> value -> obj -> Options -> S -> result FindAndModifyWriteOpResult * S }.
Arguments store_aggregate {S}.
Arguments store_insertOne {S}.
Arguments store_insertMany {S}.
Arguments store_updateOne {S}.
Arguments store_updateMany {S}.
Arguments store_findOneAndUpdate {S}.
Arguments store_deleteOne {S}.
Arguments store_deleteMany {S}.
Arguments store_findOneAndDelete {S}.
Arguments store_findOneAndReplace {S}.

(** The state the engine runs in: its heap, the store, and the clock read
    by [new Date()]. *)
Record World (S : Type) : Type := {
  w_heap : heap;
  w_store : S;
  w_now : Z }.
Arguments w_heap {S}.
Arguments w_store {S}.
Arguments w_now {S}.
Arguments Build_World {S}.

(** Computations of the engine: besides the outcome and the world they
    reach, they yield the calls they made to the store, in order. *)
Definition M (S A : Type) : Type := World S -> result A * World S * list StoreCall.

#[export] Instance M_monad (S : Type) : MonadThrow (M S) := {|
  ret := fun A a w => (Ok a, w, []);
  bind := fun A B m f w =>
            match m w with
            | (Ok a, w', t) =>
                match f a w' with
                | (r, w'', t') => (r, w'', t ++ t')
                end
            | (Throw e, w', t) => (Throw e, w', t)
            end;
  throw := fun A e w => (Throw e, w, []) |}.

(** A heap computation run inside the engine: it makes no call. *)
Definition liftH {S A} (m : H A) : M S A :=
  fun w => match m (w_heap w) with
           | (r, h') => (r, Build_World h' (w_store w) (w_now w), [])
           end.

(** Runs one primitive against the store and logs the call. *)
Definition call {S A} (c : StoreCall) (prim : S -> result A * S) : M S A :=
  fun w => match prim (w_store w) with
           | (r, s') => (r, Build_World (w_heap w) s' (w_now w), [c])
           end.

(** [new Date()] *)
Definition Date_new {S} : M S value :=
  fun w => (Ok (VDate (w_now w)), w, []).

(** A model class: its static schema and its six overridable hooks.  A
    hook computes over the engine's objects; it has no handle on the
    store. *)
Record ModelClass : Type := {
  schema : Schema;
  willInsertDocument : obj -> H obj;
  didInsertDocument : value -> H unit;
  willUpdateDocument : Query -> obj -> H (Query * obj);
  didUpdateDocument : value -> value -> H unit;
  willDeleteDocument : Query -> H Query;
  didDeleteDocument : value -> H unit }.

(** [ModelClass.schema], for use where a parameter is itself named
    [schema]. *)
Abbreviation static_schema := schema.

(** The hooks of the base class [Model] (lines 703-755): identities and
    no-ops. *)
Definition Model (sch : Schema) : ModelClass :=
  {| schema := sch;
     willInsertDocument := fun doc => ret doc;
     didInsertDocument := fun _ => ret tt;
     willUpdateDocument := fun query update => ret (query, update);
     didUpdateDocument := fun _ _ => ret tt;
     willDeleteDocument := fun query => ret query;
     didDeleteDocument := fun _ => ret tt |}.

(* ===================================================================== *)
(** ** index: the model registry, and core/Aggregation *)
(* ===================================================================== *)

(** [PipelineFactorySpecs].  [$match] and [$prune] are queries; the other
    three are carried as plain values and checked by the factory. *)
Record PipelineFactorySpecs : Type := {
  specs_lookup : value;
  specs_match : option Query;
  specs_prune : option Query;
  specs_group : value;
  specs_sort : value }.

(** [PipelineFactoryOptions], with [prefix = ''] and [pipeline = []] when
    absent. *)
Record PipelineFactoryOptions : Type := {
  prefix : option string;
  pipeline : option (list obj) }.

Definition is_undefined (v : value) : bool :=
  match v with VUndefined => true | _ => false end.

Definition is_string (v : value) : bool :=
  match v with VStr _ => true | _ => false end.

(** [typeof v === 'object'] *)
Definition typeof_object (v : value) : bool :=
  match v with VNull | VOid _ | VDate _ | VArr _ | VObj _ => true | _ => false end.

(** Truthiness of a query used as a condition. *)
Definition query_truthy (q : option Query) : bool :=
  match q with
  | None => false
  | Some (QString s) => negb (String.eqb s "")
  | Some _ => true
  end.

Definition lookup_stage (from localField as_ : string) : obj :=
  [("$lookup", VObj [("from", VStr from);
                     ("localField", VStr localField);
                     ("foreignField", VStr "_id");
                     ("as", VStr as_)])].

Definition unwind_stage (path : string) : obj :=
  [("$unwind", VObj [("path", VStr path);
                     ("preserveNullAndEmptyArrays", VBool true)])].

Section Aggregation.

(** [options.models], the registry handed to [configure()]. *)
Variable models : option (list (string * ModelClass)).

Fixpoint models_get (ms : list (string * ModelClass)) (k : string) : option (ModelClass) :=
  match ms with
  | [] => None
  | (k', m) :: r => if String.eqb k k' then Some m else models_get r k
  end.

(** [getModel(modelOrCollectionName)] *)
Definition getModel (modelOrCollectionName : string) : result (ModelClass) :=
  let not_found :=
    Throw (Error ("No model found for model/collection name " +:+ modelOrCollectionName)) in
  match models with
  | Some ms =>
      match models_get ms modelOrCollectionName with
      | Some m => Ok m
      | None =>
          match find (fun p => String.eqb (collection (static_schema (snd p))) modelOrCollectionName) ms with
          | Some p => Ok (snd p)
          | None => not_found
          end
      end
  | None => not_found
  end.

(** [Aggregation.lookupStageFactory].  The loop over [specs] pushes a
    [$lookup] and an [$unwind] stage per key and, for an object value,
    appends the stages of the nested specs. *)
Fixpoint lookupStageFactory (schema : Schema) (specs : value)
         (fromPrefix toPrefix : string) {struct specs} : result (list obj) :=
  match specs with
  | VObj entries =>
      (fix loop (entries : list (string * value)) (pipe : list obj) {struct entries}
         : result (list obj) :=
         match entries with
         | [] => Ok pipe
         | (key, val) :: rest =>
             if negb (match val with VBool true => true | _ => typeof_object val end) then
               Throw (Error "[lookup([object Object], [object Object], [object Object])] Invalid populate properties.")
             else
               match (match field_get (fields schema) key with
                      | Some f => ref f
                      | None => None
                      end) with
               | Some r =>
                   if String.eqb r "" then
                     Throw (Error "[lookup([object Object], [object Object], [object Object])] The field to populate does not have a reference model specified in the schema.")
                   else
                     match getModel r with
                     | Throw e => Throw e
                     | Ok m =>
                         let schemaRef := static_schema m in
                         let pipe := pipe ++ [lookup_stage (collection schemaRef)
                                                           (fromPrefix +:+ key)
                                                           (toPrefix +:+ key)] in
                         let pipe := pipe ++ [unwind_stage ("$" +:+ toPrefix +:+ key)] in
                         if is_object val then
                           match lookupStageFactory schemaRef val
                                   (toPrefix +:+ key +:+ ".") (toPrefix +:+ key +:+ ".") with
                           | Ok nested => loop rest (pipe ++ nested)
                           | Throw e => Throw e
                           end
                         else loop rest pipe
                     end
               | None =>
                   Throw (Error "[lookup([object Object], [object Object], [object Object])] The field to populate does not have a reference model specified in the schema.")
               end
         end) entries []
  | _ => Ok []
  end.

End Aggregation.

(** [Aggregation.matchStageFactory] *)
Definition matchStageFactory (schema : Schema) (specs : Query) (prefix : string)
  : H (list obj) :=
  do sanitized <- sanitizeQuery schema specs false;
  do o <- read sanitized;
  let query :=
    fold_left (fun query key => obj_set query (prefix +:+ key) (prop o key)) (keys o) [] in
  ret [[("$match", VObj query)]].

(** [Aggregation.groupStageFactory] *)
Definition groupStageFactory (schema : Schema) (specs : value) : list obj :=
  match specs with
  | VStr s => [[("$group", VObj [("_id", VStr ("$" +:+ s))])]]
  | _ => [[("$group", specs)]]
  end.

(** [Aggregation.sortStageFactory] *)
Definition sortStageFactory (schema : Schema) (specs : value) : list obj :=
  [[("$sort", specs)]].

(** [Aggregation.pipelineFactory].  The guards on [$match], [$prune],
    [prefix] and [pipeline] (lines 24, 26, 29, 30) hold for every argument of
    these types; the other three are checked. *)
Definition pipelineFactory (models : option (list (string * ModelClass)))
           (schema : Schema) (specs : PipelineFactorySpecs)
           (options : PipelineFactoryOptions) : H (list obj) :=
  let prefix := match prefix options with Some p => p | None => "" end in
  let pipeline := match pipeline options with Some p => p | None => [] end in
  let lookup := specs_lookup specs in
  let group := specs_group specs in
  let sort := specs_sort specs in
  exec assert (is_undefined lookup || is_object lookup)
              (Error "Bad $lookup descriptor provided");
  exec assert (is_undefined group || is_object group || is_string group)
              (Error "Bad $group descriptor provided");
  exec assert (is_undefined sort || is_object sort)
              (Error "Bad $sort descriptor provided");
  do pipeline <-
    (if truthy lookup then
       do stages <- lift_result (lookupStageFactory models schema lookup prefix prefix);
       ret (stages ++ pipeline)
     else ret pipeline);
  do pipeline <-
    (match specs_match specs with
     | Some q =>
         if query_truthy (Some q) then
           do stages <- matchStageFactory schema q prefix;
           ret (stages ++ pipeline)
         else ret pipeline
     | None => ret pipeline
     end);
  do pipeline <-
    (match specs_prune specs with
     | Some q =>
         if query_truthy (Some q) then
           do stages <- matchStageFactory schema q "";
           ret (pipeline ++ stages)
         else ret pipeline
     | None => ret pipeline
     end);
  let pipeline :=
    if truthy group then pipeline ++ groupStageFactory schema group else pipeline in
  let pipeline :=
    if truthy sort then pipeline ++ sortStageFactory schema sort else pipeline in
  ret pipeline.

(* ===================================================================== *)
(** ** core/Model *)
(* ===================================================================== *)

(** Property access on a value of unknown shape ([doc._id]). *)
Definition member (v : value) (k : string) : value :=
  match v with VObj o => prop o k | _ => VUndefined end.

(** The own enumerable properties a [for ... in] or a spread sees. *)
Definition props (v : value) : obj :=
  match v with VObj o => o | _ => [] end.

(** [types.typeIsUpdate], on an object. *)
Definition typeIsUpdate (u : obj) : bool := existsb startsWith_dollar (keys u).

(** The argument of [Model.pipeline]. *)
Inductive QueryOrSpecs : Type :=
| AsQuery (q : Query)
| AsSpecs (s : PipelineFactorySpecs).

(** [{ $match: q }] *)
Definition match_only (q : option Query) : PipelineFactorySpecs :=
  {| specs_lookup := VUndefined; specs_match := q; specs_prune := None;
     specs_group := VUndefined; specs_sort := VUndefined |}.

Definition no_pipeline_options : PipelineFactoryOptions :=
  {| prefix := None; pipeline := None |}.

(** A value used where a query is expected.  A plain object becomes a
    filter object of its own (an array or a date, one without string keys);
    a value that is neither undefined, an object nor a string is what the
    [$match] guard of pipelineFactory rejects. *)
Definition query_of_value (bad : string) (v : value) : H (option Query) :=
  match v with
  | VUndefined => ret None
  | VStr s => ret (Some (QString s))
  | VOid oid => ret (Some (QObjectID oid))
  | VObj o => do l <- alloc o; ret (Some (QObject l))
  | VArr _ | VDate _ => do l <- alloc []; ret (Some (QObject l))
  | VNull | VBool _ | VNum _ => throw (Error bad)
  end.

(** [queryOrSpecs as PipelineFactorySpecs] for a filter object that has an
    operator key: the five sub-specs are read off the object, under the
    guards of lines 24-26. *)
Definition specs_of_object (o : obj) : H PipelineFactorySpecs :=
  do m <- query_of_value "Bad $match descriptor provided" (prop o "$match");
  exec assert (is_undefined (prop o "$lookup") || is_object (prop o "$lookup"))
              (Error "Bad $lookup descriptor provided");
  do p <- query_of_value "Bad $prune descriptor provided" (prop o "$prune");
  ret {| specs_lookup := prop o "$lookup"; specs_match := m; specs_prune := p;
         specs_group := prop o "$group"; specs_sort := prop o "$sort" |}.

Definition specs_has_key (s : PipelineFactorySpecs) : bool :=
  negb (is_undefined (specs_lookup s))
  || (match specs_match s with Some _ => true | None => false end)
  || (match specs_prune s with Some _ => true | None => false end)
  || negb (is_undefined (specs_group s))
  || negb (is_undefined (specs_sort s)).

Section Engine.

Context {S : Type}.

(** The collection API the engine talks to, and the registry. *)
Variable store : Store S.
Variable models : option (list (string * ModelClass)).

(** [bcrypt.hash(data, saltRounds)], the coercion of a template literal, and
    [utils/validateFieldValue]: collaborators that are not among the
    sources. *)
Variable bcrypt_hash : string -> Z -> string.
Variable template : value -> string.
Variable validateFieldValue : value -> FieldSpecs -> bool.

(** [Model.getCollection].  Resolving the handle of [schema.collection] is
    connection management and leaves the store alone. *)
Definition getCollection (this : ModelClass) : M S string :=
  ret (collection (schema this)).

Definition collection_aggregate (coll : string) (p : list obj) : M S (list value) :=
  call (CallAggregate coll p) (store_aggregate store coll p).
Definition collection_insertOne (coll : string) (doc : obj) : M S WriteOpResult :=
  call (CallInsertOne coll doc) (store_insertOne store coll doc).
Definition collection_insertMany (coll : string) (docs : list obj) : M S WriteOpResult :=
  call (CallInsertMany coll docs) (store_insertMany store coll docs).
Definition collection_updateOne (coll : string) (q : value) (u : obj) (o : Options)
  : M S WriteOpResult :=
  call (CallUpdateOne coll q u o) (store_updateOne store coll q u o).
Definition collection_updateMany (coll : string) (q : value) (u : obj) (o : Options)
  : M S WriteOpResult :=
  call (CallUpdateMany coll q u o) (store_updateMany store coll q u o).
Definition collection_findOneAndUpdate (coll : string) (q : value) (u : obj) (o : Options)
  : M S FindAndModifyWriteOpResult :=
  call (CallFindOneAndUpdate coll q u o) (store_findOneAndUpdate store coll q u o).
Definition collection_deleteOne (coll : string) (q : value) : M S WriteOpResult :=
  call (CallDeleteOne coll q) (store_deleteOne store coll q).
Definition collection_deleteMany (coll : string) (q : value) : M S WriteOpResult :=
  call (CallDeleteMany coll q) (store_deleteMany store coll q).
Definition collection_findOneAndDelete (coll : string) (q : value)
  : M S FindAndModifyWriteOpResult :=
  call (CallFindOneAndDelete coll q) (store_findOneAndDelete store coll q).

(** The filter handed to a primitive: the current content of a filter
    object, or the ObjectID itself. *)
Definition filter_of_query (q : Query) : M S value :=
  match q with
  | QObject l => do o <- liftH (read l); ret (VObj o)
  | QObjectID oid => ret (VOid oid)
  | QString s => ret (VStr s)
  end.

(** [Model.randomFields] *)
Definition randomFields (this : ModelClass) (fixedFields : obj) (includeOptionals : bool)
  : obj :=
  let fields := fields (schema this) in
  let o :=
    fold_left
      (fun o key =>
         if hasOwnProperty o key then o
         else match field_get fields key with
              | Some fieldSpecs =>
                  if negb includeOptionals && negb (flag (required fieldSpecs)) then o
                  else match random fieldSpecs with
                       | Some f => obj_set o key (f tt)
                       | None => o
                       end
              | None => o
              end)
      (map fst fields) [] in
  fold_left (fun o key => obj_set o key (prop fixedFields key)) (keys fixedFields) o.

(** [Model.pipeline] *)
Definition pipeline_ (this : ModelClass) (queryOrSpecs : option QueryOrSpecs)
           (options : PipelineFactoryOptions) : H (list obj) :=
  match queryOrSpecs with
  | Some (AsQuery (QObject l)) =>
      do o <- read l;
      if existsb startsWith_dollar (keys o) then
        do specs <- specs_of_object o;
        pipelineFactory models (schema this) specs options
      else pipelineFactory models (schema this) (match_only (Some (QObject l))) options
  | Some (AsQuery q) =>
      pipelineFactory models (schema this) (match_only (Some q)) options
  | Some (AsSpecs s) =>
      if specs_has_key s then pipelineFactory models (schema this) s options
      else
        do l <- alloc [];
        pipelineFactory models (schema this) (match_only (Some (QObject l))) options
  | None => pipelineFactory models (schema this) (match_only None) options
  end.

(** [Model.findMany] *)
Definition findMany (this : ModelClass) (query : option Query) : M S (list value) :=
  do collection <- getCollection this;
  do p <- liftH (pipeline_ this (option_map AsQuery query) no_pipeline_options);
  collection_aggregate collection p.

(** [Model.findOne] *)
Definition findOne (this : ModelClass) (query : option Query) : M S value :=
  match query with
  | None =>
      do collection <- getCollection this;
      do p <- liftH (pipeline_ this None no_pipeline_options);
      do results <- collection_aggregate collection
                      (p ++ [[("$sample", VObj [("size", VNum 1)])]]);
      exec assert (Nat.leb (length results) 1)
             (Error "More than 1 random document found even though only 1 was supposed to be found.");
      match results with
      | [r] => ret r
      | _ => ret VNull
      end
  | Some q =>
      do results <- findMany this (Some q);
      match results with
      | [] => ret VNull
      | r :: _ => ret r
      end
  end.

(** [findOne(v)] for a value read off a document or a reply. *)
Definition findOne_value (this : ModelClass) (v : value) : M S value :=
  if is_nullOrUndefined v then findOne this None
  else
    do q <- liftH (query_of_value "Bad $match descriptor provided" v);
    findOne this q.

(** [Model.formatDocument] *)
Definition formatDocument (this : ModelClass) (doc : obj) : obj :=
  let fields := fields (schema this) in
  fold_left
    (fun formattedDoc key =>
       if negb (hasOwnProperty formattedDoc key) then formattedDoc
       else match field_get fields key with
            | Some fieldSpecs =>
                let formattedDoc :=
                  match format fieldSpecs with
                  | Some f => obj_set formattedDoc key (f (prop formattedDoc key))
                  | None => formattedDoc
                  end in
                if is_true (encrypted fieldSpecs) then
                  obj_set formattedDoc key
                          (VStr (bcrypt_hash (template (prop formattedDoc key)) 10))
                else formattedDoc
            | None => formattedDoc
            end)
    (map fst fields) doc.

(** [field.default] used as a condition (line 684). *)
Definition default_truthy (f : FieldSpecs) : bool :=
  match default f with
  | None => false
  | Some (DefaultValue v) => truthy v
  | Some (DefaultFunction _) => true
  end.

(** Checks #1 and #2 of [validateDocument] (lines 637-657): every key but
    the generated ones is a declared field whose value passes
    [validateFieldValue]. *)
Definition validate_fields (this : ModelClass) (o : obj) : M S unit :=
  let fields := fields (schema this) in
  for_each (keys o)
    (fun key =>
       if String.eqb key "_id" then ret tt
       else if flag (timestamps (schema this)) && String.eqb key "updatedAt" then ret tt
       else if flag (timestamps (schema this)) && String.eqb key "createdAt" then ret tt
       else
         let val := prop o key in
         match field_get fields key with
         | None =>
             throw (Error ("The field '" +:+ key +:+ "' is not defined in the schema"))
         | Some fieldSpecs =>
             if negb (validateFieldValue val fieldSpecs) then
               throw (Error ("Error validating field '" +:+ key +:+ "'"))
             else ret tt
         end).

(** Check #3 (lines 660-675): no other document has the values of a unique
    index. *)
Definition validate_unique (this : ModelClass) (o : obj) (options : Options) : M S unit :=
  match indexes (schema this) with
  | Some idxs =>
      if negb (is_true (ignoreUniqueIndex options)) then
        for_each idxs
          (fun index =>
             match index_options index with
             | None => ret tt
             | Some io =>
                 if negb (flag (unique io)) then ret tt
                 else if negb (forallb (fun v => existsb (String.eqb v) (keys o))
                                       (keys (index_spec index))) then ret tt
                 else
                   let uniqueQuery := pick o (keys (index_spec index)) in
                   do l <- liftH (alloc uniqueQuery);
                   do found <- findOne this (Some (QObject l));
                   if truthy found then
                     throw (Error "Another document already exists with the same unique fields")
                   else ret tt
             end)
      else ret tt
  | None => ret tt
  end.

(** Check #4 (lines 678-687): no required field without a default is
    missing. *)
Definition validate_required (this : ModelClass) (o : obj) : M S unit :=
  let fields := fields (schema this) in
  for_each (map fst fields)
    (fun key =>
       match field_get fields key with
       | Some field =>
           if negb (flag (required field)) || default_truthy field then ret tt
           else if negb (hasOwnProperty o key) then
             throw (Error ("Missing required field '" +:+ key +:+ "'"))
           else ret tt
       | None => ret tt
       end).

(** [Model.validateDocument] *)
Definition validateDocument (this : ModelClass) (doc : value) (options : Options)
  : M S bool :=
  if negb (is_plainObject doc) then throw (Error "Invalid document provided")
  else if is_emptyObject doc then throw (Error "Empty objects are not permitted")
  else
    let o := props doc in
    exec validate_fields this o;
    exec validate_unique this o options;
    exec (if is_true (strict options) then validate_required this o else ret tt);
    ret true.

(** The defaults [beforeInsert] spreads the caller's options over. *)
Definition validate_defaults : Options :=
  {| strict := Some true; ignoreUniqueIndex := Some true; ignoreTimestamps := None;
     upsert := None; returnDoc := None; returnDocs := None;
     skipHooks := None; returnOriginal := None |}.

Definition only_strict (b : bool) : Options :=
  {| strict := Some b; ignoreUniqueIndex := None; ignoreTimestamps := None;
     upsert := None; returnDoc := None; returnDocs := None;
     skipHooks := None; returnOriginal := None |}.

Definition only_ignoreUniqueIndex : Options :=
  {| strict := None; ignoreUniqueIndex := Some true; ignoreTimestamps := None;
     upsert := None; returnDoc := None; returnDocs := None;
     skipHooks := None; returnOriginal := None |}.

(** The loop of [beforeInsert] that fills in schema defaults
    (lines 782-793). *)
Definition fill_defaults (this : ModelClass) (o : obj) : obj :=
  let fields := fields (schema this) in
  fold_left
    (fun o key =>
       if hasOwnProperty o key then o
       else match field_get fields key with
            | Some fieldSpecs =>
                match default fieldSpecs with
                | None | Some (DefaultValue VUndefined) => o
                | Some (DefaultValue v) => obj_set o key v
                | Some (DefaultFunction f) => obj_set o key (f tt)
                end
            | None => o
            end)
    (map fst fields) o.

(** [if (!is.date(o[key])) o[key] = new Date()] *)
Definition stamp (o : obj) (key : string) : M S obj :=
  if is_date (prop o key) then ret o
  else do now <- Date_new; ret (obj_set o key now).

(** [Model.beforeInsert] *)
Definition beforeInsert (this : ModelClass) (doc : obj) (options : Options) : M S obj :=
  do d <- liftH (willInsertDocument this doc);
  let o := sanitizeDocument (schema this) d in
  do o <- (if is_true (timestamps (schema this)) && negb (is_true (ignoreTimestamps options))
           then do o <- stamp o "createdAt"; stamp o "updatedAt"
           else ret o);
  let o := fill_defaults this o in
  let o := formatDocument this o in
  exec validateDocument this (VObj o) (spread_options validate_defaults options);
  ret o.

(** [Model.afterInsert] *)
Definition afterInsert (this : ModelClass) (doc : value) : M S unit :=
  liftH (didInsertDocument this doc).

(** [assert(x)] without a message. *)
Definition falsy_assertion : error :=
  AssertionError "The expression evaluated to a falsy value".

(** [Model.insertOne] *)
Definition insertOne (this : ModelClass) (doc : option obj) (options : Options) : M S value :=
  if is_true (noInserts (schema this)) then
    throw (Error "Insertions are disallowed for this model")
  else
    do t <- beforeInsert this
              (match doc with Some d => d | None => randomFields this [] false end)
              (spread_options (only_strict true) options);
    do collection <- getCollection this;
    do results <- collection_insertOne collection t;
    exec assert (Z.eqb (result_ok results) 1) falsy_assertion;
    exec assert (Nat.leb (length (ops results)) 1)
           (Error "Somehow insertOne() op inserted more than 1 document");
    match ops results with
    | [] => ret VNull
    | o :: _ => exec afterInsert this o; ret o
    end.

(** [Model.insertMany] *)
Definition insertMany (this : ModelClass) (docs : list obj) (options : Options)
  : M S (list value) :=
  if is_true (noInserts (schema this)) || is_true (noInsertMany (schema this)) then
    throw (Error "Multiple insertions are disallowed for this model")
  else
    do t <- map_st docs (fun doc => beforeInsert this doc no_options);
    do collection <- getCollection this;
    do results <- collection_insertMany collection t;
    exec assert (Z.eqb (result_ok results) 1) falsy_assertion;
    let o := ops results in
    exec for_each o (afterInsert this);
    ret o.

(** [if (uu[k]) uu[k] = sanitizeDocument(schema, uu[k])] *)
Definition sanitize_operator (this : ModelClass) (uu : obj) (k : string) : obj :=
  if truthy (prop uu k)
  then obj_set uu k (VObj (sanitizeDocument (schema this) (props (prop uu k))))
  else uu.

(** [v || {}], spread. *)
Definition props_or_empty (v : value) : obj :=
  if truthy v then props v else [].

(** [Model.beforeUpdate] *)
Definition beforeUpdate (this : ModelClass) (query : Query) (update : obj)
           (options : Options) : M S (Query * obj) :=
  if is_true (upsert options) && negb (is_true (allowUpsert (schema this))) then
    throw (Error "Attempting to upsert a document while upserting is disallowed in the schema")
  else
    do '(q, u) <- liftH (willUpdateDocument this query update);
    do qq <- liftH (sanitizeQuery (schema this) q true);
    let uu :=
      if typeIsUpdate u then
        fold_left (sanitize_operator this) ["$set"; "$setOnInsert"; "$addToSet"; "$push"] u
      else [("$set", VObj (sanitizeDocument (schema this) u))] in
    do uu <-
      (if is_true (timestamps (schema this)) && negb (is_true (ignoreTimestamps options)) then
         let uu := if truthy (prop uu "$set") then uu else obj_set uu "$set" (VObj []) in
         do set <- stamp (props (prop uu "$set")) "updatedAt";
         ret (obj_set uu "$set" (VObj set))
       else ret uu);
    let uu :=
      if truthy (prop uu "$set")
      then obj_set uu "$set" (VObj (formatDocument this (props (prop uu "$set"))))
      else uu in
    do uu <-
      (if is_true (upsert options) then
         do copy <- liftH (read qq);
         do inserted <- beforeInsert this copy (spread_options options (only_strict false));
         let setOnInsert :=
           omit (spread (props_or_empty (prop uu "$setOnInsert")) inserted)
                (keys (props_or_empty (prop uu "$set"))) in
         if negb (is_emptyObject (VObj setOnInsert))
         then ret (obj_set uu "$setOnInsert" (VObj setOnInsert))
         else ret uu
       else ret uu);
    exec validateDocument this (prop uu "$set")
           (spread_options only_ignoreUniqueIndex options);
    ret (QObject qq, uu).

(** [Model.afterUpdate] *)
Definition afterUpdate (this : ModelClass) (oldDoc newDocs : value) : M S unit :=
  liftH (didUpdateDocument this oldDoc newDocs).

Definition is_object_query (q : Query) : bool :=
  match q with QString _ => false | _ => true end.

Definition invalid_query : error :=
  Error "Invalid query, maybe it is not sanitized? This could happen if you enabled skipHooks in the options, in which case you will need to sanitize the query yourself".

(** [n <= 0] on a count that may not be a number. *)
Definition count_le_0 (n : option Z) : bool :=
  match n with Some n => Z.leb n 0 | None => false end.

Definition with_returnOriginal (b : bool) (options : Options) : Options :=
  {| strict := strict options; ignoreUniqueIndex := ignoreUniqueIndex options;
     ignoreTimestamps := ignoreTimestamps options; upsert := upsert options;
     returnDoc := returnDoc options; returnDocs := returnDocs options;
     skipHooks := skipHooks options; returnOriginal := Some b |}.

(** [Model.updateOne] *)
Definition updateOne (this : ModelClass) (query : Query) (update : obj)
           (options : Options) : M S value :=
  if is_true (noUpdates (schema this)) then
    throw (Error "Updates are disallowed for this model")
  else
    do collection <- getCollection this;
    do '(q, u) <- (if is_true (skipHooks options) then ret (query, update)
                   else beforeUpdate this query update options);
    if is_true (returnDoc options) then
      if negb (is_object_query q) then throw invalid_query
      else
        do filter <- filter_of_query q;
        do res <- collection_findOneAndUpdate collection filter u
                    (with_returnOriginal true options);
        exec assert (Z.eqb (ok res) 1) (Error "Update failed");
        let finish (oldDoc newDoc : value) : M S value :=
          if is_nullOrUndefined newDoc then throw (Error "Unable to find the updated doc")
          else
            exec (if negb (is_true (skipHooks options))
                  then afterUpdate this oldDoc newDoc else ret tt);
            ret newDoc in
        if is_nullOrUndefined (upserted res) then
          let oldDoc := res_value res in
          if is_nullOrUndefined oldDoc then ret VNull
          else
            do newDoc <- findOne_value this (member oldDoc "_id");
            finish oldDoc newDoc
        else
          do newDoc <- findOne_value this (upserted res);
          finish VUndefined newDoc
    else
      if negb (is_object_query q) then throw invalid_query
      else
        do filter <- filter_of_query q;
        do res <- collection_updateOne collection filter u options;
        exec assert (Z.eqb (result_ok res) 1) falsy_assertion;
        if count_le_0 (result_n res) then ret (VBool false)
        else
          exec (if negb (is_true (skipHooks options))
                then afterUpdate this VUndefined VUndefined else ret tt);
          ret (VBool true).

Definition as_returnDoc_skipHooks (options : Options) : Options :=
  {| strict := strict options; ignoreUniqueIndex := ignoreUniqueIndex options;
     ignoreTimestamps := ignoreTimestamps options; upsert := upsert options;
     returnDoc := Some true; returnDocs := returnDocs options;
     skipHooks := Some true; returnOriginal := returnOriginal options |}.

Definition is_boolean_or_null (v : value) : bool :=
  match v with VBool _ | VNull => true | _ => false end.

(** [Model.updateMany] *)
Definition updateMany (this : ModelClass) (query : Query) (update : obj)
           (options : Options) : M S value :=
  if is_true (noUpdates (schema this)) || is_true (noUpdateMany (schema this)) then
    throw (Error "Multiple updates are disallowed for this model")
  else
    do '(q, u) <- beforeUpdate this query update options;
    do collection <- getCollection this;
    if is_true (returnDocs options) then
      do docs <- findMany this (Some q);
      do results <-
        (if Nat.leb (length docs) 0 && is_true (upsert options) then
           do res <- updateOne this q u (as_returnDoc_skipHooks options);
           if is_boolean_or_null res then
             throw (Error "Error upserting document during an updateMany operation")
           else ret [res]
         else
           map_st docs
             (fun doc =>
                do result <- collection_findOneAndUpdate collection
                               (VObj [("_id", member doc "_id")]) u
                               (spread_options (with_returnOriginal false no_options) options);
                exec assert (Z.eqb (ok result) 1) falsy_assertion;
                exec assert (truthy (res_value result)) falsy_assertion;
                ret (res_value result)));
      exec afterUpdate this VUndefined (VArr results);
      ret (VArr results)
    else
      do filter <- filter_of_query q;
      do results <- collection_updateMany collection filter u options;
      exec assert (Z.eqb (result_ok results) 1) falsy_assertion;
      if count_le_0 (result_n results) then ret (VBool false)
      else
        exec afterUpdate this VUndefined VUndefined;
        ret (VBool true).

(** [Model.beforeDelete] *)
Definition beforeDelete (this : ModelClass) (query : Query) (options : Options) : M S loc :=
  do q <- liftH (willDeleteDocument this query);
  liftH (sanitizeQuery (schema this) q true).

(** *** Deletion

    [deleteMany], [afterDelete] and [cascadeDelete] call one another;
    [cascadeDelete_with] and [afterDelete_with] take the [deleteMany] they
    call as a parameter. *)

Definition is_ObjectID (v : value) : bool :=
  match v with VOid _ => true | _ => false end.

(** [Model.cascadeDelete] *)
Definition cascadeDelete_with
           (deleteMany : ModelClass -> Query -> Options -> M S value)
           (this : ModelClass) (docId : value) : M S unit :=
  match cascade (schema this) with
  | None => ret tt
  | Some cascadeModelNames =>
      for_each cascadeModelNames
        (fun modelName =>
           do ModelClass <- lift_result (getModel models modelName);
           let fields := fields (schema ModelClass) in
           for_each (map fst fields)
             (fun key =>
                match field_get fields key with
                | Some field =>
                    match ref field with
                    | Some r =>
                        if String.eqb r (model (schema this)) then
                          do l <- liftH (alloc [(key, docId)]);
                          exec deleteMany ModelClass (QObject l) no_options;
                          ret tt
                        else ret tt
                    | None => ret tt
                    end
                | None => ret tt
                end))
  end.

(** [Model.afterDelete] *)
Definition afterDelete_with
           (deleteMany : ModelClass -> Query -> Options -> M S value)
           (this : ModelClass) (docs : value) : M S unit :=
  exec (match docs with
        | VArr ds =>
            for_each ds
              (fun doc =>
                 if negb (is_ObjectID (member doc "_id")) then ret tt
                 else cascadeDelete_with deleteMany this (member doc "_id"))
        | _ =>
            if negb (is_nullOrUndefined docs) && is_ObjectID (member docs "_id")
            then cascadeDelete_with deleteMany this (member docs "_id")
            else ret tt
        end);
  liftH (didDeleteDocument this docs).

(** Keeps the truthy values of a list of optional results. *)
Definition truthy_values (vs : list value) : list value := List.filter truthy vs.

(** The body of [Model.deleteMany]. *)
Definition deleteMany_body
           (deleteMany : ModelClass -> Query -> Options -> M S value)
           (this : ModelClass) (query : Query) (options : Options) : M S value :=
  if is_true (noDeletes (schema this)) || is_true (noDeleteMany (schema this)) then
    throw (Error "Multiple deletions are disallowed for this model")
  else
    do q <- beforeDelete this query options;
    do collection <- getCollection this;
    if is_true (returnDocs options) then
      do docs <- findMany this (Some (QObject q));
      do values <-
        map_st docs
          (fun doc =>
             do result <- collection_findOneAndDelete collection
                            (VObj [("_id", member doc "_id")]);
             exec assert (Z.eqb (ok result) 1) falsy_assertion;
             ret (res_value result));
      let results := truthy_values values in
      exec afterDelete_with deleteMany this (VArr results);
      ret (VArr results)
    else
      do filter <- filter_of_query (QObject q);
      do results <- collection_deleteMany collection filter;
      exec assert (Z.eqb (result_ok results) 1) falsy_assertion;
      if negb (match result_n results with Some _ => true | None => false end)
         || count_le_0 (result_n results)
      then ret (VBool false)
      else
        exec afterDelete_with deleteMany this VUndefined;
        ret (VBool true).

(** [Model.deleteMany] with a bound on the depth of cascading calls. *)
Fixpoint deleteMany_depth (depth : nat) (this : ModelClass) (query : Query)
         (options : Options) {struct depth} : M S value :=
  match depth with
  | O => throw (Error "Maximum call stack size exceeded")
  | Datatypes.S depth' => deleteMany_body (deleteMany_depth depth') this query options
  end.

(** [Model.deleteMany].  A cascading call runs without [returnDocs] and so
    hands no documents to [afterDelete]: the calls never nest deeper than
    two. *)
Definition deleteMany : ModelClass -> Query -> Options -> M S value :=
  deleteMany_depth 2.

Definition cascadeDelete : ModelClass -> value -> M S unit :=
  cascadeDelete_with (deleteMany_depth 1).

Definition afterDelete : ModelClass -> value -> M S unit :=
  afterDelete_with (deleteMany_depth 1).

(** [Model.deleteOne] *)
Definition deleteOne (this : ModelClass) (query : Query) (options : Options) : M S value :=
  if is_true (noDeletes (schema this)) then
    throw (Error "Deletions are disallowed for this model")
  else
    do q <- beforeDelete this query options;
    do collection <- getCollection this;
    do filter <- filter_of_query (QObject q);
    if is_true (returnDoc options) then
      do results <- collection_findOneAndDelete collection filter;
      exec assert (Z.eqb (ok results) 1) falsy_assertion;
      if negb (truthy (res_value results)) then ret VNull
      else
        exec afterDelete this (res_value results);
        ret (res_value results)
    else
      do results <- collection_deleteOne collection filter;
      exec assert (Z.eqb (result_ok results) 1) falsy_assertion;
      if negb (match result_n results with Some _ => true | None => false end)
         || count_le_0 (result_n results)
      then ret (VBool false)
      else
        exec afterDelete this VUndefined;
        ret (VBool true).


End Engine.

(* ===================================================================== *)
(** * Properties *)
(* ===================================================================== *)

(** ** Running computations *)

Ltac run :=
  unfold assert, lift_result; cbn [bind ret throw H_monad M_monad].
Ltac run_in Hyp :=
  unfold assert, lift_result in Hyp; cbn [bind ret throw H_monad M_monad] in Hyp.

(** Case analysis on the innermost scrutinee of a run. *)
Ltac innermost x :=
  lazymatch x with
  | context [match ?y with _ => _ end] => innermost y
  | _ => x
  end.
Ltac case_step Hyp :=
  match type of Hyp with
  | context [match ?x with _ => _ end] =>
      let y := innermost x in destruct y eqn:?
  end.

Ltac use_eqs :=
  repeat match goal with
         | E : ?l = _ |- context [?l] => rewrite E
         end.

(** ** Objects *)

Lemma eqb_false_neq (a b : string) : String.eqb a b = false <-> a <> b.
Proof. apply String.eqb_neq. Qed.

Lemma obj_get_In (o : obj) (k : string) (v : value) :
  obj_get o k = Some v -> In (k, v) o.
Proof.
  induction o as [|[k' v'] r IH]; simpl; [discriminate|].
  destruct (String.eqb k k') eqn:E.
  - apply String.eqb_eq in E. intros [= ->]. subst. now left.
  - intros Hr. right. now apply IH.
Qed.

Lemma obj_get_None (o : obj) (k : string) :
  obj_get o k = None <-> ~ In k (keys o).
Proof.
  induction o as [|[k' v'] r IH]; simpl.
  - split; [intros _ []|reflexivity].
  - destruct (String.eqb k k') eqn:E.
    + apply String.eqb_eq in E. subst. split; [discriminate|]. intros Hn. exfalso. apply Hn. now left.
    + apply String.eqb_neq in E. rewrite IH. split.
      * intros Hn [Hk|Hk]; [now apply E|now apply Hn].
      * intros Hn Hk. apply Hn. now right.
Qed.



(** ** The strict-mode loop of sanitizeQuery *)

(** What one key does to the object under sanitization. *)
Definition strict_step (schema : Schema) (cur : obj) (key : string) : obj :=
  if retained_key schema key then cur else obj_delete cur key.

Lemma sanitizeQuery_step_run (schema : Schema) (l : loc) (key : string) (h : heap) (cur : obj) :
  h !! l = Some cur ->
  sanitizeQuery_step schema l key h = (Ok tt, <[l := strict_step schema cur key]> h).
Proof.
  intros Hl. unfold sanitizeQuery_step, strict_step, retained_key.
  destruct (String.eqb key "_id"); simpl.
  { run. now rewrite list_insert_id. }
  destruct (flag (timestamps schema) && String.eqb key "createdAt"); simpl.
  { run. now rewrite list_insert_id. }
  destruct (flag (timestamps schema) && String.eqb key "updatedAt"); simpl.
  { run. now rewrite list_insert_id. }
  destruct (fields_hasOwnProperty (fields schema) key); simpl.
  { run. now rewrite list_insert_id. }
  unfold delete_prop. run. unfold read, write. now rewrite Hl.
Qed.

Lemma strict_loop_run (schema : Schema) (l : loc) (ks : list string) :
  forall (h : heap) (cur : obj),
    h !! l = Some cur ->
    for_each ks (sanitizeQuery_step schema l) h
    = (Ok tt, <[l := fold_left (strict_step schema) ks cur]> h).
Proof.
  induction ks as [|k ks IH]; intros h cur Hl; simpl.
  - run. now rewrite list_insert_id.
  - run. rewrite (sanitizeQuery_step_run schema l k h cur Hl).
    rewrite (IH (<[l := strict_step schema cur k]> h) (strict_step schema cur k)).
    + now rewrite list_insert_insert_eq.
    + apply list_lookup_insert_eq. now apply lookup_lt_Some with cur.
Qed.

Lemma strict_fold_filter (schema : Schema) (ks : list string) :
  forall cur : obj,
    fold_left (strict_step schema) ks cur
    = List.filter (fun p => retained_key schema (fst p)
                       || negb (existsb (String.eqb (fst p)) ks)) cur.
Proof.
  induction ks as [|k ks IH]; intros cur; simpl.
  - induction cur as [|p r IHr]; simpl; [reflexivity|].
    rewrite orb_true_r. now rewrite <- IHr.
  - rewrite IH. unfold strict_step.
    destruct (retained_key schema k) eqn:Ek.
    + apply List.filter_ext. intros [k' v']. simpl.
      destruct (String.eqb k' k) eqn:E; [|reflexivity].
      apply String.eqb_eq in E. subst. now rewrite Ek.
    + unfold obj_delete. induction cur as [|[k' v'] r IHr]; simpl; [reflexivity|].
      rewrite (String.eqb_sym k k').
      destruct (String.eqb k' k) eqn:E; simpl.
      * apply String.eqb_eq in E. subst. now rewrite Ek.
      * destruct (retained_key schema k' || negb (existsb (String.eqb k') ks)); simpl;
          now rewrite IHr.
Qed.

Lemma strict_fold_own_keys (schema : Schema) (o : obj) :
  fold_left (strict_step schema) (keys o) o
  = List.filter (fun p => retained_key schema (fst p)) o.
Proof.
  rewrite strict_fold_filter. apply List.filter_ext_in. intros [k v] Hin. simpl.
  assert (existsb (String.eqb k) (keys o) = true) as ->.
  { apply existsb_exists. exists k. split; [|apply String.eqb_refl].
    unfold keys. apply in_map_iff. now exists (k, v). }
  now rewrite orb_false_r.
Qed.

(** Strict sanitization of a filter object, in full: the call returns the
    location it was given and leaves the filtered object there. *)
Lemma sanitizeQuery_object_strict (schema : Schema) (l : loc) (h : heap) (q : obj) :
  h !! l = Some q ->
  sanitizeQuery schema (QObject l) true h
  = (Ok l, <[l := List.filter (fun p => retained_key schema (fst p)) q]> h).
Proof.
  intros Hl. unfold sanitizeQuery. run. unfold read. rewrite Hl.
  rewrite (strict_loop_run schema l (keys q) h q Hl).
  now rewrite strict_fold_own_keys.
Qed.



(** ** ObjectID: the hexadecimal form determines the identifier *)

Lemma bytes_of_hex_step (c1 c2 : ascii) (s : string) :
  bytes_of_hex (String c1 (String c2 s))
  = match hex_value c1, hex_value c2, bytes_of_hex s with
    | Some h, Some l, Some bs =>
        match Byte.of_N (h * 16 + l) with
        | Some b => Some (b :: bs)
        | None => None
        end
    | _, _, _ => None
    end.
Proof. reflexivity. Qed.

Lemma bytes_of_hex_byte (b : Byte.byte) (s : string) :
  bytes_of_hex (byte_to_hex b +:+ s) = option_map (cons b) (bytes_of_hex s).
Proof.
  change (byte_to_hex b +:+ s)
    with (String (hex_digit (Byte.to_N b / 16)) (String (hex_digit (Byte.to_N b mod 16)) s)).
  rewrite bytes_of_hex_step.
  destruct (bytes_of_hex s) as [bs|]; destruct b; vm_compute; reflexivity.
Qed.

Lemma bytes_hex_roundtrip (l : list Byte.byte) :
  bytes_of_hex (bytes_to_hex l) = Some l.
Proof.
  induction l as [|b r IH]; [reflexivity|].
  cbn [bytes_to_hex]. rewrite bytes_of_hex_byte, IH. reflexivity.
Qed.

Lemma bytes_to_hex_length (l : list Byte.byte) :
  String.length (bytes_to_hex l) = (2 * length l)%nat.
Proof.
  induction l as [|b r IH]; [reflexivity|].
  change (bytes_to_hex (b :: r))
    with (String (hex_digit (Byte.to_N b / 16))
            (String (hex_digit (Byte.to_N b mod 16)) (bytes_to_hex r))).
  cbn [String.length length]. rewrite IH. lia.
Qed.

Lemma ObjectID_new_toHexString (oid : ObjectID) :
  ObjectID_isValid oid -> ObjectID_new (toHexString oid) = Ok oid.
Proof.
  unfold ObjectID_isValid, ObjectID_new, toHexString, createFromHexString. intros Hv.
  rewrite bytes_to_hex_length, Hv. simpl Nat.eqb. cbv iota.
  rewrite bytes_hex_roundtrip. now destruct oid.
Qed.

(** ** Claims about sanitizeQuery *)


Definition sanitize_example_schema : Schema :=
  {| model := "Example"; collection := "examples"; timestamps := Some false;
     allowUpsert := None; noInserts := None; noInsertMany := None;
     noUpdates := None; noUpdateMany := None; noDeletes := None;
     noDeleteMany := None; cascade := None;
     fields := [("foo", mkFieldSpecs (TBasic TString) None None None None None None None)];
     indexes := None |}.

Definition sanitize_example_oid : ObjectID :=
  mkObjectID (list_byte_of_string "0123456789ab").



(** C6. For an identifier [oid], sanitizeQuery returns a fresh filter whose
    only key is [_id], bound to [oid], whether it is given [oid] itself or
    its string form; the two filters are equal. *)
Theorem sanitizeQuery_identifier
        (schema : Schema) (oid : ObjectID) (strict : bool) (h : heap) :
  ObjectID_isValid oid ->
  sanitizeQuery schema (QObjectID oid) strict h
  = (Ok (length h), h ++ [[("_id", VOid oid)]])
  /\ sanitizeQuery schema (QString (toHexString oid)) strict h
     = (Ok (length h), h ++ [[("_id", VOid oid)]])
  /\ (h ++ [[("_id", VOid oid)]]) !! length h = Some [("_id", VOid oid)].
Proof.
  intros Hv. split; [reflexivity|]. split.
  - unfold sanitizeQuery. rewrite ObjectID_new_toHexString by exact Hv. reflexivity.
  - rewrite lookup_app_r by lia. now rewrite Nat.sub_diag.
Qed.

Lemma sanitizeQuery_identifier_witness :
  ObjectID_isValid sanitize_example_oid
  /\ sanitizeQuery sanitize_example_schema (QObjectID sanitize_example_oid) true []
     = (Ok 0%nat, [[("_id", VOid sanitize_example_oid)]])
  /\ sanitizeQuery sanitize_example_schema
                   (QString "303132333435363738396162") true []
     = (Ok 0%nat, [[("_id", VOid sanitize_example_oid)]]).
Proof.
  split; [reflexivity|].
  destruct (sanitizeQuery_identifier sanitize_example_schema sanitize_example_oid true [])
    as (H1 & H2 & _); [reflexivity|].
  split; [exact H1|exact H2].
Defined.



(** ** The $match stage *)










(** ** The pipeline factory *)

(** What each sub-spec contributes, in the words of section 4.1: the stages
    of its factory when it is supplied, none when it is omitted. *)
Definition join_stages (models : option (list (string * ModelClass)))
           (schema : Schema) (lookup : value) (prefix : string) : result (list obj) :=
  if truthy lookup then lookupStageFactory models schema lookup prefix prefix else Ok [].

Definition filter_stages (schema : Schema) (q : option Query) (prefix : string)
  : H (list obj) :=
  match q with
  | Some q' => if query_truthy q then matchStageFactory schema q' prefix else ret []
  | None => ret []
  end.

Definition group_stages (schema : Schema) (group : value) : list obj :=
  if truthy group then groupStageFactory schema group else [].

Definition sort_stages (schema : Schema) (sort : value) : list obj :=
  if truthy sort then sortStageFactory schema sort else [].

(** C2. Whatever subset of the five sub-specs is supplied and whatever
    intermediate pipeline the caller passes, the stages pipelineFactory
    returns are, in this order: the filter stages, the join stages, the
    caller's stages, the post-filter stages, the group stages and the sort
    stages; an omitted sub-spec contributes none. *)
Theorem pipelineFactory_stage_order
        (models : option (list (string * ModelClass)))
        (schema : Schema) (specs : PipelineFactorySpecs)
        (options : PipelineFactoryOptions) (h h' : heap) (stages : list obj) :
  pipelineFactory models schema specs options h = (Ok stages, h') ->
  let pfx := match prefix options with Some p => p | None => "" end in
  let supplied := match pipeline options with Some p => p | None => [] end in
  exists (filterS joinS postS : list obj) (h1 : heap),
    filter_stages schema (specs_match specs) pfx h = (Ok filterS, h1)
    /\ join_stages models schema (specs_lookup specs) pfx = Ok joinS
    /\ filter_stages schema (specs_prune specs) "" h1 = (Ok postS, h')
    /\ stages = filterS ++ joinS ++ supplied ++ postS
                ++ group_stages schema (specs_group specs)
                ++ sort_stages schema (specs_sort specs)
    /\ (specs_match specs = None -> filterS = [])
    /\ (specs_lookup specs = VUndefined -> joinS = [])
    /\ (specs_prune specs = None -> postS = [])
    /\ (specs_group specs = VUndefined -> group_stages schema (specs_group specs) = [])
    /\ (specs_sort specs = VUndefined -> sort_stages schema (specs_sort specs) = []).
Proof.
  intros Hrun pfx supplied. unfold pipelineFactory in Hrun.
  fold pfx in Hrun. fold supplied in Hrun.
  unfold join_stages, filter_stages, group_stages, sort_stages.
  run_in Hrun.
  repeat (case_step Hrun; run_in Hrun; try discriminate Hrun).
  all: injection Hrun as <- <-.
  all: eexists _, _, _, _.
  all: split; [run; use_eqs; reflexivity|].
  all: split; [reflexivity|].
  all: split; [run; use_eqs; reflexivity|].
  all: split; [rewrite ?app_nil_r, <- ?app_assoc; reflexivity|].
  all: repeat split; intros; try reflexivity; try congruence.
  all: match goal with
       | E : ?v = VUndefined, T : truthy ?v = true |- _ =>
           rewrite E in T; discriminate T
       end.
Qed.

(** The converse: when the guards hold and the factories of the supplied
    sub-specs return, pipelineFactory returns their stages in that order. *)
Lemma pipelineFactory_returns
      (models : option (list (string * ModelClass)))
      (schema : Schema) (specs : PipelineFactorySpecs)
      (options : PipelineFactoryOptions) (h h1 h2 : heap)
      (filterS joinS postS : list obj) :
  let pfx := match prefix options with Some p => p | None => "" end in
  let supplied := match pipeline options with Some p => p | None => [] end in
  is_undefined (specs_lookup specs) || is_object (specs_lookup specs) = true ->
  is_undefined (specs_group specs) || is_object (specs_group specs)
  || is_string (specs_group specs) = true ->
  is_undefined (specs_sort specs) || is_object (specs_sort specs) = true ->
  filter_stages schema (specs_match specs) pfx h = (Ok filterS, h1) ->
  join_stages models schema (specs_lookup specs) pfx = Ok joinS ->
  filter_stages schema (specs_prune specs) "" h1 = (Ok postS, h2) ->
  pipelineFactory models schema specs options h
  = (Ok (filterS ++ joinS ++ supplied ++ postS
         ++ group_stages schema (specs_group specs)
         ++ sort_stages schema (specs_sort specs)), h2).
Proof.
  intros pfx supplied G1 G2 G3 Hf Hj Hp. unfold pipelineFactory.
  fold pfx. fold supplied. rewrite G1, G2, G3. run.
  unfold join_stages, filter_stages, group_stages, sort_stages in *.
  destruct (truthy (specs_lookup specs)); [rewrite Hj|injection Hj as <-]; run.
  all: destruct (specs_match specs) as [qm|];
    [destruct (query_truthy (Some qm)); [rewrite Hf|injection Hf as <- <-]
    |injection Hf as <- <-]; run.
  all: destruct (specs_prune specs) as [qp|];
    [destruct (query_truthy (Some qp)); [rewrite Hp|injection Hp as <- <-]
    |injection Hp as <- <-]; run.
  all: destruct (truthy (specs_group specs)), (truthy (specs_sort specs)).
  all: rewrite ?app_nil_r, <- ?app_assoc; reflexivity.
Qed.

(** An example registry: [Model] references [SubModel] through its field
    [subModel], and [SubModel] references [SubSubModel] through
    [subSubModel]. *)
Definition plain_schema (name coll : string) (fs : list (string * FieldSpecs)) : Schema :=
  {| model := name; collection := coll; timestamps := None;
     allowUpsert := None; noInserts := None; noInsertMany := None;
     noUpdates := None; noUpdateMany := None; noDeletes := None;
     noDeleteMany := None; cascade := None; fields := fs; indexes := None |}.

Definition reference_to (target : string) : FieldSpecs :=
  mkFieldSpecs (TBasic TObjectID) (Some target) None None None None None None.

Definition example_root_schema : Schema :=
  plain_schema "Model" "models"
    [("name", mkFieldSpecs (TBasic TString) None None None None None None None);
     ("subModel", reference_to "SubModel")].

Definition example_sub_schema : Schema :=
  plain_schema "SubModel" "subModels" [("subSubModel", reference_to "SubSubModel")].

Definition example_subsub_schema : Schema :=
  plain_schema "SubSubModel" "subSubModels" [].

Definition example_models : option (list (string * ModelClass)) :=
  Some [("Model", Model example_root_schema);
        ("SubModel", Model example_sub_schema);
        ("SubSubModel", Model example_subsub_schema)].

Definition example_specs : PipelineFactorySpecs :=
  {| specs_lookup := VObj [("subModel", VBool true)];
     specs_match := Some (QObject 0);
     specs_prune := Some (QObject 1);
     specs_group := VStr "name";
     specs_sort := VObj [("_id", VNum 1)] |}.

Definition example_options : PipelineFactoryOptions :=
  {| prefix := None; pipeline := Some [[("$limit", VNum 5)]] |}.

Definition example_heap : heap :=
  [[("name", VStr "x")]; [("subModel.name", VStr "y")]].

Lemma pipelineFactory_stage_order_witness :
  pipelineFactory example_models example_root_schema example_specs example_options
                  example_heap
  = (Ok [[("$match", VObj [("name", VStr "x")])];
         lookup_stage "subModels" "subModel" "subModel";
         unwind_stage "$subModel";
         [("$limit", VNum 5)];
         [("$match", VObj [("subModel.name", VStr "y")])];
         [("$group", VObj [("_id", VStr "$name")])];
         [("$sort", VObj [("_id", VNum 1)])]],
     example_heap).
Proof.
  destruct (pipelineFactory example_models example_root_schema example_specs
              example_options example_heap) as [[stages|e] h'] eqn:Hrun;
    [|vm_compute in Hrun; discriminate Hrun].
  destruct (pipelineFactory_stage_order example_models example_root_schema example_specs
              example_options example_heap h' stages Hrun)
    as (filterS & joinS & postS & h1 & Hf & Hj & Hp & Hst & _).
  vm_compute in Hf. injection Hf as <- <-.
  vm_compute in Hj. injection Hj as <-.
  vm_compute in Hp. injection Hp as <- <-.
  rewrite Hst. reflexivity.
Defined.

(** ** Nested joins *)



(* ===================================================================== *)
(** * A reference store

    An in-memory stand-in for the driver, used to run the engine on
    concrete inputs: a database is a list of named collections, a filter
    matches a document when each of its keys is bound to an equal value. *)
(* ===================================================================== *)

Definition bytes_eqb (a b : list Byte.byte) : bool :=
  Nat.eqb (length a) (length b)
  && forallb (fun p => Byte.eqb (fst p) (snd p)) (combine a b).

Fixpoint value_eqb (a b : value) {struct a} : bool :=
  match a, b with
  | VUndefined, VUndefined => true
  | VNull, VNull => true
  | VBool x, VBool y => Bool.eqb x y
  | VNum x, VNum y => Z.eqb x y
  | VStr x, VStr y => String.eqb x y
  | VOid x, VOid y => bytes_eqb (id x) (id y)
  | VDate x, VDate y => Z.eqb x y
  | VArr xs, VArr ys =>
      (fix go (xs ys : list value) {struct xs} : bool :=
         match xs, ys with
         | [], [] => true
         | x :: xs', y :: ys' => value_eqb x y && go xs' ys'
         | _, _ => false
         end) xs ys
  | VObj xs, VObj ys =>
      (fix go (xs ys : list (string * value)) {struct xs} : bool :=
         match xs, ys with
         | [], [] => true
         | (k, x) :: xs', (k', y) :: ys' =>
             String.eqb k k' && value_eqb x y && go xs' ys'
         | _, _ => false
         end) xs ys
  | _, _ => false
  end.

Definition Database : Type := list (string * list obj).

Fixpoint documents (db : Database) (coll : string) : list obj :=
  match db with
  | [] => []
  | (c, ds) :: r => if String.eqb coll c then ds else documents r coll
  end.

Fixpoint set_documents (db : Database) (coll : string) (ds : list obj) : Database :=
  match db with
  | [] => [(coll, ds)]
  | (c, old) :: r =>
      if String.eqb coll c then (c, ds) :: r else (c, old) :: set_documents r coll ds
  end.

Definition matches (filter : value) (doc : obj) : bool :=
  match filter with
  | VObj f =>
      forallb (fun p => match obj_get doc (fst p) with
                        | Some v => value_eqb v (snd p)
                        | None => false
                        end) f
  | _ => false
  end.

(** Removes the first document a filter matches. *)
Fixpoint remove_first (filter : value) (ds : list obj) : option obj * list obj :=
  match ds with
  | [] => (None, [])
  | d :: r =>
      if matches filter d then (Some d, r)
      else let (found, r') := remove_first filter r in (found, d :: r')
  end.

(** Applies [$set] to the first document a filter matches. *)
Fixpoint update_first (filter : value) (update : obj) (ds : list obj)
  : option obj * list obj :=
  match ds with
  | [] => (None, [])
  | d :: r =>
      if matches filter d then (Some d, spread d (props (prop update "$set")) :: r)
      else let (found, r') := update_first filter update r in (found, d :: r')
  end.

Definition upserted_document (filter : value) (update : obj) : obj :=
  spread (spread (props filter) (props (prop update "$setOnInsert")))
         (props (prop update "$set")).

Definition write_result (n : Z) (docs : list value) : WriteOpResult :=
  {| result_ok := 1; result_n := Some n; ops := docs |}.

Definition mem_aggregate (coll : string) (p : list obj) (db : Database)
  : result (list value) * Database :=
  (Ok (map VObj
         (fold_left (fun ds stage =>
                       match stage with
                       | [("$match", f)] => List.filter (matches f) ds
                       | [("$sample", _)] => firstn 1 ds
                       | _ => ds
                       end) p (documents db coll))), db).

Definition mem_updateOne (coll : string) (f : value) (u : obj) (o : Options) (db : Database)
  : result WriteOpResult * Database :=
  match update_first f u (documents db coll) with
  | (Some _, ds) => (Ok (write_result 1 []), set_documents db coll ds)
  | (None, ds) =>
      if is_true (upsert o)
      then (Ok (write_result 1 []), set_documents db coll (ds ++ [upserted_document f u]))
      else (Ok (write_result 0 []), db)
  end.

Definition mem_updateMany (coll : string) (f : value) (u : obj) (o : Options) (db : Database)
  : result WriteOpResult * Database :=
  let ds := documents db coll in
  let hits := List.filter (matches f) ds in
  match hits with
  | [] =>
      if is_true (upsert o)
      then (Ok (write_result 1 []), set_documents db coll (ds ++ [upserted_document f u]))
      else (Ok (write_result 0 []), db)
  | _ =>
      (Ok (write_result (Z.of_nat (length hits)) []),
       set_documents db coll
         (map (fun d => if matches f d then spread d (props (prop u "$set")) else d) ds))
  end.

Definition mem_findOneAndUpdate (coll : string) (f : value) (u : obj) (o : Options)
           (db : Database) : result FindAndModifyWriteOpResult * Database :=
  match update_first f u (documents db coll) with
  | (Some d, ds) =>
      (Ok {| ok := 1; res_value := VObj d; upserted := VUndefined |},
       set_documents db coll ds)
  | (None, ds) =>
      if is_true (upsert o)
      then (Ok {| ok := 1; res_value := VNull;
                  upserted := prop (upserted_document f u) "_id" |},
            set_documents db coll (ds ++ [upserted_document f u]))
      else (Ok {| ok := 1; res_value := VNull; upserted := VUndefined |}, db)
  end.

Definition mem_deleteOne (coll : string) (f : value) (db : Database)
  : result WriteOpResult * Database :=
  match remove_first f (documents db coll) with
  | (Some _, ds) => (Ok (write_result 1 []), set_documents db coll ds)
  | (None, _) => (Ok (write_result 0 []), db)
  end.

Definition mem_deleteMany (coll : string) (f : value) (db : Database)
  : result WriteOpResult * Database :=
  let ds := documents db coll in
  let kept := List.filter (fun d => negb (matches f d)) ds in
  (Ok (write_result (Z.of_nat (length ds - length kept)) []),
   set_documents db coll kept).

Definition mem_findOneAndDelete (coll : string) (f : value) (db : Database)
  : result FindAndModifyWriteOpResult * Database :=
  match remove_first f (documents db coll) with
  | (Some d, ds) =>
      (Ok {| ok := 1; res_value := VObj d; upserted := VUndefined |},
       set_documents db coll ds)
  | (None, _) => (Ok {| ok := 1; res_value := VNull; upserted := VUndefined |}, db)
  end.

Definition mem_store : Store Database :=
  {| store_aggregate := mem_aggregate;
     store_insertOne := fun coll doc db =>
       (Ok (write_result 1 [VObj doc]),
        set_documents db coll (documents db coll ++ [doc]));
     store_insertMany := fun coll docs db =>
       (Ok (write_result (Z.of_nat (length docs)) (map VObj docs)),
        set_documents db coll (documents db coll ++ docs));
     store_updateOne := mem_updateOne;
     store_updateMany := mem_updateMany;
     store_findOneAndUpdate := mem_findOneAndUpdate;
     store_deleteOne := mem_deleteOne;
     store_deleteMany := mem_deleteMany;
     store_findOneAndDelete := mem_findOneAndDelete;
     store_findOneAndReplace := fun coll f r o db =>
       match remove_first f (documents db coll) with
       | (Some d, ds) =>
           (Ok {| ok := 1; res_value := VObj d; upserted := VUndefined |},
            set_documents db coll (ds ++ [r]))
       | (None, _) =>
           (Ok {| ok := 1; res_value := VNull; upserted := VUndefined |}, db)
       end |}.

(** The collaborators the sources import from elsewhere, instantiated for
    the examples: a stand-in digest, a coercion that covers strings, and a
    field validator that accepts every value. *)
Definition example_hash (data : string) (rounds : Z) : string := "$2b$10$" +:+ data.
Definition example_template (v : value) : string :=
  match v with VStr s => s | _ => "[object Object]" end.
Definition accept_all (v : value) (f : FieldSpecs) : bool := true.

Definition world_of (h : heap) (db : Database) : World Database :=
  {| w_heap := h; w_store := db; w_now := 0 |}.

(** ** An example registry with a cascade: deleting an [Author] cascades to
    the [Book]s whose [author] field references it. *)

Definition string_field (req : option bool) : FieldSpecs :=
  mkFieldSpecs (TBasic TString) None req None None None None None.

Definition author_schema : Schema :=
  {| model := "Author"; collection := "authors"; timestamps := None;
     allowUpsert := None; noInserts := None; noInsertMany := None;
     noUpdates := None; noUpdateMany := None; noDeletes := None;
     noDeleteMany := None; cascade := Some ["Book"];
     fields := [("name", string_field (Some true))]; indexes := None |}.

Definition book_schema : Schema :=
  plain_schema "Book" "books"
    [("title", string_field (Some true)); ("author", reference_to "Author")].

Definition Author : ModelClass := Model author_schema.
Definition Book : ModelClass := Model book_schema.

Definition library_models : option (list (string * ModelClass)) :=
  Some [("Author", Author); ("Book", Book)].

Definition oid_of (s : string) : ObjectID := mkObjectID (list_byte_of_string s).

Definition author_x : obj := [("_id", VOid (oid_of "author-----x")); ("name", VStr "X")].
Definition author_y : obj := [("_id", VOid (oid_of "author-----y")); ("name", VStr "Y")].
Definition book_1 : obj :=
  [("_id", VOid (oid_of "book-------1")); ("title", VStr "One");
   ("author", VOid (oid_of "author-----x"))].
Definition book_2 : obj :=
  [("_id", VOid (oid_of "book-------2")); ("title", VStr "Two");
   ("author", VOid (oid_of "author-----y"))].
Definition book_3 : obj :=
  [("_id", VOid (oid_of "book-------3")); ("title", VStr "Three");
   ("author", VOid (oid_of "author-----x"))].

Definition library : Database :=
  [("authors", [author_x; author_y]); ("books", [book_1; book_2; book_3])].

Definition with_returnDoc : Options :=
  {| strict := None; ignoreUniqueIndex := None; ignoreTimestamps := None;
     upsert := None; returnDoc := Some true; returnDocs := None;
     skipHooks := None; returnOriginal := None |}.

Definition with_returnDocs : Options :=
  {| strict := None; ignoreUniqueIndex := None; ignoreTimestamps := None;
     upsert := None; returnDoc := None; returnDocs := Some true;
     skipHooks := None; returnOriginal := None |}.

(* ===================================================================== *)
(** * The document lifecycle *)
(* ===================================================================== *)

(** The six operations the permission flags govern. *)
Inductive Operation : Type :=
| OpInsertOne (doc : option obj) (options : Options)
| OpInsertMany (docs : list obj) (options : Options)
| OpUpdateOne (query : Query) (update : obj) (options : Options)
| OpUpdateMany (query : Query) (update : obj) (options : Options)
| OpDeleteOne (query : Query) (options : Options)
| OpDeleteMany (query : Query) (options : Options).

(** A schema disallows an operation, as section 4.4 puts it: no-inserts for
    an insert, no-updates for an update, no-deletes for a delete, and an
    upsert request on a schema that does not allow upserts. *)
Definition disallowed (sch : Schema) (op : Operation) : bool :=
  match op with
  | OpInsertOne _ _ | OpInsertMany _ _ => is_true (noInserts sch)
  | OpUpdateOne _ _ o | OpUpdateMany _ _ o =>
      is_true (noUpdates sch) || (is_true (upsert o) && negb (is_true (allowUpsert sch)))
  | OpDeleteOne _ _ | OpDeleteMany _ _ => is_true (noDeletes sch)
  end.

(** The same, except that an upsert through [updateOne] only counts when
    the call does not skip the hooks. *)
Definition disallowed_and_checked (sch : Schema) (op : Operation) : bool :=
  match op with
  | OpUpdateOne _ _ o =>
      is_true (noUpdates sch)
      || (is_true (upsert o) && negb (is_true (allowUpsert sch))
          && negb (is_true (skipHooks o)))
  | _ => disallowed sch op
  end.

(** The messages of the permission checks of [Model]. *)
Definition permission_errors : list string :=
  ["Insertions are disallowed for this model";
   "Multiple insertions are disallowed for this model";
   "Updates are disallowed for this model";
   "Multiple updates are disallowed for this model";
   "Deletions are disallowed for this model";
   "Multiple deletions are disallowed for this model";
   "Attempting to upsert a document while upserting is disallowed in the schema"].

Section Lifecycle.

Context {S : Type}.
Variable store : Store S.
Variable models : option (list (string * ModelClass)).
Variable bcrypt_hash : string -> Z -> string.
Variable template : value -> string.
Variable validateFieldValue : value -> FieldSpecs -> bool.

Definition invoke (this : ModelClass) (op : Operation) : M S value :=
  match op with
  | OpInsertOne doc o =>
      insertOne store models bcrypt_hash template validateFieldValue this doc o
  | OpInsertMany docs o =>
      do r <- insertMany store models bcrypt_hash template validateFieldValue this docs o;
      ret (VArr r)
  | OpUpdateOne q u o =>
      updateOne store models bcrypt_hash template validateFieldValue this q u o
  | OpUpdateMany q u o =>
      updateMany store models bcrypt_hash template validateFieldValue this q u o
  | OpDeleteOne q o => deleteOne store models this q o
  | OpDeleteMany q o => deleteMany store models this q o
  end.

(** C10. validateDocument throws on anything that is not a plain object and
    on the object with no keys, whatever the schema and the options; it
    does so before it looks at a field or at the store. *)
Theorem validateDocument_rejects_non_objects_and_empty_objects
        (this : ModelClass) (doc : value) (options : Options) (w : World S) :
  is_plainObject doc = false \/ doc = VObj [] ->
  validateDocument store models validateFieldValue this doc options w
  = (Throw (Error (if is_plainObject doc
                   then "Empty objects are not permitted"
                   else "Invalid document provided")), w, []).
Proof.
  intros [Hn | ->]; unfold validateDocument.
  - rewrite Hn. reflexivity.
  - reflexivity.
Qed.

(** C8, amended. When the schema disallows the operation, invoking it throws
    one of the permission errors and nothing else happens: no call reaches
    the store, and the world, store included, is as it was.  An upsert
    through [updateOne] is covered when the call does not set [skipHooks]. *)
Theorem disallowed_operation_throws_before_any_store_call
        (this : ModelClass) (op : Operation) (w : World S) :
  disallowed_and_checked (schema this) op = true ->
  exists message : string,
    In message permission_errors
    /\ invoke this op w = (Throw (Error message), w, []).
Proof.
  destruct op as [doc o | docs o | q u o | q u o | q o | q o];
    cbn [disallowed_and_checked disallowed invoke]; intros Hd.
  - unfold insertOne. rewrite Hd. eexists. split; [|reflexivity]. cbn. tauto.
  - unfold insertMany. rewrite Hd. eexists. split; [|reflexivity]. cbn. tauto.
  - unfold updateOne.
    destruct (is_true (noUpdates (schema this)));
      [eexists; split; [|reflexivity]; cbn; tauto|].
    cbn [orb] in Hd. apply andb_true_iff in Hd as [Hd Hs].
    apply negb_true_iff in Hs.
    unfold getCollection, beforeUpdate. rewrite Hs, Hd.
    eexists. split; [|reflexivity]. cbn. tauto.
  - unfold updateMany.
    destruct (is_true (noUpdates (schema this)));
      [eexists; split; [|reflexivity]; cbn; tauto|].
    destruct (is_true (noUpdateMany (schema this)));
      [eexists; split; [|reflexivity]; cbn; tauto|].
    cbn [orb] in Hd. unfold beforeUpdate. rewrite Hd.
    eexists. split; [|reflexivity]. cbn. tauto.
  - unfold deleteOne. rewrite Hd. eexists. split; [|reflexivity]. cbn. tauto.
  - unfold deleteMany, deleteMany_depth, deleteMany_body. rewrite Hd.
    eexists. split; [|reflexivity]. cbn. tauto.
Qed.

End Lifecycle.

Lemma validateDocument_rejects_non_objects_and_empty_objects_witness :
  validateDocument mem_store library_models accept_all Book (VArr [VNum 1]) no_options
                   (world_of [] library)
  = (Throw (Error "Invalid document provided"), world_of [] library, [])
  /\ validateDocument mem_store library_models accept_all Book (VObj []) no_options
                      (world_of [] library)
     = (Throw (Error "Empty objects are not permitted"), world_of [] library, []).
Proof.
  split.
  - exact (validateDocument_rejects_non_objects_and_empty_objects
             mem_store library_models accept_all Book (VArr [VNum 1]) no_options
             (world_of [] library) (or_introl eq_refl)).
  - exact (validateDocument_rejects_non_objects_and_empty_objects
             mem_store library_models accept_all Book (VObj []) no_options
             (world_of [] library) (or_intror eq_refl)).
Defined.

(** A schema that forbids insertions, and one that sets no flag at all
    (so upserts are not allowed). *)
Definition frozen_schema : Schema :=
  {| model := "Frozen"; collection := "frozen"; timestamps := None;
     allowUpsert := None; noInserts := Some true; noInsertMany := None;
     noUpdates := None; noUpdateMany := None; noDeletes := None;
     noDeleteMany := None; cascade := None;
     fields := [("line", string_field None)]; indexes := None |}.

Definition log_schema : Schema :=
  plain_schema "Log" "logs" [("line", string_field None)].

Definition upsert_request (skip : option bool) : Options :=
  {| strict := None; ignoreUniqueIndex := None; ignoreTimestamps := None;
     upsert := Some true; returnDoc := None; returnDocs := None;
     skipHooks := skip; returnOriginal := None |}.

Lemma disallowed_operation_throws_before_any_store_call_witness :
  (exists message,
      In message permission_errors
      /\ invoke mem_store library_models example_hash example_template accept_all
             (Model frozen_schema)
             (OpInsertOne (Some [("line", VStr "a")]) no_options)
             (world_of [] library)
      = (Throw (Error message), world_of [] library, []))
  /\ (exists message,
         In message permission_errors
         /\ invoke mem_store library_models example_hash example_template accept_all
                (Model log_schema)
                (OpUpdateOne (QObject 0) [("line", VStr "b")] (upsert_request None))
                (world_of [[("line", VStr "a")]] library)
         = (Throw (Error message), world_of [[("line", VStr "a")]] library, [])).
Proof.
  split.
  - exact (disallowed_operation_throws_before_any_store_call
             mem_store library_models example_hash example_template accept_all
             (Model frozen_schema)
             (OpInsertOne (Some [("line", VStr "a")]) no_options)
             (world_of [] library) eq_refl).
  - exact (disallowed_operation_throws_before_any_store_call
             mem_store library_models example_hash example_template accept_all
             (Model log_schema)
             (OpUpdateOne (QObject 0) [("line", VStr "b")] (upsert_request None))
             (world_of [[("line", VStr "a")]] library) eq_refl).
Defined.

(** C8 as stated fails: [updateOne] with [skipHooks] never reaches the
    upsert check of [beforeUpdate].  On a schema that does not allow
    upserts, the upsert goes to the store, which creates the document. *)
Lemma updateOne_skipHooks_upserts_unchecked :
  disallowed log_schema
             (OpUpdateOne (QObject 0) [("$set", VObj [("line", VStr "b")])]
                          (upsert_request (Some true))) = true
  /\ invoke mem_store library_models example_hash example_template accept_all
            (Model log_schema)
            (OpUpdateOne (QObject 0) [("$set", VObj [("line", VStr "b")])]
                         (upsert_request (Some true)))
            (world_of [[("line", VStr "a")]] library)
     = (Ok (VBool true),
        world_of [[("line", VStr "a")]]
                 (library ++ [("logs", [[("line", VStr "b")]])]),
        [CallUpdateOne "logs" (VObj [("line", VStr "a")])
                       [("$set", VObj [("line", VStr "b")])]
                       (upsert_request (Some true))]).
Proof. split; vm_compute; reflexivity. Qed.

(* ===================================================================== *)
(** * Reasoning about runs of the engine *)
(* ===================================================================== *)

Definition is_aggregate (c : StoreCall) : Prop :=
  match c with CallAggregate _ _ => True | _ => False end.

Section Runs.

Context {S : Type}.

Lemma bind_run {A B} (m : M S A) (f : A -> M S B) (w : World S) :
  bind m f w
  = match m w with
    | (Ok a, w', t) =>
        match f a w' with
        | (r, w'', t') => (r, w'', t ++ t')
        end
    | (Throw e, w', t) => (Throw e, w', t)
    end.
Proof. reflexivity. Qed.

Lemma bind_ok_inv {A B} (m : M S A) (f : A -> M S B) (w w2 : World S)
      (b : B) (t : list StoreCall) :
  bind m f w = (Ok b, w2, t) ->
  exists a w1 t1 t2,
    m w = (Ok a, w1, t1) /\ f a w1 = (Ok b, w2, t2) /\ t = t1 ++ t2.
Proof.
  rewrite bind_run. destruct (m w) as [[[a|e] w1] t1]; [|discriminate].
  destruct (f a w1) as [[r w3] t2] eqn:Ef. intros [= -> -> <-].
  now exists a, w1, t1, t2.
Qed.

(** The calls of the first half of a sequence are calls of the whole. *)
Lemma bind_calls_l {A B} (m : M S A) (f : A -> M S B) (w : World S) (c : StoreCall) :
  In c (snd (m w)) -> In c (snd (bind m f w)).
Proof.
  rewrite bind_run. destruct (m w) as [[[a|e] w1] t1]; simpl; [|exact (fun x => x)].
  destruct (f a w1) as [[r w3] t2]. simpl. intros Hin. apply in_or_app. now left.
Qed.

Lemma bind_calls_r {A B} (m : M S A) (f : A -> M S B) (w w1 : World S)
      (a : A) (t1 : list StoreCall) (c : StoreCall) :
  m w = (Ok a, w1, t1) -> In c (snd (f a w1)) -> In c (snd (bind m f w)).
Proof.
  intros Hm. rewrite bind_run, Hm. destruct (f a w1) as [[r w3] t2]. simpl.
  intros Hin. apply in_or_app. now right.
Qed.

Lemma for_each_ok_inv {A} (body : A -> M S unit) (xs : list A) :
  forall (w w' : World S) (t : list StoreCall) (x : A),
    for_each xs body w = (Ok tt, w', t) ->
    In x xs ->
    exists w1 w2 t1,
      body x w1 = (Ok tt, w2, t1) /\ (forall c, In c t1 -> In c t).
Proof.
  induction xs as [|y r IH]; intros w w' t x Hrun Hin; [destruct Hin|].
  cbn [for_each] in Hrun. apply bind_ok_inv in Hrun as ([] & w1 & t1 & t2 & Hy & Hr & ->).
  destruct Hin as [<- | Hin].
  - exists w, w1, t1. split; [exact Hy|]. intros c Hc. apply in_or_app. now left.
  - destruct (IH _ _ _ _ Hr Hin) as (wa & wb & tx & Hx & Hsub).
    exists wa, wb, tx. split; [exact Hx|]. intros c Hc. apply in_or_app. right. now apply Hsub.
Qed.

Lemma map_st_ok_inv {A B} (body : A -> M S B) (xs : list A) :
  forall (w w' : World S) (t : list StoreCall) (ys : list B) (y : B),
    map_st xs body w = (Ok ys, w', t) ->
    In y ys ->
    exists x w1 w2 t1, In x xs /\ body x w1 = (Ok y, w2, t1).
Proof.
  induction xs as [|x r IH]; intros w w' t ys y Hrun Hin; cbn [map_st] in Hrun.
  - injection Hrun as <- _ _. destruct Hin.
  - apply bind_ok_inv in Hrun as (y0 & w1 & t1 & t2 & Hx & Hr & ->).
    apply bind_ok_inv in Hr as (ys0 & w2 & t3 & t4 & Hr & Hret & ->).
    injection Hret as <- _ _. destruct Hin as [<- | Hin].
    + exists x, w, w1, t1. split; [now left|exact Hx].
    + destruct (IH _ _ _ _ _ Hr Hin) as (x' & wa & wb & tx & Hx' & Hb).
      exists x', wa, wb, tx. split; [now right|exact Hb].
Qed.

(** [yields m P]: whatever the world, [m] makes no call but reads
    ([aggregate]) and, if it returns, returns a value that satisfies [P].
    With [P] empty, [m] always throws. *)
Definition yields {A} (m : M S A) (P : A -> Prop) : Prop :=
  forall w : World S,
    Forall is_aggregate (snd (m w))
    /\ forall a, fst (fst (m w)) = Ok a -> P a.

Lemma yields_ret {A} (a : A) (P : A -> Prop) : P a -> yields (ret a) P.
Proof.
  intros Ha w. split; [constructor|]. cbn. intros a' [= <-]. exact Ha.
Qed.

Lemma yields_throw {A} (e : error) (P : A -> Prop) : yields (throw e) P.
Proof. intros w. split; [constructor|]. cbn. discriminate. Qed.

Lemma yields_weaken {A} (m : M S A) (P Q : A -> Prop) :
  yields m P -> (forall a, P a -> Q a) -> yields m Q.
Proof.
  intros Hm HPQ w. destruct (Hm w) as [Hc Hr]. split; [exact Hc|].
  intros a Ha. apply HPQ. now apply Hr.
Qed.

Lemma yields_bind {A B} (m : M S A) (f : A -> M S B) (P : A -> Prop) (Q : B -> Prop) :
  yields m P -> (forall a, P a -> yields (f a) Q) -> yields (bind m f) Q.
Proof.
  intros Hm Hf w. rewrite bind_run. destruct (Hm w) as [Hc Hr].
  destruct (m w) as [[[a|e] w1] t1]; cbn in *.
  - destruct (Hf a (Hr a eq_refl) w1) as [Hc2 Hr2].
    destruct (f a w1) as [[r w2] t2]. cbn in *. split; [|exact Hr2].
    apply Forall_app. now split.
  - split; [exact Hc|discriminate].
Qed.

Lemma yields_liftH {A} (m : H A) (P : A -> Prop) :
  (forall h a h', m h = (Ok a, h') -> P a) -> yields (liftH m) P.
Proof.
  intros Hm w. unfold liftH. destruct (m (w_heap w)) as [r h'] eqn:E. cbn.
  split; [constructor|]. intros a ->. now apply (Hm _ _ _ E).
Qed.

Lemma yields_for_each {A} (body : A -> M S unit) (xs : list A) :
  (forall x, yields (body x) (fun _ => True)) ->
  yields (for_each xs body) (fun _ => True).
Proof.
  intros Hb. induction xs as [|x r IH]; cbn [for_each].
  - now apply yields_ret.
  - apply yields_bind with (P := fun _ => True); [apply Hb|]. intros _ _. exact IH.
Qed.

Lemma yields_aggregate (store : Store S) (coll : string) (p : list obj) :
  yields (collection_aggregate store coll p) (fun _ => True).
Proof.
  intros w. unfold collection_aggregate, call.
  destruct (store_aggregate store coll p (w_store w)) as [r s']. cbn.
  split; [|trivial]. repeat constructor.
Qed.


(** [settles m P]: whatever the world, [m] leaves it as it is and makes no
    call at all; it either returns a value that satisfies [P] or throws an
    [Error]. *)
Definition settles {A} (m : M S A) (P : A -> Prop) : Prop :=
  forall w : World S,
    (exists a, m w = (Ok a, w, []) /\ P a)
    \/ (exists message, m w = (Throw (Error message), w, [])).

Lemma settles_ret {A} (a : A) (P : A -> Prop) : P a -> settles (ret a) P.
Proof. intros Ha w. left. now exists a. Qed.

Lemma settles_throw {A} (message : string) (P : A -> Prop) :
  settles (throw (Error message)) P.
Proof. intros w. right. now exists message. Qed.

Lemma settles_bind {A B} (m : M S A) (f : A -> M S B) (P : A -> Prop) (Q : B -> Prop) :
  settles m P -> (forall a, P a -> settles (f a) Q) -> settles (bind m f) Q.
Proof.
  intros Hm Hf w. rewrite bind_run.
  destruct (Hm w) as [(a & -> & Ha) | (msg & ->)].
  - destruct (Hf a Ha w) as [(b & -> & Hb) | (msg & ->)].
    + left. now exists b.
    + right. now exists msg.
  - right. now exists msg.
Qed.



End Runs.

(** ** Insertion of a document that lacks a required field *)

Lemma obj_get_obj_set (o : obj) (k k' : string) (v : value) :
  obj_get (obj_set o k v) k' = if String.eqb k' k then Some v else obj_get o k'.
Proof.
  induction o as [|[k0 v0] r IH]; simpl.
  - destruct (String.eqb k' k); reflexivity.
  - destruct (String.eqb k k0) eqn:E; simpl.
    + apply String.eqb_eq in E. subst k0.
      destruct (String.eqb k' k); reflexivity.
    + rewrite IH. destruct (String.eqb k' k0) eqn:E'; [|reflexivity].
      apply String.eqb_eq in E'. subst k0.
      rewrite String.eqb_sym in E. now rewrite E.
Qed.



Lemma field_get_In (fs : list (string * FieldSpecs)) (k : string) (f : FieldSpecs) :
  field_get fs k = Some f -> In k (map fst fs).
Proof.
  induction fs as [|[k' f'] r IH]; simpl; [discriminate|].
  destruct (String.eqb k k') eqn:E.
  - apply String.eqb_eq in E. intros _. now left.
  - intros Hr. right. now apply IH.
Qed.

Section Insertion.

Context {S : Type}.
Variable store : Store S.
Variable models : option (list (string * ModelClass)).
Variable bcrypt_hash : string -> Z -> string.
Variable template : value -> string.
Variable validateFieldValue : value -> FieldSpecs -> bool.





Lemma findMany_reads (this : ModelClass) (query : option Query) :
  yields (findMany store models this query) (fun _ => True).
Proof.
  unfold findMany, getCollection.
  apply yields_bind with (P := fun _ => True); [now apply yields_ret|]. intros coll _.
  apply yields_bind with (P := fun _ => True); [now apply yields_liftH|]. intros p _.
  apply yields_aggregate.
Qed.

Lemma findOne_reads (this : ModelClass) (query : option Query) :
  yields (findOne store models this query) (fun _ => True).
Proof.
  unfold findOne. destruct query as [q|].
  - apply yields_bind with (P := fun _ => True); [apply findMany_reads|].
    intros [|r rs] _; now apply yields_ret.
  - unfold getCollection.
    apply yields_bind with (P := fun _ => True); [now apply yields_ret|]. intros coll _.
    apply yields_bind with (P := fun _ => True); [now apply yields_liftH|]. intros p _.
    apply yields_bind with (P := fun _ => True); [apply yields_aggregate|]. intros rs _.
    apply yields_bind with (P := fun _ => True).
    + unfold assert. destruct (Nat.leb (length rs) 1);
        [now apply yields_ret|apply yields_throw].
    + intros _ _. destruct rs as [|r [|r' rs]]; now apply yields_ret.
Qed.

Lemma validate_fields_reads (this : ModelClass) (o : obj) :
  yields (S := S) (validate_fields validateFieldValue this o) (fun _ => True).
Proof.
  unfold validate_fields. apply yields_for_each. intros key.
  destruct (String.eqb key "_id"); [now apply yields_ret|].
  destruct (flag (timestamps (schema this)) && String.eqb key "updatedAt");
    [now apply yields_ret|].
  destruct (flag (timestamps (schema this)) && String.eqb key "createdAt");
    [now apply yields_ret|].
  destruct (field_get (fields (schema this)) key) as [f|]; [|apply yields_throw].
  destruct (negb (validateFieldValue (prop o key) f));
    [apply yields_throw|now apply yields_ret].
Qed.

Lemma validate_unique_reads (this : ModelClass) (o : obj) (options : Options) :
  yields (validate_unique store models this o options) (fun _ => True).
Proof.
  unfold validate_unique.
  destruct (indexes (schema this)) as [idxs|]; [|now apply yields_ret].
  destruct (negb (is_true (ignoreUniqueIndex options))); [|now apply yields_ret].
  apply yields_for_each. intros index.
  destruct (index_options index) as [io|]; [|now apply yields_ret].
  destruct (negb (flag (unique io))); [now apply yields_ret|].
  destruct (negb (forallb _ _)); [now apply yields_ret|].
  apply yields_bind with (P := fun _ => True); [now apply yields_liftH|]. intros l _.
  apply yields_bind with (P := fun _ => True); [apply findOne_reads|]. intros found _.
  destruct (truthy found); [apply yields_throw|now apply yields_ret].
Qed.







End Insertion.



(** ** Cascading deletion *)

(** The deleted documents handed to [afterDelete] include one whose [_id] is
    the ObjectID [X]. *)
Definition carries (docs : value) (X : ObjectID) : Prop :=
  match docs with
  | VArr ds => exists doc, In doc ds /\ member doc "_id" = VOid X
  | _ => member docs "_id" = VOid X
  end.

Lemma fields_hasOwnProperty_get (fs : list (string * FieldSpecs)) (k : string) (f : FieldSpecs) :
  field_get fs k = Some f -> fields_hasOwnProperty fs k = true.
Proof. unfold fields_hasOwnProperty. now intros ->. Qed.

Section Deletion.

Context {S : Type}.
Variable store : Store S.
Variable models : option (list (string * ModelClass)).

Lemma liftH_run {A} (m : H A) (w : World S) :
  liftH m w = match m (w_heap w) with
              | (r, h') => (r, Build_World h' (w_store w) (w_now w), [])
              end.
Proof. reflexivity. Qed.

(** [beforeDelete] under the default hook, on a filter object all of whose
    keys are retained: the filter is returned as it is. *)
Lemma beforeDelete_retained
      (B : ModelClass) (l : loc) (o : obj) (options : Options) (w : World S) :
  willDeleteDocument B (QObject l) = ret (QObject l) ->
  w_heap w !! l = Some o ->
  forallb (fun p => retained_key (schema B) (fst p)) o = true ->
  beforeDelete B (QObject l) options w = (Ok l, w, []).
Proof.
  intros Hhook Hl Hret. destruct w as [h s now]. cbn [w_heap] in Hl.
  unfold beforeDelete. rewrite Hhook.
  rewrite bind_run, liftH_run. cbn [ret H_monad w_heap w_store w_now].
  rewrite liftH_run. cbn [w_heap w_store w_now].
  rewrite (sanitizeQuery_object_strict (schema B) l h o Hl).
  assert (List.filter (fun p => retained_key (schema B) (fst p)) o = o) as ->.
  { clear Hl. induction o as [|p r IH]; [reflexivity|]. cbn in *.
    apply andb_true_iff in Hret as [Hp Hr]. rewrite Hp. f_equal. now apply IH. }
  rewrite list_insert_id by exact Hl. reflexivity.
Qed.

(** A plain [deleteMany] of a model that permits it, under the default hook,
    with the filter [{key: v}] on a declared field: the store's delete-many
    is called on the model's collection with exactly that filter. *)
Lemma deleteMany_body_issues
      (D : ModelClass -> Query -> Options -> M S value)
      (B : ModelClass) (l : loc) (key : string) (v : value) (fieldB : FieldSpecs)
      (w : World S) :
  is_true (noDeletes (schema B)) = false ->
  is_true (noDeleteMany (schema B)) = false ->
  willDeleteDocument B (QObject l) = ret (QObject l) ->
  field_get (fields (schema B)) key = Some fieldB ->
  w_heap w !! l = Some [(key, v)] ->
  In (CallDeleteMany (collection (schema B)) (VObj [(key, v)]))
     (snd (deleteMany_body store models D B (QObject l) no_options w)).
Proof.
  intros Hnd Hndm Hhook Hf Hl. unfold deleteMany_body. rewrite Hnd, Hndm. cbn [orb].
  eapply bind_calls_r.
  { apply beforeDelete_retained with (o := [(key, v)]); [exact Hhook|exact Hl|].
    cbn. unfold retained_key. rewrite (fields_hasOwnProperty_get _ _ _ Hf).
    now rewrite !orb_true_r. }
  eapply bind_calls_r; [reflexivity|]. cbn [returnDocs no_options is_true].
  eapply bind_calls_r.
  { unfold filter_of_query. rewrite bind_run, liftH_run. unfold read. rewrite Hl.
    cbn. destruct w. reflexivity. }
  apply bind_calls_l. unfold collection_deleteMany, call, getCollection.
  destruct (store_deleteMany store _ _ (w_store w)) as [r s']. cbn. now left.
Qed.

(** [cascadeDelete], when it completes, has deleted from every dependent
    model along every field that references this model. *)
Lemma cascadeDelete_issues
      (D : ModelClass -> Query -> Options -> M S value)
      (this B : ModelClass) (names : list string) (modelName key : string)
      (fieldB : FieldSpecs) (docId : value)
      (w w' : World S) (calls : list StoreCall) :
  cascade (schema this) = Some names ->
  In modelName names ->
  getModel models modelName = Ok B ->
  field_get (fields (schema B)) key = Some fieldB ->
  ref fieldB = Some (model (schema this)) ->
  is_true (noDeletes (schema B)) = false ->
  is_true (noDeleteMany (schema B)) = false ->
  (forall q, willDeleteDocument B q = ret q) ->
  cascadeDelete_with models (deleteMany_body store models D) this docId w
  = (Ok tt, w', calls) ->
  In (CallDeleteMany (collection (schema B)) (VObj [(key, docId)])) calls.
Proof.
  intros Hc Hin Hget Hf Href Hnd Hndm Hhook Hrun.
  unfold cascadeDelete_with in Hrun. rewrite Hc in Hrun.
  destruct (for_each_ok_inv _ _ _ _ _ modelName Hrun Hin) as (w1 & w2 & t1 & Hbody & Hsub).
  apply Hsub. clear Hsub Hrun.
  rewrite Hget in Hbody. apply bind_ok_inv in Hbody as (B' & w3 & t2 & t3 & HB & Hkeys & ->).
  cbn in HB. injection HB as <- <- <-. cbn [app].
  destruct (for_each_ok_inv _ _ _ _ _ key Hkeys (field_get_In _ _ _ Hf))
    as (w4 & w5 & t4 & Hkey & Hsub).
  apply Hsub. clear Hsub Hkeys.
  rewrite Hf, Href, String.eqb_refl in Hkey.
  change t4 with (snd (Ok tt, w5, t4)). rewrite <- Hkey.
  eapply bind_calls_r.
  { rewrite liftH_run. unfold alloc. reflexivity. }
  apply bind_calls_l.
  apply deleteMany_body_issues with fieldB; try assumption; [apply Hhook|].
  cbn [w_heap]. rewrite lookup_app_r by lia. now rewrite Nat.sub_diag.
Qed.

Lemma afterDelete_issues
      (D : ModelClass -> Query -> Options -> M S value)
      (this B : ModelClass) (names : list string) (modelName key : string)
      (fieldB : FieldSpecs) (docs : value) (X : ObjectID)
      (w w' : World S) (calls : list StoreCall) :
  cascade (schema this) = Some names ->
  In modelName names ->
  getModel models modelName = Ok B ->
  field_get (fields (schema B)) key = Some fieldB ->
  ref fieldB = Some (model (schema this)) ->
  is_true (noDeletes (schema B)) = false ->
  is_true (noDeleteMany (schema B)) = false ->
  (forall q, willDeleteDocument B q = ret q) ->
  carries docs X ->
  afterDelete_with models (deleteMany_body store models D) this docs w
  = (Ok tt, w', calls) ->
  In (CallDeleteMany (collection (schema B)) (VObj [(key, VOid X)])) calls.
Proof.
  intros Hc Hin Hget Hf Href Hnd Hndm Hhook Hcar Hrun.
  unfold afterDelete_with in Hrun.
  apply bind_ok_inv in Hrun as ([] & w1 & t1 & t2 & Hcas & _ & ->).
  apply in_or_app. left.
  assert (forall wa wb t,
             cascadeDelete_with models (deleteMany_body store models D) this (VOid X) wa
             = (Ok tt, wb, t) ->
             In (CallDeleteMany (collection (schema B)) (VObj [(key, VOid X)])) t)
    as Hcascade.
  { intros wa wb t Ht.
    now apply (cascadeDelete_issues D this B names modelName key fieldB (VOid X) wa wb t). }
  destruct docs as [| |b|n|s|o|t|ds|o]; cbn in Hcar; try discriminate Hcar.
  - destruct Hcar as (doc & Hdoc & Hid).
    destruct (for_each_ok_inv _ _ _ _ _ doc Hcas Hdoc) as (wa & wb & tx & Hbody & Hsub).
    apply Hsub. rewrite Hid in Hbody. cbn in Hbody. now apply Hcascade with wa wb.
  - cbn [is_nullOrUndefined negb andb member] in Hcas. rewrite Hcar in Hcas.
    cbn [is_ObjectID] in Hcas. now apply Hcascade with w w1.
Qed.

(** C1, amended.  Schema A lists model B in its cascade list, field [key] of
    B references A, B permits batch deletion and keeps the default
    pre-delete hook.  Whenever a delete operation of A that hands the
    deleted documents to [afterDelete] completes ([afterDelete] itself,
    [deleteOne] with [returnDoc], [deleteMany] with [returnDocs]), then for
    each deleted document whose [_id] is an ObjectID [X] the engine has
    called the store's delete-many on B's collection with the filter
    [{key: X}]. *)
Theorem cascade_deletes_dependents_of_returned_documents
        (this B : ModelClass) (names : list string) (modelName key : string)
        (fieldB : FieldSpecs) :
  cascade (schema this) = Some names ->
  In modelName names ->
  getModel models modelName = Ok B ->
  field_get (fields (schema B)) key = Some fieldB ->
  ref fieldB = Some (model (schema this)) ->
  is_true (noDeletes (schema B)) = false ->
  is_true (noDeleteMany (schema B)) = false ->
  (forall q, willDeleteDocument B q = ret q) ->
  (forall docs X w w' calls,
      carries docs X ->
      afterDelete store models this docs w = (Ok tt, w', calls) ->
      In (CallDeleteMany (collection (schema B)) (VObj [(key, VOid X)])) calls)
  /\ (forall query options doc X w w' calls,
         is_true (returnDoc options) = true ->
         deleteOne store models this query options w = (Ok doc, w', calls) ->
         member doc "_id" = VOid X ->
         In (CallDeleteMany (collection (schema B)) (VObj [(key, VOid X)])) calls)
  /\ (forall query options docs X w w' calls,
         is_true (returnDocs options) = true ->
         deleteMany store models this query options w = (Ok docs, w', calls) ->
         carries docs X ->
         In (CallDeleteMany (collection (schema B)) (VObj [(key, VOid X)])) calls).
Proof.
  intros Hc Hin Hget Hf Href Hnd Hndm Hhook.
  assert (forall docs X w w' calls,
             carries docs X ->
             afterDelete store models this docs w = (Ok tt, w', calls) ->
             In (CallDeleteMany (collection (schema B)) (VObj [(key, VOid X)])) calls)
    as Hafter.
  { intros docs X w w' calls Hcar Hrun.
    exact (afterDelete_issues _ this B names modelName key fieldB docs X w w' calls
                              Hc Hin Hget Hf Href Hnd Hndm Hhook Hcar Hrun). }
  split; [exact Hafter|]. split.
  - intros query options doc X w w' calls Hret Hrun Hid.
    unfold deleteOne in Hrun.
    destruct (is_true (noDeletes (schema this))); [discriminate Hrun|].
    apply bind_ok_inv in Hrun as (q & w1 & t1 & t2 & _ & Hrun & ->).
    apply bind_ok_inv in Hrun as (coll & w2 & t3 & t4 & _ & Hrun & ->).
    apply bind_ok_inv in Hrun as (filter & w3 & t5 & t6 & _ & Hrun & ->).
    rewrite Hret in Hrun.
    apply bind_ok_inv in Hrun as (results & w4 & t7 & t8 & _ & Hrun & ->).
    apply bind_ok_inv in Hrun as ([] & w5 & t9 & t10 & _ & Hrun & ->).
    destruct (negb (truthy (res_value results))).
    + injection Hrun as <- _ _. discriminate Hid.
    + apply bind_ok_inv in Hrun as ([] & w6 & t11 & t12 & Hrun & Hdoc & ->).
      injection Hdoc as Hd _ _. rewrite Hd in Hrun.
      assert (carries doc X) as Hcar.
      { destruct doc; cbn in Hid |- *; try discriminate Hid. exact Hid. }
      pose proof (Hafter _ _ _ _ _ Hcar Hrun) as Hcall.
      rewrite !in_app_iff. tauto.
  - intros query options docs X w w' calls Hret Hrun Hcar.
    unfold deleteMany in Hrun. cbn [deleteMany_depth] in Hrun.
    unfold deleteMany_body at 1 in Hrun.
    destruct (is_true (noDeletes (schema this)) || is_true (noDeleteMany (schema this)));
      [discriminate Hrun|].
    apply bind_ok_inv in Hrun as (q & w1 & t1 & t2 & _ & Hrun & ->).
    apply bind_ok_inv in Hrun as (coll & w2 & t3 & t4 & _ & Hrun & ->).
    rewrite Hret in Hrun.
    apply bind_ok_inv in Hrun as (found & w3 & t5 & t6 & _ & Hrun & ->).
    apply bind_ok_inv in Hrun as (values & w4 & t7 & t8 & _ & Hrun & ->).
    apply bind_ok_inv in Hrun as ([] & w5 & t9 & t10 & Hrun & Hdocs & ->).
    injection Hdocs as Hd _ _. rewrite Hd in Hrun.
    pose proof (afterDelete_issues _ this B names modelName key fieldB _ X _ _ _
                                   Hc Hin Hget Hf Href Hnd Hndm Hhook Hcar Hrun) as Hcall.
    rewrite !in_app_iff. tauto.
Qed.

End Deletion.

(** ** The bound on cascading calls is never reached *)

Section Depth.

Context {S : Type}.
Variable store : Store S.
Variable models : option (list (string * ModelClass)).

Lemma bind_ext {A B} (m1 m2 : M S A) (f1 f2 : A -> M S B) :
  (forall w, m1 w = m2 w) ->
  (forall a w, f1 a w = f2 a w) ->
  forall w, bind m1 f1 w = bind m2 f2 w.
Proof.
  intros Hm Hf w. rewrite !bind_run, Hm.
  destruct (m2 w) as [[[a|e] w1] t]; [|reflexivity]. now rewrite Hf.
Qed.

Lemma for_each_ext {A} (f g : A -> M S unit) (xs : list A) :
  (forall x w, f x w = g x w) ->
  forall w, for_each xs f w = for_each xs g w.
Proof.
  intros Hfg. induction xs as [|x r IH]; intros w; [reflexivity|].
  cbn [for_each]. apply bind_ext; [apply Hfg|]. intros _. exact IH.
Qed.

(** A [deleteMany] that does not return documents never calls back. *)
Lemma deleteMany_body_plain
      (D1 D2 : ModelClass -> Query -> Options -> M S value)
      (this : ModelClass) (q : Query) (o : Options) (w : World S) :
  is_true (returnDocs o) = false ->
  deleteMany_body store models D1 this q o w = deleteMany_body store models D2 this q o w.
Proof. intros Hr. unfold deleteMany_body. rewrite Hr. reflexivity. Qed.

Lemma cascadeDelete_with_ext
      (D1 D2 : ModelClass -> Query -> Options -> M S value) :
  (forall B q w, D1 B q no_options w = D2 B q no_options w) ->
  forall this docId w,
    cascadeDelete_with models D1 this docId w = cascadeDelete_with models D2 this docId w.
Proof.
  intros HD this docId w. unfold cascadeDelete_with.
  destruct (cascade (schema this)) as [names|]; [|reflexivity].
  apply for_each_ext. intros modelName w1.
  apply bind_ext; [reflexivity|]. intros B w2.
  apply for_each_ext. intros key w3.
  destruct (field_get (fields (schema B)) key) as [f|]; [|reflexivity].
  destruct (ref f) as [r|]; [|reflexivity].
  destruct (String.eqb r (model (schema this))); [|reflexivity].
  apply bind_ext; [reflexivity|]. intros l w4.
  apply bind_ext; [apply HD|reflexivity].
Qed.

Lemma afterDelete_with_ext
      (D1 D2 : ModelClass -> Query -> Options -> M S value) :
  (forall B q w, D1 B q no_options w = D2 B q no_options w) ->
  forall this docs w,
    afterDelete_with models D1 this docs w = afterDelete_with models D2 this docs w.
Proof.
  intros HD this docs w. unfold afterDelete_with.
  apply bind_ext; [|reflexivity]. intros w1.
  destruct docs as [| |b|n|s|o|t|ds|o];
    try reflexivity;
    try (destruct (negb _ && _); [now apply cascadeDelete_with_ext|reflexivity]).
  apply for_each_ext. intros doc w2.
  destruct (negb (is_ObjectID (member doc "_id"))); [reflexivity|].
  now apply cascadeDelete_with_ext.
Qed.

Lemma deleteMany_body_ext
      (D1 D2 : ModelClass -> Query -> Options -> M S value) :
  (forall B q w, D1 B q no_options w = D2 B q no_options w) ->
  forall this q o w,
    deleteMany_body store models D1 this q o w = deleteMany_body store models D2 this q o w.
Proof.
  intros HD this q o w. unfold deleteMany_body.
  destruct (is_true (noDeletes (schema this)) || is_true (noDeleteMany (schema this)));
    [reflexivity|].
  apply bind_ext; [reflexivity|]. intros l w1.
  apply bind_ext; [reflexivity|]. intros coll w2.
  destruct (is_true (returnDocs o)).
  - apply bind_ext; [reflexivity|]. intros docs w3.
    apply bind_ext; [reflexivity|]. intros values w4.
    apply bind_ext; [now apply afterDelete_with_ext|reflexivity].
  - reflexivity.
Qed.

(** Any depth of two or more gives the run of [deleteMany]: the engine's
    recursion is total. *)
Theorem deleteMany_depth_stable
        (n : nat) (this : ModelClass) (q : Query) (o : Options) (w : World S) :
  deleteMany_depth store models (Datatypes.S (Datatypes.S n)) this q o w
  = deleteMany store models this q o w.
Proof.
  unfold deleteMany. cbn [deleteMany_depth].
  apply deleteMany_body_ext. intros B q' w'.
  now apply deleteMany_body_plain.
Qed.

(** The [deleteMany] that [cascadeDelete] calls is [deleteMany] itself. *)
Theorem cascading_deleteMany_is_deleteMany
        (this : ModelClass) (q : Query) (w : World S) :
  deleteMany_depth store models 1 this q no_options w
  = deleteMany store models this q no_options w.
Proof.
  unfold deleteMany. cbn [deleteMany_depth]. now apply deleteMany_body_plain.
Qed.

End Depth.

(** ** Cascading deletion on the example registry *)

Lemma cascade_deletes_dependents_of_returned_documents_witness :
  In (CallDeleteMany "books" (VObj [("author", VOid (oid_of "author-----x"))]))
     (snd (deleteOne mem_store library_models Author (QObjectID (oid_of "author-----x"))
                     with_returnDoc (world_of [] library)))
  /\ documents
       (w_store (snd (fst (deleteOne mem_store library_models Author
                                     (QObjectID (oid_of "author-----x"))
                                     with_returnDoc (world_of [] library)))))
       "books"
     = [book_2].
Proof.
  split; [|vm_compute; reflexivity].
  destruct (cascade_deletes_dependents_of_returned_documents
              mem_store library_models Author Book ["Book"] "Book" "author"
              (reference_to "Author")
              eq_refl (or_introl eq_refl) eq_refl eq_refl eq_refl eq_refl eq_refl
              (fun q => eq_refl))
    as (_ & Hone & _).
  destruct (deleteOne mem_store library_models Author (QObjectID (oid_of "author-----x"))
                      with_returnDoc (world_of [] library))
    as [[r w'] calls] eqn:Hrun.
  pose proof Hrun as Hval. vm_compute in Hval. injection Hval as Hr _ _.
  rewrite <- Hr in Hrun.
  cbn [snd].
  apply (Hone (QObjectID (oid_of "author-----x")) with_returnDoc (VObj author_x)
              (oid_of "author-----x") (world_of [] library) w' calls);
    [reflexivity|exact Hrun|reflexivity].
Defined.

(** C1 as stated fails: a [deleteOne] that is not asked to return the
    document removes the [Author] and hands nothing to [afterDelete]; no
    cascade runs, and the books that reference the author stay. *)
Lemma deleteOne_without_returnDoc_leaves_dependents :
  cascade author_schema = Some ["Book"]
  /\ field_get (fields book_schema) "author" = Some (reference_to "Author")
  /\ deleteOne mem_store library_models Author (QObjectID (oid_of "author-----x"))
               no_options (world_of [] library)
     = (Ok (VBool true),
        world_of [[("_id", VOid (oid_of "author-----x"))]]
                 [("authors", [author_y]); ("books", [book_1; book_2; book_3])],
        [CallDeleteOne "authors" (VObj [("_id", VOid (oid_of "author-----x"))])])
  /\ obj_get book_1 "author" = Some (VOid (oid_of "author-----x")).
Proof. repeat split; vm_compute; reflexivity. Qed.

(* ===================================================================== *)
(** * Further properties of the sanitizer, the registry and the factory *)
(* ===================================================================== *)




(** ** getModel *)

Lemma models_get_In (ms : list (string * ModelClass)) (k : string) (m : ModelClass) :
  models_get ms k = Some m -> In (k, m) ms.
Proof.
  induction ms as [|[k' m'] r IH]; cbn; [discriminate|].
  destruct (String.eqb k k') eqn:E.
  - apply String.eqb_eq in E. intros [= ->]. subst. now left.
  - intros Hr. right. now apply IH.
Qed.




(** ** lookupStageFactory *)

(** A pipeline made of joins only: each [$lookup] on the foreign [_id] is
    followed by the [$unwind] of the field it wrote, which keeps null and
    empty values. *)
Inductive join_pairs : list obj -> Prop :=
| join_pairs_nil : join_pairs []
| join_pairs_cons (from localField as_ : string) (rest : list obj) :
    join_pairs rest ->
    join_pairs (lookup_stage from localField as_ :: unwind_stage ("$" +:+ as_) :: rest).

Lemma join_pairs_app (a b : list obj) :
  join_pairs a -> join_pairs b -> join_pairs (a ++ b).
Proof.
  induction 1 as [|from lf as_ rest _ IH]; intros Hb; [exact Hb|].
  cbn. constructor. now apply IH.
Qed.

Lemma join_pairs_even (l : list obj) : join_pairs l -> Nat.Even (length l).
Proof.
  induction 1 as [|from lf as_ rest _ [k Hk]]; [now exists 0%nat|].
  exists (S k). cbn [length]. lia.
Qed.

Fixpoint entries_size (size : value -> nat) (o : list (string * value)) : nat :=
  match o with
  | [] => 0
  | (_, x) :: r => size x + entries_size size r
  end.

(** The nesting measure of a populate descriptor. *)
Fixpoint value_size (v : value) : nat :=
  match v with
  | VObj o =>
      S ((fix go (o : list (string * value)) : nat :=
            match o with
            | [] => 0
            | (_, x) :: r => value_size x + go r
            end) o)
  | _ => 0
  end.

Lemma value_size_VObj (o : list (string * value)) :
  value_size (VObj o) = S (entries_size value_size o).
Proof.
  cbn [value_size]. f_equal.
  induction o as [|[k x] r IH]; [reflexivity|]. cbn [entries_size]. now rewrite <- IH.
Qed.

Section Lookup.

Variable models : option (list (string * ModelClass)).

Lemma lookupStageFactory_pairs_bounded (n : nat) :
  forall (specs : value) (schema : Schema) (fromPrefix toPrefix : string)
         (stages : list obj),
    (value_size specs <= n)%nat ->
    lookupStageFactory models schema specs fromPrefix toPrefix = Ok stages ->
    join_pairs stages.
Proof.
  induction n as [|n IHn]; intros specs schema fromPrefix toPrefix stages Hsize Hrun.
  - destruct specs; try (cbn in Hrun; injection Hrun as <-; constructor).
    rewrite value_size_VObj in Hsize. lia.
  - destruct specs as [| | | | | | | |entries];
      try (cbn in Hrun; injection Hrun as <-; constructor).
    rewrite value_size_VObj in Hsize. apply le_S_n in Hsize.
    cbn [lookupStageFactory] in Hrun.
    match type of Hrun with
    | ?loop entries [] = _ =>
        enough (Hgen : forall entries pipe,
                   (entries_size value_size entries <= n)%nat ->
                   join_pairs pipe -> loop entries pipe = Ok stages ->
                   join_pairs stages)
          by exact (Hgen entries [] Hsize join_pairs_nil Hrun)
    end.
    clear entries Hsize Hrun.
    induction entries as [|[key val] rest IHrest]; intros pipe Hsize Hpipe Hrun.
    + injection Hrun as <-. exact Hpipe.
    + cbn [entries_size] in Hsize.
      destruct (negb _) in Hrun; [discriminate|].
      destruct (match field_get (fields schema) key with
                | Some f => ref f | None => None end) as [r|] in Hrun;
        [|discriminate].
      destruct (String.eqb r "") in Hrun; [discriminate|].
      destruct (getModel models r) as [m|e] in Hrun; [|discriminate].
      cbv zeta in Hrun.
      assert (Hpair : join_pairs
                        ((pipe ++ [lookup_stage (collection (static_schema m))
                                                (fromPrefix +:+ key) (toPrefix +:+ key)])
                           ++ [unwind_stage ("$" +:+ toPrefix +:+ key)])).
      { rewrite <- app_assoc. apply join_pairs_app; [exact Hpipe|].
        cbn. constructor. constructor. }
      destruct (is_object val) in Hrun.
      * destruct (lookupStageFactory models (static_schema m) val _ _)
          as [nested|e] eqn:Enested in Hrun; [|discriminate].
        apply IHn in Enested; [|lia].
        refine (IHrest _ _ (join_pairs_app _ _ Hpair Enested) Hrun). lia.
      * refine (IHrest _ _ Hpair Hrun). lia.
Qed.

(** X3. Whatever the populate descriptor and however deeply it nests, the
    stages lookupStageFactory returns are joins only: every [$lookup] is on
    the foreign [_id] and is followed at once by the [$unwind] of the field
    it wrote, with null and empty values preserved; so the number of stages
    is even. *)
Theorem lookupStageFactory_returns_join_pairs
        (schema : Schema) (specs : value) (fromPrefix toPrefix : string)
        (stages : list obj) :
  lookupStageFactory models schema specs fromPrefix toPrefix = Ok stages ->
  join_pairs stages /\ Nat.Even (length stages).
Proof.
  intros Hrun.
  assert (Hp : join_pairs stages)
    by exact (lookupStageFactory_pairs_bounded _ _ _ _ _ _ (le_n _) Hrun).
  split; [exact Hp|now apply join_pairs_even].
Qed.

(** X4. A populate descriptor that names a field the schema does not
    declare, or a field without a reference model, is rejected: no pipeline
    is returned, whatever the other entries are. *)
Theorem lookupStageFactory_rejects_field_without_reference
        (schema : Schema) (entries : list (string * value)) (key : string)
        (val : value) (fromPrefix toPrefix : string) :
  In (key, val) entries ->
  match field_get (fields schema) key with
  | Some f => ref f = None \/ ref f = Some ""
  | None => True
  end ->
  exists e : error,
    lookupStageFactory models schema (VObj entries) fromPrefix toPrefix = Throw e.
Proof.
  intros Hin Href. cbn [lookupStageFactory].
  match goal with
  | |- exists e, ?loop entries [] = Throw e =>
      enough (Hgen : forall entries pipe,
                 In (key, val) entries -> exists e, loop entries pipe = Throw e)
        by exact (Hgen entries [] Hin)
  end.
  clear entries Hin.
  induction entries as [|[key' val'] rest IHrest]; intros pipe Hin; [destruct Hin|].
  destruct (negb _); [now eexists|].
  destruct Hin as [[= -> ->]|Hin].
  - destruct (field_get (fields schema) key) as [f|]; [|now eexists].
    destruct Href as [-> | ->]; now eexists.
  - destruct (match field_get (fields schema) key' with
              | Some f => ref f | None => None end) as [r|]; [|now eexists].
    destruct (String.eqb r ""); [now eexists|].
    destruct (getModel models r) as [m|e]; [|now eexists].
    cbv zeta. destruct (is_object val').
    + destruct (lookupStageFactory models (static_schema m) val' _ _);
        [|now eexists].
      now apply IHrest.
    + now apply IHrest.
Qed.

End Lookup.

Lemma lookupStageFactory_returns_join_pairs_witness :
  join_pairs (lookup_stage "subModels" "foo.subModel" "bar.subModel"
              :: unwind_stage "$bar.subModel"
              :: lookup_stage "subSubModels" "bar.subModel.subSubModel"
                              "bar.subModel.subSubModel"
              :: unwind_stage "$bar.subModel.subSubModel" :: [])
  /\ Nat.Even 4.
Proof.
  exact (lookupStageFactory_returns_join_pairs example_models example_root_schema
           (VObj [("subModel", VObj [("subSubModel", VBool true)])])
           "foo." "bar." _ eq_refl).
Defined.

Lemma lookupStageFactory_rejects_field_without_reference_witness :
  exists e : error,
    lookupStageFactory example_models example_root_schema
      (VObj [("subModel", VBool true); ("name", VBool true)]) "" "" = Throw e.
Proof.
  apply (lookupStageFactory_rejects_field_without_reference example_models
           example_root_schema _ "name" (VBool true)).
  - right. left. reflexivity.
  - vm_compute. left. reflexivity.
Defined.

(* ===================================================================== *)
(** * Further properties of the model engine *)
(* ===================================================================== *)

(** ** validateDocument *)

(** Every key of the document is [_id], a timestamp the schema generates,
    or a declared field whose value the field validator accepts. *)
Definition declared_and_valid (validateFieldValue : value -> FieldSpecs -> bool)
           (sch : Schema) (o : obj) : Prop :=
  forall key : string,
    In key (keys o) ->
    key = "_id"
    \/ (flag (timestamps sch) = true /\ (key = "updatedAt" \/ key = "createdAt"))
    \/ exists f, field_get (fields sch) key = Some f
                 /\ validateFieldValue (prop o key) f = true.

(** Every required field without a usable default is in the document. *)
Definition required_present (sch : Schema) (o : obj) : Prop :=
  forall (key : string) (f : FieldSpecs),
    field_get (fields sch) key = Some f ->
    flag (required f) = true ->
    default_truthy f = false ->
    hasOwnProperty o key = true.

Section Validation.

Context {S : Type}.
Variable store : Store S.
Variable models : option (list (string * ModelClass)).
Variable validateFieldValue : value -> FieldSpecs -> bool.


Lemma validate_fields_rejects (this : ModelClass) (o : obj) (key : string) :
  In key (keys o) ->
  key <> "_id" ->
  (flag (timestamps (schema this)) = true -> key <> "updatedAt" /\ key <> "createdAt") ->
  field_get (fields (schema this)) key = None ->
  settles (S := S) (validate_fields validateFieldValue this o) (fun _ => False).
Proof.
  intros Hin Hid Hts Hf. unfold validate_fields. revert Hin.
  induction (keys o) as [|k ks IH]; intros Hin; [destruct Hin|].
  cbn [for_each]. destruct (String.eqb key k) eqn:E.
  - apply String.eqb_eq in E. subst k.
    apply settles_bind with (P := fun _ => False); [|intros _ []].
    apply String.eqb_neq in Hid. rewrite Hid.
    destruct (flag (timestamps (schema this))).
    + destruct (Hts eq_refl) as [Hu Hc].
      apply String.eqb_neq in Hu, Hc. rewrite Hu, Hc. cbn [andb].
      rewrite Hf. apply settles_throw.
    + cbn [andb]. rewrite Hf. apply settles_throw.
  - apply String.eqb_neq in E. destruct Hin as [Hk|Hin]; [congruence|].
    apply settles_bind with (P := fun _ => True); [|intros _ _; now apply IH].
    destruct (String.eqb k "_id"); [now apply settles_ret|].
    destruct (flag (timestamps (schema this)) && String.eqb k "updatedAt");
      [now apply settles_ret|].
    destruct (flag (timestamps (schema this)) && String.eqb k "createdAt");
      [now apply settles_ret|].
    destruct (field_get (fields (schema this)) k) as [f|]; [|apply settles_throw].
    destruct (negb (validateFieldValue (prop o k) f));
      [apply settles_throw|now apply settles_ret].
Qed.

(** X5. A document with a key that is neither [_id], nor a generated
    timestamp, nor a field of the schema is rejected: validateDocument
    throws an [Error] before any call to the store, and the world is as it
    was. *)
Theorem validateDocument_rejects_undeclared_field
        (this : ModelClass) (o : obj) (options : Options) (key : string)
        (w : World S) :
  In key (keys o) ->
  key <> "_id" ->
  (flag (timestamps (schema this)) = true -> key <> "updatedAt" /\ key <> "createdAt") ->
  field_get (fields (schema this)) key = None ->
  exists message : string,
    validateDocument store models validateFieldValue this (VObj o) options w
    = (Throw (Error message), w, []).
Proof.
  intros Hin Hid Hts Hf.
  assert (settles (validateDocument store models validateFieldValue this (VObj o) options)
                  (fun _ => False)) as Hs.
  { unfold validateDocument. cbn [is_plainObject negb props].
    destruct (is_emptyObject (VObj o)); [apply settles_throw|].
    apply settles_bind with (P := fun _ => False); [|intros _ []].
    now apply validate_fields_rejects with key. }
  destruct (Hs w) as [(b & _ & [])|Hthrow]. exact Hthrow.
Qed.

Lemma validateDocument_reads (this : ModelClass) (doc : value) (options : Options) :
  yields (validateDocument store models validateFieldValue this doc options)
         (fun _ => True).
Proof.
  unfold validateDocument.
  destruct (negb (is_plainObject doc)); [apply yields_throw|].
  destruct (is_emptyObject doc); [apply yields_throw|].
  apply yields_bind with (P := fun _ => True); [apply validate_fields_reads|].
  intros _ _.
  apply yields_bind with (P := fun _ => True); [apply validate_unique_reads|].
  intros _ _.
  apply yields_bind with (P := fun _ => True); [|intros; now apply yields_ret].
  destruct (is_true (strict options)); [|now apply yields_ret].
  unfold validate_required. apply yields_for_each. intros key.
  destruct (field_get (fields (schema this)) key) as [f|]; [|now apply yields_ret].
  destruct (negb (flag (required f)) || default_truthy f); [now apply yields_ret|].
  destruct (negb (hasOwnProperty (props doc) key));
    [apply yields_throw|now apply yields_ret].
Qed.

Lemma validateDocument_ok_inv
      (this : ModelClass) (doc : value) (options : Options)
      (w w' : World S) (calls : list StoreCall) (b : bool) :
  validateDocument store models validateFieldValue this doc options w
  = (Ok b, w', calls) ->
  b = true
  /\ exists o : obj,
      doc = VObj o /\ o <> []
      /\ declared_and_valid validateFieldValue (schema this) o
      /\ (is_true (strict options) = true -> required_present (schema this) o).
Proof.
  intros Hrun. unfold validateDocument in Hrun.
  destruct doc as [| | | | | | | |o]; try discriminate Hrun.
  cbn [is_plainObject negb props] in Hrun.
  destruct o as [|p o']; [discriminate Hrun|]. cbn [is_emptyObject] in Hrun.
  set (o := p :: o') in *.
  apply bind_ok_inv in Hrun as ([] & w1 & t1 & t2 & Hfields & Hrun & ->).
  apply bind_ok_inv in Hrun as ([] & w2 & t3 & t4 & _ & Hrun & ->).
  apply bind_ok_inv in Hrun as ([] & w3 & t5 & t6 & Hreq & Hret & ->).
  injection Hret as <- _ _.
  split; [reflexivity|].
  exists o. split; [reflexivity|]. split; [discriminate|]. split.
  - intros key Hin. unfold validate_fields in Hfields.
    destruct (for_each_ok_inv _ _ _ _ _ key Hfields Hin) as (wa & wb & ta & Hbody & _).
    destruct (String.eqb key "_id") eqn:Eid; [left; now apply String.eqb_eq|].
    right. destruct (flag (timestamps (schema this))); cbn [andb] in Hbody.
    + destruct (String.eqb key "updatedAt") eqn:Eu;
        [left; split; [reflexivity|left; now apply String.eqb_eq]|].
      destruct (String.eqb key "createdAt") eqn:Ec;
        [left; split; [reflexivity|right; now apply String.eqb_eq]|].
      right. destruct (field_get (fields (schema this)) key) as [f|]; [|discriminate].
      exists f. split; [reflexivity|].
      destruct (validateFieldValue (prop o key) f); [reflexivity|discriminate].
    + right. destruct (field_get (fields (schema this)) key) as [f|]; [|discriminate].
      exists f. split; [reflexivity|].
      destruct (validateFieldValue (prop o key) f); [reflexivity|discriminate].
  - intros Hstrict key f Hf Hrequired Hdefault. rewrite Hstrict in Hreq.
    unfold validate_required in Hreq.
    destruct (for_each_ok_inv _ _ _ _ _ key Hreq (field_get_In _ _ _ Hf))
      as (wa & wb & ta & Hbody & _).
    rewrite Hf, Hrequired, Hdefault in Hbody. cbn [negb orb] in Hbody.
    destruct (hasOwnProperty o key); [reflexivity|discriminate].
Qed.

(** X6. What a successful validation guarantees: the document is a
    non-empty plain object, each of its keys is [_id], a generated
    timestamp or a declared field with an accepted value, in strict mode no
    required field without a default is missing, and the store was only
    read. *)
Theorem validateDocument_sound
        (this : ModelClass) (doc : value) (options : Options)
        (w w' : World S) (calls : list StoreCall) (b : bool) :
  validateDocument store models validateFieldValue this doc options w
  = (Ok b, w', calls) ->
  b = true
  /\ Forall is_aggregate calls
  /\ exists o : obj,
      doc = VObj o /\ o <> []
      /\ declared_and_valid validateFieldValue (schema this) o
      /\ (is_true (strict options) = true -> required_present (schema this) o).
Proof.
  intros Hrun. destruct (validateDocument_ok_inv _ _ _ _ _ _ _ Hrun) as [Hb Ho].
  split; [exact Hb|]. split; [|exact Ho].
  destruct (validateDocument_reads this doc options w) as [Hc _].
  now rewrite Hrun in Hc.
Qed.


End Validation.

Lemma validateDocument_rejects_undeclared_field_witness :
  exists message : string,
    validateDocument mem_store library_models accept_all Book
                     (VObj [("title", VStr "T"); ("isbn", VStr "0")]) no_options
                     (world_of [] library)
    = (Throw (Error message), world_of [] library, []).
Proof.
  apply (validateDocument_rejects_undeclared_field mem_store library_models accept_all
           Book [("title", VStr "T"); ("isbn", VStr "0")] no_options "isbn").
  - right. left. reflexivity.
  - discriminate.
  - discriminate.
  - reflexivity.
Defined.

Lemma validateDocument_sound_witness :
  true = true
  /\ Forall is_aggregate []
  /\ exists o : obj,
      VObj [("title", VStr "T")] = VObj o /\ o <> []
      /\ declared_and_valid accept_all (schema Book) o
      /\ (is_true (strict (only_strict true)) = true -> required_present (schema Book) o).
Proof.
  exact (validateDocument_sound mem_store library_models accept_all Book
           (VObj [("title", VStr "T")]) (only_strict true)
           (world_of [] library) (world_of [] library) [] true eq_refl).
Defined.


(** ** Updates that set nothing *)

Lemma sanitize_operator_keeps_set_falsy (this : ModelClass) (k : string) (uu : obj) :
  truthy (prop uu "$set") = false ->
  truthy (prop (sanitize_operator this uu k) "$set") = false.
Proof.
  intros Hset. unfold sanitize_operator.
  destruct (truthy (prop uu k)) eqn:Ek; [|exact Hset].
  destruct (String.eqb "$set" k) eqn:E.
  - apply String.eqb_eq in E. subst k. congruence.
  - unfold prop. rewrite obj_get_obj_set, E. exact Hset.
Qed.

Section Updates.

Context {S : Type}.
Variable store : Store S.
Variable models : option (list (string * ModelClass)).
Variable bcrypt_hash : string -> Z -> string.
Variable template : value -> string.
Variable validateFieldValue : value -> FieldSpecs -> bool.

Lemma validateDocument_falsy (this : ModelClass) (v : value) (options : Options)
      (w : World S) :
  truthy v = false ->
  validateDocument store models validateFieldValue this v options w
  = (Throw (Error "Invalid document provided"), w, []).
Proof.
  intros Hv. unfold validateDocument. destruct v; try reflexivity. discriminate Hv.
Qed.

(** [beforeUpdate] on an operator update without a [$set], when no
    timestamp is stamped and no upsert is asked for. *)
Lemma beforeUpdate_without_set
      (this : ModelClass) (query : Query) (update : obj) (options : Options)
      (w : World S) (q : Query) (u : obj) (h1 h2 : heap) (qq : loc) :
  is_true (upsert options) = false ->
  is_true (timestamps (schema this)) && negb (is_true (ignoreTimestamps options)) = false ->
  willUpdateDocument this query update (w_heap w) = (Ok (q, u), h1) ->
  sanitizeQuery (schema this) q true h1 = (Ok qq, h2) ->
  typeIsUpdate u = true ->
  truthy (prop u "$set") = false ->
  beforeUpdate store models bcrypt_hash template validateFieldValue this query update
               options w
  = (Throw (Error "Invalid document provided"),
     {| w_heap := h2; w_store := w_store w; w_now := w_now w |}, []).
Proof.
  intros Hupsert Hts Hhook Hsan Htype Hset. destruct w as [h s now].
  cbn [w_heap w_store w_now] in *.
  unfold beforeUpdate. rewrite Hupsert, Hts. cbn [andb].
  rewrite bind_run, liftH_run. cbn [w_heap w_store w_now]. rewrite Hhook.
  rewrite bind_run, liftH_run. cbn [w_heap w_store w_now]. rewrite Hsan.
  rewrite Htype.
  set (uu := fold_left (sanitize_operator this)
                       ["$set"; "$setOnInsert"; "$addToSet"; "$push"] u).
  assert (truthy (prop uu "$set") = false) as Huu.
  { subst uu. cbn [fold_left]. now repeat apply sanitize_operator_keeps_set_falsy. }
  rewrite bind_run. cbn [ret M_monad]. rewrite Huu.
  rewrite bind_run. cbn [ret M_monad].
  rewrite bind_run, validateDocument_falsy by exact Huu. reflexivity.
Qed.

(** X8. An operator update that carries no [$set] (say, only an [$inc])
    does not get through the pre-update step unless a timestamp is stamped
    or an upsert is asked for: validation is handed the missing [$set] and
    throws, so updateOne and updateMany throw "Invalid document provided"
    before any call to the store. *)
Theorem update_without_set_throws_before_any_store_call
        (this : ModelClass) (query : Query) (update : obj) (options : Options)
        (w : World S) (q : Query) (u : obj) (h1 h2 : heap) (qq : loc) :
  is_true (noUpdates (schema this)) = false ->
  is_true (skipHooks options) = false ->
  is_true (upsert options) = false ->
  is_true (timestamps (schema this)) && negb (is_true (ignoreTimestamps options)) = false ->
  willUpdateDocument this query update (w_heap w) = (Ok (q, u), h1) ->
  sanitizeQuery (schema this) q true h1 = (Ok qq, h2) ->
  typeIsUpdate u = true ->
  truthy (prop u "$set") = false ->
  let w' := {| w_heap := h2; w_store := w_store w; w_now := w_now w |} in
  updateOne store models bcrypt_hash template validateFieldValue this query update
            options w
  = (Throw (Error "Invalid document provided"), w', [])
  /\ (is_true (noUpdateMany (schema this)) = false ->
      updateMany store models bcrypt_hash template validateFieldValue this query update
                 options w
      = (Throw (Error "Invalid document provided"), w', [])).
Proof.
  intros Hno Hskip Hupsert Hts Hhook Hsan Htype Hset w'.
  pose proof (beforeUpdate_without_set this query update options w q u h1 h2 qq
                Hupsert Hts Hhook Hsan Htype Hset) as Hbefore.
  split.
  - unfold updateOne. rewrite Hno, Hskip.
    rewrite bind_run. unfold getCollection at 1. cbn [ret M_monad].
    rewrite bind_run, Hbefore. reflexivity.
  - intros Hmany. unfold updateMany. rewrite Hno, Hmany. cbn [orb].
    rewrite bind_run, Hbefore. reflexivity.
Qed.

End Updates.

Lemma update_without_set_throws_before_any_store_call_witness :
  updateOne mem_store library_models example_hash example_template accept_all Book
            (QObject 0) [("$inc", VObj [("copies", VNum 1)])] no_options
            (world_of [[("title", VStr "One")]] library)
  = (Throw (Error "Invalid document provided"),
     world_of [[("title", VStr "One")]] library, [])
  /\ (is_true (noUpdateMany (schema Book)) = false ->
      updateMany mem_store library_models example_hash example_template accept_all Book
                 (QObject 0) [("$inc", VObj [("copies", VNum 1)])] no_options
                 (world_of [[("title", VStr "One")]] library)
      = (Throw (Error "Invalid document provided"),
         world_of [[("title", VStr "One")]] library, [])).
Proof.
  exact (update_without_set_throws_before_any_store_call
           mem_store library_models example_hash example_template accept_all Book
           (QObject 0) [("$inc", VObj [("copies", VNum 1)])] no_options
           (world_of [[("title", VStr "One")]] library)
           (QObject 0) [("$inc", VObj [("copies", VNum 1)])]
           [[("title", VStr "One")]] [[("title", VStr "One")]] 0%nat
           eq_refl eq_refl eq_refl eq_refl eq_refl eq_refl eq_refl eq_refl).
Defined.

(** ** Model.pipeline and findMany *)



Section Finding.

Context {S : Type}.
Variable store : Store S.
Variable models : option (list (string * ModelClass)).


Lemma pipeline_of_operator_object (this : ModelClass) (l : loc) (h : heap) (o : obj) :
  h !! l = Some o ->
  existsb startsWith_dollar (keys o) = true ->
  (forall k, In k ["$lookup"; "$match"; "$prune"; "$group"; "$sort"] ->
             prop o k = VUndefined) ->
  pipeline_ models this (Some (AsQuery (QObject l))) no_pipeline_options h = (Ok [], h).
Proof.
  intros Hl Hop Hnone. unfold pipeline_. run. unfold read at 1. rewrite Hl, Hop.
  unfold specs_of_object, pipelineFactory.
  rewrite !Hnone by (cbn; tauto). reflexivity.
Qed.


(** X10. A filter object with an operator key is read as pipeline specs,
    not as a filter: when none of its keys is one of the five stage keys,
    nothing of it reaches the pipeline, and findMany aggregates the whole
    collection with an empty pipeline. *)
Theorem findMany_operator_filter_is_dropped
        (this : ModelClass) (l : loc) (o : obj) (w : World S) :
  w_heap w !! l = Some o ->
  existsb startsWith_dollar (keys o) = true ->
  (forall k, In k ["$lookup"; "$match"; "$prune"; "$group"; "$sort"] ->
             prop o k = VUndefined) ->
  findMany store models this (Some (QObject l)) w
  = collection_aggregate store (collection (schema this)) [] w.
Proof.
  intros Hl Hop Hnone. unfold findMany, getCollection.
  rewrite bind_run. cbn [ret M_monad]. rewrite bind_run, liftH_run.
  cbn [option_map]. rewrite (pipeline_of_operator_object this l _ o Hl Hop Hnone).
  destruct w as [h s now]. cbn [w_heap w_store w_now].
  destruct (collection_aggregate _ _ _ _) as [[r w'] t]. reflexivity.
Qed.

End Finding.


Lemma findMany_operator_filter_is_dropped_witness :
  findMany mem_store library_models Book (Some (QObject 0))
           (world_of [[("$or", VArr [VObj [("title", VStr "One")];
                                     VObj [("title", VStr "Two")]])]] library)
  = collection_aggregate mem_store (collection (schema Book)) []
      (world_of [[("$or", VArr [VObj [("title", VStr "One")];
                                VObj [("title", VStr "Two")]])]] library).
Proof.
  apply (findMany_operator_filter_is_dropped mem_store library_models Book 0
           [("$or", VArr [VObj [("title", VStr "One")]; VObj [("title", VStr "Two")]])]).
  - reflexivity.
  - reflexivity.
  - intros k Hk. cbn in Hk.
    destruct Hk as [<- | [<- | [<- | [<- | [<- | []]]]]]; reflexivity.
Defined.

(** ** Deletions that return no document *)

Section Calls.

Context {S : Type}.

(** [quiet m Q]: [m] calls nothing; what it returns satisfies [Q]. *)
Definition quiet {A} (m : M S A) (Q : A -> Prop) : Prop :=
  forall w : World S,
    snd (m w) = [] /\ forall a, fst (fst (m w)) = Ok a -> Q a.

(** [once P m Q]: [m] makes at most one call, and that call satisfies [P];
    when [m] returns, the call has been made and the result satisfies [Q]. *)
Definition once {A} (P : StoreCall -> Prop) (m : M S A) (Q : A -> Prop) : Prop :=
  forall w : World S,
    (exists c, P c /\ snd (m w) = [c] /\ forall a, fst (fst (m w)) = Ok a -> Q a)
    \/ (snd (m w) = [] /\ exists e, fst (fst (m w)) = Throw e).

Lemma quiet_ret {A} (a : A) (Q : A -> Prop) : Q a -> quiet (ret a) Q.
Proof. intros Ha w. split; [reflexivity|]. cbn. now intros a' [= <-]. Qed.

Lemma quiet_throw {A} (e : error) (Q : A -> Prop) : quiet (throw e) Q.
Proof. intros w. split; [reflexivity|]. cbn. discriminate. Qed.

Lemma quiet_liftH {A} (m : H A) : quiet (liftH m) (fun _ => True).
Proof.
  intros w. unfold liftH. destruct (m (w_heap w)) as [r h']. now split.
Qed.

Lemma quiet_assert (c : bool) (e : error) : quiet (assert c e) (fun _ => c = true).
Proof.
  unfold assert. destruct c; [now apply quiet_ret|apply quiet_throw].
Qed.

Lemma quiet_bind {A B} (m : M S A) (f : A -> M S B) (P : A -> Prop) (Q : B -> Prop) :
  quiet m P -> (forall a, P a -> quiet (f a) Q) -> quiet (bind m f) Q.
Proof.
  intros Hm Hf w. rewrite bind_run. destruct (Hm w) as [Hc Hr].
  destruct (m w) as [[[a|e] w1] t1]; cbn in *; subst t1.
  - destruct (Hf a (Hr a eq_refl) w1) as [Hc2 Hr2].
    destruct (f a w1) as [[r w2] t2]. cbn in *. now split.
  - split; [reflexivity|discriminate].
Qed.

Lemma once_throw {A} (P : StoreCall -> Prop) (e : error) (Q : A -> Prop) :
  once P (throw e) Q.
Proof. intros w. right. split; [reflexivity|now exists e]. Qed.

Lemma once_call {A} (P : StoreCall -> Prop) (c : StoreCall)
      (prim : S -> result A * S) :
  P c -> once P (call c prim) (fun _ => True).
Proof.
  intros Hc w. left. exists c. unfold call.
  destruct (prim (w_store w)) as [r s']. now repeat split.
Qed.

Lemma once_after_quiet {A B} (P : StoreCall -> Prop) (m : M S A) (f : A -> M S B)
      (R : A -> Prop) (Q : B -> Prop) :
  quiet m R -> (forall a, R a -> once P (f a) Q) -> once P (bind m f) Q.
Proof.
  intros Hm Hf w. rewrite bind_run. destruct (Hm w) as [Hc Hr].
  destruct (m w) as [[[a|e] w1] t1]; cbn in *; subst t1.
  - destruct (Hf a (Hr a eq_refl) w1) as [(c & Hp & Hs & Hq) | (Hs & e & He)];
      destruct (f a w1) as [[r w2] t2]; cbn in *.
    + left. now exists c.
    + right. split; [exact Hs|now exists e].
  - right. split; [reflexivity|now exists e].
Qed.

Lemma once_then_quiet {A B} (P : StoreCall -> Prop) (m : M S A) (f : A -> M S B)
      (R : A -> Prop) (Q : B -> Prop) :
  once P m R -> (forall a, R a -> quiet (f a) Q) -> once P (bind m f) Q.
Proof.
  intros Hm Hf w. rewrite bind_run.
  destruct (Hm w) as [(c & Hp & Hs & Hr) | (Hs & e & He)];
    destruct (m w) as [[[a|e'] w1] t1]; cbn in *; subst t1.
  - destruct (Hf a (Hr a eq_refl) w1) as [Hc2 Hr2].
    destruct (f a w1) as [[r w2] t2]. cbn in *. subst t2.
    left. exists c. now repeat split.
  - left. exists c. repeat split; [exact Hp|discriminate].
  - discriminate He.
  - right. split; [reflexivity|now exists e'].
Qed.

End Calls.

Section PlainDeletion.

Context {S : Type}.
Variable store : Store S.
Variable models : option (list (string * ModelClass)).

Lemma beforeDelete_quiet (this : ModelClass) (query : Query) (options : Options) :
  quiet (S := S) (beforeDelete this query options) (fun _ => True).
Proof.
  unfold beforeDelete.
  apply quiet_bind with (P := fun _ => True); [apply quiet_liftH|].
  intros q _. apply quiet_liftH.
Qed.

Lemma filter_of_query_quiet (q : Query) :
  quiet (S := S) (filter_of_query q) (fun _ => True).
Proof.
  destruct q as [oid|s|l]; cbn [filter_of_query]; try now apply quiet_ret.
  apply quiet_bind with (P := fun _ => True); [apply quiet_liftH|].
  intros o _. now apply quiet_ret.
Qed.

(** Without a document, [afterDelete] only runs the hook. *)
Lemma afterDelete_nothing_quiet
      (D : ModelClass -> Query -> Options -> M S value) (this : ModelClass) :
  quiet (afterDelete_with models D this VUndefined) (fun _ => True).
Proof.
  unfold afterDelete_with. cbn [is_nullOrUndefined negb andb].
  apply quiet_bind with (P := fun _ => True); [now apply quiet_ret|].
  intros _ _. apply quiet_liftH.
Qed.

Lemma report_quiet (D : ModelClass -> Query -> Options -> M S value)
      (this : ModelClass) (results : WriteOpResult) :
  quiet (exec assert (Z.eqb (result_ok results) 1) falsy_assertion;
         if negb (match result_n results with Some _ => true | None => false end)
            || count_le_0 (result_n results)
         then ret (VBool false)
         else exec afterDelete_with models D this VUndefined; ret (VBool true))
        (fun v => exists b, v = VBool b).
Proof.
  apply quiet_bind with (P := fun _ => True).
  { unfold assert. destruct (Z.eqb _ _); [now apply quiet_ret|apply quiet_throw]. }
  intros _ _. destruct (_ || _); [apply quiet_ret; now exists false|].
  apply quiet_bind with (P := fun _ => True); [apply afterDelete_nothing_quiet|].
  intros _ _. apply quiet_ret. now exists true.
Qed.

Lemma deleteOne_plain_once (this : ModelClass) (query : Query) (options : Options) :
  is_true (returnDoc options) = false ->
  once (fun c => exists filter, c = CallDeleteOne (collection (schema this)) filter)
       (deleteOne store models this query options)
       (fun v => exists b, v = VBool b).
Proof.
  intros Hplain. unfold deleteOne. rewrite Hplain.
  destruct (is_true (noDeletes (schema this))); [apply once_throw|].
  apply once_after_quiet with (R := fun _ => True); [apply beforeDelete_quiet|].
  intros q _. unfold getCollection.
  apply once_after_quiet with (R := fun coll => coll = collection (schema this));
    [now apply quiet_ret|].
  intros coll ->.
  apply once_after_quiet with (R := fun _ => True); [apply filter_of_query_quiet|].
  intros filter _.
  apply once_then_quiet with (R := fun _ => True).
  - apply once_call. now exists filter.
  - intros results _. apply report_quiet.
Qed.

Lemma deleteMany_body_plain_once
      (D : ModelClass -> Query -> Options -> M S value)
      (this : ModelClass) (query : Query) (options : Options) :
  is_true (returnDocs options) = false ->
  once (fun c => exists filter, c = CallDeleteMany (collection (schema this)) filter)
       (deleteMany_body store models D this query options)
       (fun v => exists b, v = VBool b).
Proof.
  intros Hplain. unfold deleteMany_body. rewrite Hplain.
  destruct (_ || _); [apply once_throw|].
  apply once_after_quiet with (R := fun _ => True); [apply beforeDelete_quiet|].
  intros q _. unfold getCollection.
  apply once_after_quiet with (R := fun coll => coll = collection (schema this));
    [now apply quiet_ret|].
  intros coll ->.
  apply once_after_quiet with (R := fun _ => True); [apply filter_of_query_quiet|].
  intros filter _.
  apply once_then_quiet with (R := fun _ => True).
  - apply once_call. now exists filter.
  - intros results _. apply report_quiet.
Qed.

(** X11. A deleteOne that does not ask for the deleted document never
    cascades: it makes at most one call to the store, the delete-one of its
    own collection, whatever the schema's cascade list says.  When it
    returns, that call has been made and the result is a boolean. *)
Theorem deleteOne_without_returnDoc_never_cascades
        (this : ModelClass) (query : Query) (options : Options)
        (w w' : World S) (r : result value) (calls : list StoreCall) :
  is_true (returnDoc options) = false ->
  deleteOne store models this query options w = (r, w', calls) ->
  (calls = [] \/ exists filter, calls = [CallDeleteOne (collection (schema this)) filter])
  /\ forall v, r = Ok v ->
               (exists filter, calls = [CallDeleteOne (collection (schema this)) filter])
               /\ exists b, v = VBool b.
Proof.
  intros Hplain Hrun.
  destruct (deleteOne_plain_once this query options Hplain w)
    as [(c & (filter & ->) & Hs & Hq) | (Hs & e & He)];
    rewrite Hrun in *; cbn in *; subst calls.
  - split; [right; now exists filter|]. intros v ->. split; [now exists filter|].
    now apply Hq.
  - split; [now left|]. intros v ->. discriminate He.
Qed.

(** X12. Likewise for deleteMany without [returnDocs]: at most one call,
    the delete-many of its own collection, and no cascade; when it returns,
    that call has been made and the result is a boolean. *)
Theorem deleteMany_without_returnDocs_never_cascades
        (this : ModelClass) (query : Query) (options : Options)
        (w w' : World S) (r : result value) (calls : list StoreCall) :
  is_true (returnDocs options) = false ->
  deleteMany store models this query options w = (r, w', calls) ->
  (calls = [] \/ exists filter, calls = [CallDeleteMany (collection (schema this)) filter])
  /\ forall v, r = Ok v ->
               (exists filter, calls = [CallDeleteMany (collection (schema this)) filter])
               /\ exists b, v = VBool b.
Proof.
  intros Hplain Hrun.
  change (deleteMany store models)
    with (deleteMany_body store models (deleteMany_depth store models 1)) in Hrun.
  destruct (deleteMany_body_plain_once (deleteMany_depth store models 1)
              this query options Hplain w)
    as [(c & (filter & ->) & Hs & Hq) | (Hs & e & He)];
    rewrite Hrun in *; cbn in *; subst calls.
  - split; [right; now exists filter|]. intros v ->. split; [now exists filter|].
    now apply Hq.
  - split; [now left|]. intros v ->. discriminate He.
Qed.

End PlainDeletion.

Lemma deleteOne_without_returnDoc_never_cascades_witness :
  ([CallDeleteOne "authors" (VObj [("name", VStr "X")])] = []
   \/ exists filter,
       [CallDeleteOne "authors" (VObj [("name", VStr "X")])]
       = [CallDeleteOne (collection (schema Author)) filter])
  /\ forall v, Ok (VBool true) = Ok v ->
               (exists filter,
                   [CallDeleteOne "authors" (VObj [("name", VStr "X")])]
                   = [CallDeleteOne (collection (schema Author)) filter])
               /\ exists b, v = VBool b.
Proof.
  exact (deleteOne_without_returnDoc_never_cascades mem_store library_models Author
           (QObject 0) no_options (world_of [[("name", VStr "X")]] library)
           (world_of [[("name", VStr "X")]]
                     [("authors", [author_y]); ("books", [book_1; book_2; book_3])])
           (Ok (VBool true)) [CallDeleteOne "authors" (VObj [("name", VStr "X")])]
           eq_refl eq_refl).
Defined.

Lemma deleteMany_without_returnDocs_never_cascades_witness :
  ([CallDeleteMany "authors" (VObj [("name", VStr "X")])] = []
   \/ exists filter,
       [CallDeleteMany "authors" (VObj [("name", VStr "X")])]
       = [CallDeleteMany (collection (schema Author)) filter])
  /\ forall v, Ok (VBool true) = Ok v ->
               (exists filter,
                   [CallDeleteMany "authors" (VObj [("name", VStr "X")])]
                   = [CallDeleteMany (collection (schema Author)) filter])
               /\ exists b, v = VBool b.
Proof.
  exact (deleteMany_without_returnDocs_never_cascades mem_store library_models Author
           (QObject 0) no_options (world_of [[("name", VStr "X")]] library)
           (world_of [[("name", VStr "X")]]
                     [("authors", [author_y]); ("books", [book_1; book_2; book_3])])
           (Ok (VBool true)) [CallDeleteMany "authors" (VObj [("name", VStr "X")])]
           eq_refl eq_refl).
Defined.

(** ** What the permission flags govern *)


Section Flags.

Context {S : Type}.
Variable store : Store S.
Variable models : option (list (string * ModelClass)).
Variable bcrypt_hash : string -> Z -> string.
Variable template : value -> string.
Variable validateFieldValue : value -> FieldSpecs -> bool.

Variable donor : Schema.
Variable this : ModelClass.











(** X15. With its batch flag set, insertMany, updateMany and deleteMany
    each throw before any call to the store, whatever the other flags
    are. *)
Theorem batch_flags_block_batch_operations
        (query : Query) (update : obj) (docs : list obj) (options : Options)
        (w : World S) :
  (is_true (noInsertMany (schema this)) = true ->
   insertMany store models bcrypt_hash template validateFieldValue this docs options w
   = (Throw (Error "Multiple insertions are disallowed for this model"), w, []))
  /\ (is_true (noUpdateMany (schema this)) = true ->
      updateMany store models bcrypt_hash template validateFieldValue this query update
                 options w
      = (Throw (Error "Multiple updates are disallowed for this model"), w, []))
  /\ (is_true (noDeleteMany (schema this)) = true ->
      deleteMany store models this query options w
      = (Throw (Error "Multiple deletions are disallowed for this model"), w, [])).
Proof.
  repeat split.
  - intros Hflag. unfold insertMany. rewrite Hflag, orb_true_r. reflexivity.
  - intros Hflag. unfold updateMany. rewrite Hflag, orb_true_r. reflexivity.
  - intros Hflag. unfold deleteMany. cbn [deleteMany_depth]. unfold deleteMany_body.
    rewrite Hflag, orb_true_r. reflexivity.
Qed.

End Flags.

(** A schema that forbids every batch operation and no single one. *)
Definition single_schema : Schema :=
  {| model := "Single"; collection := "singles"; timestamps := None;
     allowUpsert := None; noInserts := None; noInsertMany := Some true;
     noUpdates := None; noUpdateMany := Some true; noDeletes := None;
     noDeleteMany := Some true; cascade := None;
     fields := [("line", string_field None)]; indexes := None |}.


Lemma batch_flags_block_batch_operations_witness :
  insertMany mem_store library_models example_hash example_template accept_all
             (Model single_schema) [[("line", VStr "a")]] no_options (world_of [] library)
  = (Throw (Error "Multiple insertions are disallowed for this model"),
     world_of [] library, [])
  /\ updateMany mem_store library_models example_hash example_template accept_all
                (Model single_schema) (QObject 0) [("line", VStr "b")] no_options
                (world_of [] library)
     = (Throw (Error "Multiple updates are disallowed for this model"),
        world_of [] library, [])
  /\ deleteMany mem_store library_models (Model single_schema) (QObject 0) no_options
                (world_of [] library)
     = (Throw (Error "Multiple deletions are disallowed for this model"),
        world_of [] library, []).
Proof.
  pose proof (batch_flags_block_batch_operations
                mem_store library_models example_hash example_template accept_all
                (Model single_schema) (QObject 0) [("line", VStr "b")]
                [[("line", VStr "a")]] no_options (world_of [] library))
    as (Hi & Hu & Hd).
  split; [exact (Hi eq_refl)|]. split; [exact (Hu eq_refl)|exact (Hd eq_refl)].
Defined.

(** ** How far a deletion reaches *)

(** The collection a call to the store is made on. *)
Definition call_collection (c : StoreCall) : string :=
  match c with
  | CallAggregate coll _ | CallInsertOne coll _ | CallInsertMany coll _
  | CallUpdateOne coll _ _ _ | CallUpdateMany coll _ _ _
  | CallFindOneAndUpdate coll _ _ _ | CallDeleteOne coll _ | CallDeleteMany coll _
  | CallFindOneAndDelete coll _ | CallFindOneAndReplace coll _ _ _ => coll
  end.

Definition is_deleteMany (c : StoreCall) : Prop :=
  match c with CallDeleteMany _ _ => True | _ => False end.

(** A call on the model's own collection, or a delete-many on the
    collection of a model its schema names in [cascade]. *)
Definition within_cascade (models : option (list (string * ModelClass)))
           (this : ModelClass) (c : StoreCall) : Prop :=
  call_collection c = collection (schema this)
  \/ (is_deleteMany c
      /\ exists (names : list string) (name : string) (B : ModelClass),
          cascade (schema this) = Some names
          /\ In name names
          /\ getModel models name = Ok B
          /\ call_collection c = collection (schema B)).

Section Emission.

Context {S : Type}.

(** [emits P m Q]: every call [m] makes satisfies [P]; what it returns
    satisfies [Q]. *)
Definition emits {A} (P : StoreCall -> Prop) (m : M S A) (Q : A -> Prop) : Prop :=
  forall w : World S,
    Forall P (snd (m w)) /\ forall a, fst (fst (m w)) = Ok a -> Q a.

Lemma emits_ret {A} (P : StoreCall -> Prop) (a : A) (Q : A -> Prop) :
  Q a -> emits P (ret a) Q.
Proof. intros Ha w. split; [constructor|]. cbn. now intros a' [= <-]. Qed.

Lemma emits_throw {A} (P : StoreCall -> Prop) (e : error) (Q : A -> Prop) :
  emits P (throw e) Q.
Proof. intros w. split; [constructor|]. cbn. discriminate. Qed.

Lemma emits_bind {A B} (P : StoreCall -> Prop) (m : M S A) (f : A -> M S B)
      (R : A -> Prop) (Q : B -> Prop) :
  emits P m R -> (forall a, R a -> emits P (f a) Q) -> emits P (bind m f) Q.
Proof.
  intros Hm Hf w. rewrite bind_run. destruct (Hm w) as [Hc Hr].
  destruct (m w) as [[[a|e] w1] t1]; cbn in *.
  - destruct (Hf a (Hr a eq_refl) w1) as [Hc2 Hr2].
    destruct (f a w1) as [[r w2] t2]. cbn in *. split; [|exact Hr2].
    apply Forall_app. now split.
  - split; [exact Hc|discriminate].
Qed.

Lemma emits_weaken {A} (P : StoreCall -> Prop) (m : M S A) (R Q : A -> Prop) :
  emits P m R -> (forall a, R a -> Q a) -> emits P m Q.
Proof.
  intros Hm HRQ w. destruct (Hm w) as [Hc Hr]. split; [exact Hc|].
  intros a Ha. apply HRQ. now apply Hr.
Qed.

Lemma emits_quiet {A} (P : StoreCall -> Prop) (m : M S A) (Q : A -> Prop) :
  quiet m Q -> emits P m Q.
Proof.
  intros Hm w. destruct (Hm w) as [Hc Hr]. rewrite Hc. split; [constructor|exact Hr].
Qed.

Lemma emits_once {A} (P P' : StoreCall -> Prop) (m : M S A) (Q : A -> Prop) :
  once P m Q -> (forall c, P c -> P' c) -> emits P' m Q.
Proof.
  intros Hm HP w. destruct (Hm w) as [(c & Hp & Hs & Hq) | (Hs & e & He)]; rewrite Hs.
  - split; [|exact Hq]. constructor; [now apply HP|constructor].
  - split; [constructor|]. intros a Ha. congruence.
Qed.

Lemma emits_call {A} (P : StoreCall -> Prop) (c : StoreCall)
      (prim : S -> result A * S) :
  P c -> emits P (call c prim) (fun _ => True).
Proof.
  intros Hc w. unfold call. destruct (prim (w_store w)) as [r s']. cbn.
  split; [|trivial]. now repeat constructor.
Qed.

Lemma emits_for_each {A} (P : StoreCall -> Prop) (body : A -> M S unit) (xs : list A) :
  (forall x, In x xs -> emits P (body x) (fun _ => True)) ->
  emits P (for_each xs body) (fun _ => True).
Proof.
  induction xs as [|x r IH]; intros Hb; cbn [for_each].
  - now apply emits_ret.
  - apply emits_bind with (R := fun _ => True); [apply Hb; now left|].
    intros _ _. apply IH. intros y Hy. apply Hb. now right.
Qed.

Lemma emits_map_st {A B} (P : StoreCall -> Prop) (body : A -> M S B) (xs : list A) :
  (forall x, emits P (body x) (fun _ => True)) ->
  emits P (map_st xs body) (fun _ => True).
Proof.
  intros Hb. induction xs as [|x r IH]; cbn [map_st].
  - now apply emits_ret.
  - apply emits_bind with (R := fun _ => True); [apply Hb|]. intros y _.
    apply emits_bind with (R := fun _ => True); [exact IH|]. intros ys _.
    now apply emits_ret.
Qed.

End Emission.

Section Reach.

Context {S : Type}.
Variable store : Store S.
Variable models : option (list (string * ModelClass)).

(** The cascade of one deleted document: a delete-many per referencing
    field of each model in the cascade list, and nothing beyond. *)
Lemma cascadeDelete_reach (this : ModelClass) (docId : value) :
  emits (within_cascade models this)
        (cascadeDelete_with models (deleteMany_depth store models 1) this docId)
        (fun _ => True).
Proof.
  unfold cascadeDelete_with.
  destruct (cascade (schema this)) as [names|] eqn:Ecascade; [|now apply emits_ret].
  apply emits_for_each. intros name Hname.
  destruct (getModel models name) as [B|e] eqn:EB; [|apply emits_throw].
  apply emits_bind with (R := fun m => m = B); [now apply emits_ret|].
  intros m ->. apply emits_for_each. intros key _.
  destruct (field_get (fields (schema B)) key) as [f|]; [|now apply emits_ret].
  destruct (ref f) as [r|]; [|now apply emits_ret].
  destruct (String.eqb r (model (schema this))); [|now apply emits_ret].
  apply emits_bind with (R := fun _ => True); [apply emits_quiet, quiet_liftH|].
  intros l _.
  apply emits_bind with (R := fun _ => True); [|intros; now apply emits_ret].
  cbn [deleteMany_depth].
  eapply emits_weaken; [|trivial].
  eapply emits_once; [now apply deleteMany_body_plain_once|].
  intros c [filter ->]. right. split; [exact I|]. now exists names, name, B.
Qed.

Lemma afterDelete_reach (this : ModelClass) (docs : value) :
  emits (within_cascade models this) (afterDelete store models this docs) (fun _ => True).
Proof.
  unfold afterDelete, afterDelete_with.
  apply emits_bind with (R := fun _ => True); [|intros; apply emits_quiet, quiet_liftH].
  destruct docs as [| |b|n|s|o|t|ds|o];
    try (now apply emits_ret);
    try (destruct (negb _ && _); [apply cascadeDelete_reach|now apply emits_ret]).
  apply emits_for_each. intros doc _.
  destruct (negb (is_ObjectID (member doc "_id")));
    [now apply emits_ret|apply cascadeDelete_reach].
Qed.

Lemma own_call (this : ModelClass) (c : StoreCall) :
  call_collection c = collection (schema this) -> within_cascade models this c.
Proof. intros Hc. now left. Qed.

Lemma deleteOne_reach (this : ModelClass) (query : Query) (options : Options) :
  emits (within_cascade models this) (deleteOne store models this query options)
        (fun _ => True).
Proof.
  unfold deleteOne.
  destruct (is_true (noDeletes (schema this))); [apply emits_throw|].
  apply emits_bind with (R := fun _ => True);
    [apply emits_quiet, beforeDelete_quiet|]. intros q _.
  unfold getCollection.
  apply emits_bind with (R := fun coll => coll = collection (schema this));
    [now apply emits_ret|]. intros coll ->.
  apply emits_bind with (R := fun _ => True);
    [apply emits_quiet, filter_of_query_quiet|]. intros filter _.
  destruct (is_true (returnDoc options)).
  - apply emits_bind with (R := fun _ => True);
      [apply emits_call; now apply own_call|]. intros results _.
    apply emits_bind with (R := fun _ => True);
      [eapply emits_weaken; [apply emits_quiet, quiet_assert|trivial]|].
    intros _ _. destruct (negb (truthy (res_value results))); [now apply emits_ret|].
    apply emits_bind with (R := fun _ => True); [apply afterDelete_reach|].
    intros; now apply emits_ret.
  - apply emits_bind with (R := fun _ => True);
      [apply emits_call; now apply own_call|]. intros results _.
    eapply emits_weaken; [apply emits_quiet, report_quiet|trivial].
Qed.

Lemma deleteMany_reach (this : ModelClass) (query : Query) (options : Options) :
  emits (within_cascade models this) (deleteMany store models this query options)
        (fun _ => True).
Proof.
  unfold deleteMany. cbn [deleteMany_depth]. unfold deleteMany_body.
  destruct (_ || _); [apply emits_throw|].
  apply emits_bind with (R := fun _ => True);
    [apply emits_quiet, beforeDelete_quiet|]. intros q _.
  unfold getCollection at 1.
  apply emits_bind with (R := fun coll => coll = collection (schema this));
    [now apply emits_ret|]. intros coll ->.
  destruct (is_true (returnDocs options)).
  - apply emits_bind with (R := fun _ => True).
    { unfold findMany, getCollection.
      apply emits_bind with (R := fun coll => coll = collection (schema this));
        [now apply emits_ret|]. intros coll ->.
      apply emits_bind with (R := fun _ => True); [apply emits_quiet, quiet_liftH|].
      intros p _. apply emits_call. now apply own_call. }
    intros docs _.
    apply emits_bind with (R := fun _ => True).
    { apply emits_map_st. intros doc.
      apply emits_bind with (R := fun _ => True);
        [apply emits_call; now apply own_call|]. intros result _.
      apply emits_bind with (R := fun _ => True);
        [eapply emits_weaken; [apply emits_quiet, quiet_assert|trivial]|].
      intros; now apply emits_ret. }
    intros values _.
    apply emits_bind with (R := fun _ => True);
      [apply (afterDelete_reach this)|intros; now apply emits_ret].
  - apply emits_bind with (R := fun _ => True);
      [apply emits_quiet, filter_of_query_quiet|]. intros filter _.
    apply emits_bind with (R := fun _ => True);
      [apply emits_call; now apply own_call|]. intros results _.
    eapply emits_weaken; [apply emits_quiet, report_quiet|trivial].
Qed.

(** X16. A deletion reaches its own collection and one level of cascade,
    nothing else: whatever the query, the options and the state, every call
    deleteOne or deleteMany makes is on the model's own collection or is a
    delete-many on the collection of a model that the schema's cascade list
    names.  The cascade lists of those models are not followed. *)
Theorem deletion_reaches_one_level_of_cascade
        (this : ModelClass) (query : Query) (options : Options) (w : World S) :
  Forall (within_cascade models this) (snd (deleteOne store models this query options w))
  /\ Forall (within_cascade models this)
            (snd (deleteMany store models this query options w)).
Proof.
  split; [apply deleteOne_reach|apply deleteMany_reach].
Qed.

End Reach.

(** ** What reaches the store on an insertion *)

(** A document that has passed validation; [strictly], with the check of
    required fields. *)
Definition validated (validateFieldValue : value -> FieldSpecs -> bool)
           (sch : Schema) (strictly : bool) (doc : obj) : Prop :=
  doc <> []
  /\ declared_and_valid validateFieldValue sch doc
  /\ (strictly = true -> required_present sch doc).


Section Storing.

Context {S : Type}.
Variable store : Store S.
Variable models : option (list (string * ModelClass)).
Variable bcrypt_hash : string -> Z -> string.
Variable template : value -> string.
Variable validateFieldValue : value -> FieldSpecs -> bool.

Lemma emits_calls_weaken {A} (P P' : StoreCall -> Prop) (m : M S A) (Q : A -> Prop) :
  (forall c, P c -> P' c) -> emits P m Q -> emits P' m Q.
Proof.
  intros HP Hm w. destruct (Hm w) as [Hc Hr]. split; [|exact Hr].
  rewrite Forall_forall in *. intros c Hin. apply HP, Hc, Hin.
Qed.

Lemma emits_map_st_all {A B} (P : StoreCall -> Prop) (Q : B -> Prop)
      (body : A -> M S B) (xs : list A) :
  (forall x, emits P (body x) Q) ->
  emits P (map_st xs body) (Forall Q).
Proof.
  intros Hb. induction xs as [|x r IH]; cbn [map_st].
  - apply emits_ret. constructor.
  - apply emits_bind with (R := Q); [apply Hb|]. intros y Hy.
    apply emits_bind with (R := Forall Q); [exact IH|]. intros ys Hys.
    apply emits_ret. now constructor.
Qed.

Lemma stamp_quiet (o : obj) (key : string) :
  quiet (S := S) (stamp o key) (fun _ => True).
Proof.
  unfold stamp. destruct (is_date (prop o key)); [now apply quiet_ret|].
  intros w. now split.
Qed.

Lemma validateDocument_emits (this : ModelClass) (o : obj) (options : Options) :
  emits is_aggregate
        (validateDocument store models validateFieldValue this (VObj o) options)
        (fun _ => validated validateFieldValue (schema this) (is_true (strict options)) o).
Proof.
  intros w. destruct (validateDocument_reads store models validateFieldValue
                        this (VObj o) options w) as [Hc _].
  split; [exact Hc|]. intros b Hb.
  destruct (validateDocument store models validateFieldValue this (VObj o) options w)
    as [[r w'] calls] eqn:Hrun. cbn in Hb. subst r.
  destruct (validateDocument_ok_inv _ _ _ _ _ _ _ _ _ _ Hrun)
    as (_ & o' & [= <-] & Hne & Hvalid & Hreq).
  now repeat split.
Qed.

(** What [beforeInsert] returns has passed validation, and it only reads
    the store on the way. *)
Lemma beforeInsert_emits (this : ModelClass) (doc : obj) (options : Options) :
  emits is_aggregate
        (beforeInsert store models bcrypt_hash template validateFieldValue this doc options)
        (validated validateFieldValue (schema this)
                   (is_true (strict (spread_options validate_defaults options)))).
Proof.
  unfold beforeInsert.
  apply emits_bind with (R := fun _ => True); [apply emits_quiet, quiet_liftH|].
  intros d _.
  apply emits_bind with (R := fun _ => True).
  { destruct (_ && _); [|now apply emits_ret].
    apply emits_quiet. apply quiet_bind with (P := fun _ => True); [apply stamp_quiet|].
    intros; apply stamp_quiet. }
  intros o _.
  apply emits_bind
    with (R := fun _ => validated validateFieldValue (schema this)
                          (is_true (strict (spread_options validate_defaults options)))
                          (formatDocument bcrypt_hash template this (fill_defaults this o)));
    [apply validateDocument_emits|].
  intros _ Hvalid. now apply emits_ret.
Qed.



End Storing.

(** ** What reaches the store on an update *)

(** An update whose [$set] has passed validation. *)
Definition validated_set (validateFieldValue : value -> FieldSpecs -> bool)
           (sch : Schema) (strictly : bool) (u : obj) : Prop :=
  exists set : obj,
    prop u "$set" = VObj set /\ validated validateFieldValue sch strictly set.

(** The calls an update may make: reads, and updates of the model's
    collection by an update that satisfies [V]. *)
Definition stores_update (V : obj -> Prop) (this : ModelClass) (c : StoreCall) : Prop :=
  match c with
  | CallAggregate _ _ => True
  | CallUpdateOne coll _ u _ | CallUpdateMany coll _ u _
  | CallFindOneAndUpdate coll _ u _ => coll = collection (schema this) /\ V u
  | _ => False
  end.

(** The same, for an update whose [$set] has passed validation. *)
Definition stores_validated_set (validateFieldValue : value -> FieldSpecs -> bool)
           (this : ModelClass) (strictly : bool) : StoreCall -> Prop :=
  stores_update (validated_set validateFieldValue (schema this) strictly) this.

Section StoringUpdates.

Context {S : Type}.
Variable store : Store S.
Variable models : option (list (string * ModelClass)).
Variable bcrypt_hash : string -> Z -> string.
Variable template : value -> string.
Variable validateFieldValue : value -> FieldSpecs -> bool.

Lemma validateDocument_emits_object (this : ModelClass) (doc : value) (options : Options) :
  emits is_aggregate
        (validateDocument store models validateFieldValue this doc options)
        (fun _ => exists o, doc = VObj o
                            /\ validated validateFieldValue (schema this)
                                         (is_true (strict options)) o).
Proof.
  intros w. destruct (validateDocument_reads store models validateFieldValue
                        this doc options w) as [Hc _].
  split; [exact Hc|]. intros b Hb.
  destruct (validateDocument store models validateFieldValue this doc options w)
    as [[r w'] calls] eqn:Hrun. cbn in Hb. subst r.
  destruct (validateDocument_ok_inv _ _ _ _ _ _ _ _ _ _ Hrun)
    as (_ & o & -> & Hne & Hvalid & Hreq).
  exists o. now repeat split.
Qed.

(** The update [beforeUpdate] returns carries a validated [$set]; only
    reads are made on the way. *)
Lemma beforeUpdate_emits (this : ModelClass) (query : Query) (update : obj)
      (options : Options) :
  emits is_aggregate
        (beforeUpdate store models bcrypt_hash template validateFieldValue this query
                      update options)
        (fun qu => validated_set validateFieldValue (schema this)
                                 (is_true (strict options)) (snd qu)).
Proof.
  unfold beforeUpdate. destruct (_ && _); [apply emits_throw|].
  apply emits_bind with (R := fun _ => True); [apply emits_quiet, quiet_liftH|].
  intros [q u] _.
  apply emits_bind with (R := fun _ => True); [apply emits_quiet, quiet_liftH|].
  intros qq _.
  apply emits_bind with (R := fun _ => True).
  { destruct (_ && _); [|now apply emits_ret].
    apply emits_bind with (R := fun _ => True); [apply emits_quiet, stamp_quiet|].
    intros; now apply emits_ret. }
  intros uu _.
  apply emits_bind with (R := fun _ => True).
  { destruct (is_true (upsert options)); [|now apply emits_ret].
    apply emits_bind with (R := fun _ => True); [apply emits_quiet, quiet_liftH|].
    intros copy _.
    apply emits_bind with (R := fun _ => True).
    { eapply emits_weaken; [apply beforeInsert_emits|trivial]. }
    intros inserted _. destruct (negb _); now apply emits_ret. }
  intros uu' _.
  eapply emits_bind; [apply validateDocument_emits_object|].
  intros _ (set & Hset & Hvalid). apply emits_ret. cbn [snd].
  exists set. split; [exact Hset|].
  replace (is_true (strict options))
    with (is_true (strict (spread_options only_ignoreUniqueIndex options)));
    [exact Hvalid|]. cbn. now destruct (strict options).
Qed.

Lemma findOne_value_reads (this : ModelClass) (v : value) :
  emits is_aggregate (findOne_value store models this v) (fun _ => True).
Proof.
  unfold findOne_value. destruct (is_nullOrUndefined v); [apply findOne_reads|].
  apply emits_bind with (R := fun _ => True); [apply emits_quiet, quiet_liftH|].
  intros q _. apply findOne_reads.
Qed.

Lemma aggregate_stores_update (V : obj -> Prop) (this : ModelClass) (c : StoreCall) :
  is_aggregate c -> stores_update V this c.
Proof. now destruct c. Qed.

Lemma afterUpdate_quiet (this : ModelClass) (skip : bool) (oldDoc newDocs : value) :
  quiet (S := S) (if skip then afterUpdate this oldDoc newDocs else ret tt)
        (fun _ => True).
Proof. destruct skip; [apply quiet_liftH|now apply quiet_ret]. Qed.

(** [updateOne] hands the store the update it got from [beforeUpdate], or,
    with [skipHooks], the caller's. *)
Lemma updateOne_emits (V : obj -> Prop) (this : ModelClass) (query : Query)
      (update : obj) (options : Options) :
  (is_true (skipHooks options) = true -> V update) ->
  (is_true (skipHooks options) = false ->
   emits is_aggregate
         (beforeUpdate store models bcrypt_hash template validateFieldValue this query
                       update options)
         (fun qu => V (snd qu))) ->
  emits (stores_update V this)
        (updateOne store models bcrypt_hash template validateFieldValue this query update
                   options)
        (fun _ => True).
Proof.
  intros Hskip Hbefore. unfold updateOne.
  destruct (is_true (noUpdates (schema this))); [apply emits_throw|].
  unfold getCollection.
  apply emits_bind with (R := fun coll => coll = collection (schema this));
    [now apply emits_ret|]. intros coll ->.
  apply emits_bind with (R := fun qu => V (snd qu)).
  { destruct (is_true (skipHooks options)).
    - apply emits_ret. now apply Hskip.
    - eapply emits_calls_weaken; [apply aggregate_stores_update|].
      now apply Hbefore. }
  intros [q u] Hu. cbn [snd] in Hu.
  destruct (is_true (returnDoc options)).
  - destruct (negb (is_object_query q)); [apply emits_throw|].
    apply emits_bind with (R := fun _ => True);
      [apply emits_quiet, filter_of_query_quiet|]. intros filter _.
    apply emits_bind with (R := fun _ => True);
      [apply emits_call; now split|]. intros res _.
    apply emits_bind with (R := fun _ => True);
      [eapply emits_weaken; [apply emits_quiet, quiet_assert|trivial]|]. intros _ _.
    assert (forall oldDoc v,
               emits (stores_update V this)
                     (do newDoc <- findOne_value store models this v;
                      if is_nullOrUndefined newDoc
                      then throw (Error "Unable to find the updated doc")
                      else
                        exec (if negb (is_true (skipHooks options))
                              then afterUpdate this oldDoc newDoc else ret tt);
                        ret newDoc)
                     (fun _ => True)) as Hfinish.
    { intros oldDoc v.
      apply emits_bind with (R := fun _ => True).
      { eapply emits_calls_weaken; [apply aggregate_stores_update|].
        apply findOne_value_reads. }
      intros newDoc _. destruct (is_nullOrUndefined newDoc); [apply emits_throw|].
      apply emits_bind with (R := fun _ => True);
        [apply emits_quiet, afterUpdate_quiet|]. intros; now apply emits_ret. }
    destruct (is_nullOrUndefined (upserted res)); [|apply Hfinish].
    destruct (is_nullOrUndefined (res_value res)); [now apply emits_ret|apply Hfinish].
  - destruct (negb (is_object_query q)); [apply emits_throw|].
    apply emits_bind with (R := fun _ => True);
      [apply emits_quiet, filter_of_query_quiet|]. intros filter _.
    apply emits_bind with (R := fun _ => True);
      [apply emits_call; now split|]. intros res _.
    apply emits_bind with (R := fun _ => True);
      [eapply emits_weaken; [apply emits_quiet, quiet_assert|trivial]|]. intros _ _.
    destruct (count_le_0 (result_n res)); [now apply emits_ret|].
    apply emits_bind with (R := fun _ => True);
      [apply emits_quiet, afterUpdate_quiet|]. intros; now apply emits_ret.
Qed.

(** [updateMany] hands the store the update it got from [beforeUpdate]. *)
Lemma updateMany_emits (V : obj -> Prop) (this : ModelClass) (query : Query)
      (update : obj) (options : Options) :
  emits is_aggregate
        (beforeUpdate store models bcrypt_hash template validateFieldValue this query
                      update options)
        (fun qu => V (snd qu)) ->
  emits (stores_update V this)
        (updateMany store models bcrypt_hash template validateFieldValue this query update
                    options)
        (fun _ => True).
Proof.
  intros Hbefore. unfold updateMany. destruct (_ || _); [apply emits_throw|].
  apply emits_bind with (R := fun qu => V (snd qu)).
  { eapply emits_calls_weaken; [apply aggregate_stores_update|]. exact Hbefore. }
  intros [q u] Hu. cbn [snd] in Hu. unfold getCollection at 1.
  apply emits_bind with (R := fun coll => coll = collection (schema this));
    [now apply emits_ret|]. intros coll ->.
  destruct (is_true (returnDocs options)).
  - apply emits_bind with (R := fun _ => True).
    { eapply emits_calls_weaken; [apply aggregate_stores_update|].
      apply findMany_reads. }
    intros docs _.
    apply emits_bind with (R := fun _ => True).
    { destruct (_ && _).
      - apply emits_bind with (R := fun _ => True).
        + apply (updateOne_emits V this q u (as_returnDoc_skipHooks options)).
          * intros _. exact Hu.
          * discriminate.
        + intros res _. destruct (is_boolean_or_null res);
            [apply emits_throw|now apply emits_ret].
      - apply emits_map_st. intros doc.
        apply emits_bind with (R := fun _ => True);
          [apply emits_call; now split|]. intros result _.
        apply emits_bind with (R := fun _ => True);
          [eapply emits_weaken; [apply emits_quiet, quiet_assert|trivial]|].
        intros _ _.
        apply emits_bind with (R := fun _ => True);
          [eapply emits_weaken; [apply emits_quiet, quiet_assert|trivial]|].
        intros; now apply emits_ret. }
    intros results _.
    apply emits_bind with (R := fun _ => True); [apply emits_quiet, quiet_liftH|].
    intros; now apply emits_ret.
  - apply emits_bind with (R := fun _ => True);
      [apply emits_quiet, filter_of_query_quiet|]. intros filter _.
    apply emits_bind with (R := fun _ => True);
      [apply emits_call; now split|]. intros res _.
    apply emits_bind with (R := fun _ => True);
      [eapply emits_weaken; [apply emits_quiet, quiet_assert|trivial]|]. intros _ _.
    destruct (count_le_0 (result_n res)); [now apply emits_ret|].
    apply emits_bind with (R := fun _ => True); [apply emits_quiet, quiet_liftH|].
    intros; now apply emits_ret.
Qed.

(** X18. No update reaches the store unvalidated unless the caller skips
    the hooks.  The only calls updateOne (without [skipHooks]) and
    updateMany make are reads and updates of the model's own collection,
    and the update handed to each of them has a [$set] that is a non-empty
    object whose keys are all declared and accepted by the field validator;
    with the [strict] option, it has every required field that lacks a
    default. *)
Theorem updates_store_validated_sets_only
        (this : ModelClass) (query : Query) (update : obj) (options : Options)
        (w : World S) :
  (is_true (skipHooks options) = false ->
   Forall (stores_validated_set validateFieldValue this (is_true (strict options)))
          (snd (updateOne store models bcrypt_hash template validateFieldValue this query
                          update options w)))
  /\ Forall (stores_validated_set validateFieldValue this (is_true (strict options)))
            (snd (updateMany store models bcrypt_hash template validateFieldValue this
                             query update options w)).
Proof.
  split.
  - intros Hskip. apply updateOne_emits.
    + rewrite Hskip. discriminate.
    + intros _. apply beforeUpdate_emits.
  - apply updateMany_emits, beforeUpdate_emits.
Qed.

End StoringUpdates.

(** ** formatDocument and randomFields *)

Lemma keys_obj_set_present (o : obj) (k : string) (v : value) :
  hasOwnProperty o k = true -> keys (obj_set o k v) = keys o.
Proof.
  unfold hasOwnProperty, keys. induction o as [|[k' v'] r IH]; cbn; [discriminate|].
  destruct (String.eqb k k') eqn:E; cbn; [reflexivity|].
  intros Hr. now rewrite IH.
Qed.

Lemma hasOwnProperty_obj_set_same (o : obj) (k : string) (v : value) :
  hasOwnProperty (obj_set o k v) k = true.
Proof. unfold hasOwnProperty. now rewrite obj_get_obj_set, String.eqb_refl. Qed.

Section Formatting.

Variable bcrypt_hash : string -> Z -> string.
Variable template : value -> string.
Variable this : ModelClass.

(** One iteration of the loop of [formatDocument]. *)
Definition format_step (formattedDoc : obj) (key : string) : obj :=
  if negb (hasOwnProperty formattedDoc key) then formattedDoc
  else match field_get (fields (schema this)) key with
       | Some fieldSpecs =>
           let formattedDoc :=
             match format fieldSpecs with
             | Some f => obj_set formattedDoc key (f (prop formattedDoc key))
             | None => formattedDoc
             end in
           if is_true (encrypted fieldSpecs) then
             obj_set formattedDoc key
                     (VStr (bcrypt_hash (template (prop formattedDoc key)) 10))
           else formattedDoc
       | None => formattedDoc
       end.

Lemma formatDocument_fold (doc : obj) :
  formatDocument bcrypt_hash template this doc
  = fold_left format_step (map fst (fields (schema this))) doc.
Proof. reflexivity. Qed.

Lemma format_step_keys (o : obj) (k : string) : keys (format_step o k) = keys o.
Proof.
  unfold format_step. destruct (hasOwnProperty o k) eqn:Hk; [|reflexivity].
  cbn [negb]. destruct (field_get (fields (schema this)) k) as [f|]; [|reflexivity].
  destruct (format f) as [g|], (is_true (encrypted f));
    rewrite ?keys_obj_set_present; try reflexivity; try exact Hk.
  apply hasOwnProperty_obj_set_same.
Qed.

Lemma format_step_other (o : obj) (k key : string) :
  key <> k -> obj_get (format_step o k) key = obj_get o key.
Proof.
  intros Hne. apply String.eqb_neq in Hne. unfold format_step.
  destruct (negb (hasOwnProperty o k)); [reflexivity|].
  destruct (field_get (fields (schema this)) k) as [f|]; [|reflexivity].
  destruct (format f) as [g|], (is_true (encrypted f));
    rewrite ?obj_get_obj_set, ?Hne; reflexivity.
Qed.

Lemma format_step_plain (o : obj) (k : string) :
  match field_get (fields (schema this)) k with
  | Some f => format f = None /\ is_true (encrypted f) = false
  | None => True
  end ->
  format_step o k = o.
Proof.
  unfold format_step. destruct (negb (hasOwnProperty o k)); [reflexivity|].
  destruct (field_get (fields (schema this)) k) as [f|]; [|reflexivity].
  now intros [-> ->].
Qed.

Lemma formatDocument_keys (doc : obj) :
  keys (formatDocument bcrypt_hash template this doc) = keys doc.
Proof.
  rewrite formatDocument_fold. revert doc.
  induction (map fst (fields (schema this))) as [|k ks IH]; intros doc; [reflexivity|].
  cbn [fold_left]. now rewrite IH, format_step_keys.
Qed.

Lemma formatDocument_plain_value (doc : obj) (key : string) :
  match field_get (fields (schema this)) key with
  | Some f => format f = None /\ is_true (encrypted f) = false
  | None => True
  end ->
  obj_get (formatDocument bcrypt_hash template this doc) key = obj_get doc key.
Proof.
  intros Hplain. rewrite formatDocument_fold. revert doc.
  induction (map fst (fields (schema this))) as [|k ks IH]; intros doc; [reflexivity|].
  cbn [fold_left]. rewrite IH. destruct (String.eqb key k) eqn:E.
  - apply String.eqb_eq in E. subst k. now rewrite format_step_plain.
  - apply String.eqb_neq in E. now apply format_step_other.
Qed.



(** *** randomFields *)



End Formatting.






(** ** identifyOne and count *)

Section Identifying.

Context {S : Type}.
Variable store : Store S.
Variable models : option (list (string * ModelClass)).

(** [JSON.stringify(query, null, 0)], which reads the filter object. *)
Variable JSON_stringify : Query -> heap -> string.

(** [Model.identifyOne] *)
Definition identifyOne (this : ModelClass) (query : Query) : M S value :=
  do result <- findOne store models this (Some query);
  if is_nullOrUndefined result then
    do text <- liftH (fun h => (Ok (JSON_stringify query h), h));
    throw (Error ("No results found while identifying this " +:+ model (schema this)
                  +:+ " using the query " +:+ text))
  else if is_nullOrUndefined (member result "_id") then
    do text <- liftH (fun h => (Ok (JSON_stringify query h), h));
    throw (Error ("Cannot identify this " +:+ model (schema this)
                  +:+ " using the query " +:+ text))
  else ret (member result "_id").

(** [Model.count] *)
Definition count (this : ModelClass) (query : Query) : M S nat :=
  do results <- findMany store models this (Some query);
  ret (length results).

(** X22. identifyOne and count only read the store, and identifyOne never
    returns null or undefined: what it returns is the [_id] of the first
    document the query finds, and when there is no such document, or it has
    no [_id], it throws.  The number count returns is that of the documents
    the one aggregation it makes has returned. *)
Theorem identifyOne_and_count_read_only
        (this : ModelClass) (query : Query) (w : World S) :
  Forall is_aggregate (snd (identifyOne this query w))
  /\ Forall is_aggregate (snd (count this query w))
  /\ (forall v, fst (fst (identifyOne this query w)) = Ok v ->
                is_nullOrUndefined v = false
                /\ exists docs doc,
                    fst (fst (findMany store models this (Some query) w))
                    = Ok (doc :: docs)
                    /\ v = member doc "_id").
Proof.
  split; [|split].
  - assert (yields (identifyOne this query) (fun _ => True)) as Hy; [|apply Hy].
    unfold identifyOne.
    apply yields_bind with (P := fun _ => True); [apply findOne_reads|].
    intros result _.
    destruct (is_nullOrUndefined result).
    { apply yields_bind with (P := fun _ => True); [now apply yields_liftH|].
      intros; apply yields_throw. }
    destruct (is_nullOrUndefined (member result "_id")); [|now apply yields_ret].
    apply yields_bind with (P := fun _ => True); [now apply yields_liftH|].
    intros; apply yields_throw.
  - assert (yields (count this query) (fun _ => True)) as Hy; [|apply Hy].
    unfold count.
    apply yields_bind with (P := fun _ => True); [apply findMany_reads|].
    intros; now apply yields_ret.
  - intros v. unfold identifyOne, findOne. rewrite !bind_run.
    destruct (findMany store models this (Some query) w) as [[[docs|e] w1] t1];
      [|discriminate].
    destruct docs as [|doc docs]; cbn [ret M_monad app].
    + cbn [is_nullOrUndefined]. rewrite bind_run, liftH_run. discriminate.
    + destruct (is_nullOrUndefined doc);
        [rewrite bind_run, liftH_run; discriminate|].
      destruct (is_nullOrUndefined (member doc "_id")) eqn:Eid;
        [rewrite bind_run, liftH_run; discriminate|].
      cbn. intros [= <-]. split; [exact Eid|]. now exists docs, doc.
Qed.

End Identifying.

(* ===================================================================== *)
(** * The $project stage factory *)
(* ===================================================================== *)

(** [ProjectStageFactoryOptionsPopulate]: per key, a boolean or a nested
    descriptor. *)
Inductive Populate : Type :=
| PopulateFlag (b : bool)
| PopulateNested (entries : list (string * Populate)).

(** The second argument of [projectStageFactory]: absent, the caller's
    [ProjectStageFactoryOptions], or, in the recursive call, a nested
    populate descriptor that is read as options. *)
Inductive ProjectOptions : Type :=
| NoProjectOptions
| ProjectOptionsBag (toPrefix fromPrefix : option string)
                    (populate : option (list (string * Populate)))
                    (exclude : option (list value))
| ProjectOptionsOf (entries : list (string * Populate)).

Fixpoint populate_get (es : list (string * Populate)) (k : string) : option Populate :=
  match es with
  | [] => None
  | (k', p) :: r => if String.eqb k k' then Some p else populate_get r k
  end.

(** A populate value inside a template literal. *)
Definition populate_template (p : Populate) : string :=
  match p with
  | PopulateFlag true => "true"
  | PopulateFlag false => "false"
  | PopulateNested _ => "[object Object]"
  end.

(** The destructuring [{ toPrefix = '', fromPrefix = '', populate = {},
    exclude = [] }] of the options. *)
Definition project_toPrefix (options : ProjectOptions) : string :=
  match options with
  | ProjectOptionsBag (Some p) _ _ _ => p
  | ProjectOptionsOf es =>
      match populate_get es "toPrefix" with
      | Some v => populate_template v
      | None => ""
      end
  | _ => ""
  end.

Definition project_fromPrefix (options : ProjectOptions) : string :=
  match options with
  | ProjectOptionsBag _ (Some p) _ _ => p
  | ProjectOptionsOf es =>
      match populate_get es "fromPrefix" with
      | Some v => populate_template v
      | None => ""
      end
  | _ => ""
  end.

(** [populate], as far as it has keys: a boolean has none. *)
Definition project_populate (options : ProjectOptions) : list (string * Populate) :=
  match options with
  | ProjectOptionsBag _ _ (Some p) _ => p
  | ProjectOptionsOf es =>
      match populate_get es "populate" with
      | Some (PopulateNested es') => es'
      | _ => []
      end
  | _ => []
  end.

(** [exclude], when it is an array; a populate value is none. *)
Definition project_exclude (options : ProjectOptions) : option (list value) :=
  match options with
  | ProjectOptionsBag _ _ _ (Some l) => Some l
  | ProjectOptionsOf es =>
      match populate_get es "exclude" with
      | Some _ => None
      | None => Some []
      end
  | _ => Some []
  end.

(** [exclude.indexOf(key) > -1] *)
Definition excluded (exclude : option (list value)) (key : string) : result bool :=
  match exclude with
  | Some l =>
      Ok (existsb (fun v => match v with VStr s => String.eqb s key | _ => false end) l)
  | None => Throw (TypeError "exclude.indexOf is not a function")
  end.

(** [populateOpts === true ? undefined : populateOpts] *)
Definition nested_options (populateOpts : Populate) : ProjectOptions :=
  match populateOpts with
  | PopulateFlag _ => NoProjectOptions
  | PopulateNested es => ProjectOptionsOf es
  end.

(** A loop over [xs] that updates [b] and may throw. *)
Fixpoint fold_result {A B} (f : B -> A -> result B) (xs : list A) (b : B) : result B :=
  match xs with
  | [] => Ok b
  | x :: r =>
      match f b x with
      | Ok b' => fold_result f r b'
      | Throw e => Throw e
      end
  end.

Section Projection.

Variable models : option (list (string * ModelClass)).

(** The recursive call of [projectStageFactory]. *)
Variable recurse : Schema -> ProjectOptions -> result (list obj).

(** One iteration of the loop over the fields of the schema. *)
Definition project_field (schema : Schema) (options : ProjectOptions)
           (out : obj) (key : string) : result obj :=
  let toPrefix := project_toPrefix options in
  let fromPrefix := project_fromPrefix options in
  match excluded (project_exclude options) key with
  | Throw e => Throw e
  | Ok true => Ok out
  | Ok false =>
      let populateOpts := populate_get (project_populate options) key in
      match populateOpts with
      | Some (PopulateFlag false) => Ok out
      | _ =>
          let populateRef :=
            match field_get (fields schema) key with
            | Some f => ref f
            | None => None
            end in
          match populateOpts, populateRef with
          | Some p, Some r =>
              match getModel models r with
              | Throw e => Throw e
              | Ok m =>
                  match recurse (static_schema m) (nested_options p) with
                  | Throw e => Throw e
                  | Ok stages =>
                      Ok (obj_set out (toPrefix +:+ key) (prop (hd [] stages) "$project"))
                  end
              end
          | _, _ =>
              Ok (obj_set out (toPrefix +:+ key) (VStr ("$" +:+ fromPrefix +:+ key)))
          end
      end
  end.

(** [if (exclude.indexOf(key) < 0) out[toPrefix + key] = '$' + fromPrefix + key] *)
Definition project_timestamp (options : ProjectOptions) (out : obj) (key : string)
  : result obj :=
  match excluded (project_exclude options) key with
  | Throw e => Throw e
  | Ok true => Ok out
  | Ok false =>
      Ok (obj_set out (project_toPrefix options +:+ key)
                  (VStr ("$" +:+ project_fromPrefix options +:+ key)))
  end.

(** The body of [Aggregation.projectStageFactory]. *)
Definition projectStageFactory_body (schema : Schema) (options : ProjectOptions)
  : result (list obj) :=
  let out := [(project_toPrefix options +:+ "_id",
               VStr ("$" +:+ project_fromPrefix options +:+ "_id"))] in
  match fold_result (project_field schema options) (map fst (fields schema)) out with
  | Throw e => Throw e
  | Ok out =>
      match
        (if flag (timestamps schema)
         then fold_result (project_timestamp options) ["updatedAt"; "createdAt"] out
         else Ok out)
      with
      | Throw e => Throw e
      | Ok out => Ok [[("$project", VObj out)]]
      end
  end.

End Projection.

(** [Aggregation.projectStageFactory], with a bound on the depth of its
    recursive calls. *)
Fixpoint projectStageFactory_depth (models : option (list (string * ModelClass)))
         (depth : nat) (schema : Schema) (options : ProjectOptions) {struct depth}
  : result (list obj) :=
  match depth with
  | O => Throw (Error "Maximum call stack size exceeded")
  | Datatypes.S depth' =>
      projectStageFactory_body models (projectStageFactory_depth models depth')
                               schema options
  end.

(** The nesting of a populate descriptor. *)
Fixpoint populate_size (p : Populate) : nat :=
  match p with
  | PopulateFlag _ => 1
  | PopulateNested es =>
      Datatypes.S ((fix go (es : list (string * Populate)) : nat :=
                      match es with
                      | [] => 0
                      | (_, x) :: r => populate_size x + go r
                      end) es)
  end.

Fixpoint populate_entries_size (es : list (string * Populate)) : nat :=
  match es with
  | [] => 0
  | (_, x) :: r => populate_size x + populate_entries_size r
  end.

Definition options_size (options : ProjectOptions) : nat :=
  match options with
  | ProjectOptionsBag _ _ (Some p) _ => populate_entries_size p
  | ProjectOptionsOf es => populate_entries_size es
  | _ => 0
  end.

(** [Aggregation.projectStageFactory].  The recursive calls descend into
    the populate descriptor, so they never nest deeper than its size. *)
Definition projectStageFactory (models : option (list (string * ModelClass)))
           (schema : Schema) (options : ProjectOptions) : result (list obj) :=
  projectStageFactory_depth models (Datatypes.S (options_size options)) schema options.

(** ** Properties of the $project stage factory *)

Lemma In_keys_obj_set (o : obj) (k k' : string) (v : value) :
  In k' (keys (obj_set o k v)) <-> k' = k \/ In k' (keys o).
Proof.
  unfold keys. induction o as [|[k0 v0] r IH]; cbn.
  - intuition.
  - destruct (String.eqb k k0) eqn:E; cbn.
    + apply String.eqb_eq in E. subst k0. intuition.
    + rewrite IH. intuition.
Qed.

Lemma fold_result_ext {A B} (f g : B -> A -> result B) (xs : list A) :
  (forall b x, f b x = g b x) ->
  forall b, fold_result f xs b = fold_result g xs b.
Proof.
  intros Hfg. induction xs as [|x r IH]; intros b; [reflexivity|].
  cbn [fold_result]. rewrite Hfg. destruct (g b x); [apply IH|reflexivity].
Qed.

Lemma populate_size_nested (es : list (string * Populate)) :
  populate_size (PopulateNested es) = Datatypes.S (populate_entries_size es).
Proof.
  reflexivity.
Qed.

Lemma populate_size_positive (p : Populate) : (0 < populate_size p)%nat.
Proof. destruct p; [cbn; lia|rewrite populate_size_nested; lia]. Qed.

Lemma populate_get_size (es : list (string * Populate)) (k : string) (p : Populate) :
  populate_get es k = Some p -> (populate_size p <= populate_entries_size es)%nat.
Proof.
  induction es as [|[k' x] r IH]; cbn [populate_get populate_entries_size];
    [discriminate|].
  destruct (String.eqb k k').
  - intros [= ->]. lia.
  - intros Hr. specialize (IH Hr). lia.
Qed.

Lemma nested_options_size (p : Populate) :
  (options_size (nested_options p) < populate_size p)%nat.
Proof.
  destruct p as [b|es]; cbn [nested_options options_size].
  - apply populate_size_positive.
  - rewrite populate_size_nested. lia.
Qed.

Lemma project_populate_size (options : ProjectOptions) :
  (populate_entries_size (project_populate options) <= options_size options)%nat.
Proof.
  destruct options as [|tp fp [p|] ex|es]; cbn [project_populate options_size];
    try (cbn; lia).
  destruct (populate_get es "populate") as [[b|es']|] eqn:E; try (cbn; lia).
  apply populate_get_size in E. rewrite populate_size_nested in E. lia.
Qed.

Section ProjectionProperties.

Variable models : option (list (string * ModelClass)).

(** The body only calls back on options smaller than its own. *)
Lemma projectStageFactory_body_ext
      (R1 R2 : Schema -> ProjectOptions -> result (list obj))
      (schema : Schema) (options : ProjectOptions) :
  (forall sch o, (options_size o < options_size options)%nat -> R1 sch o = R2 sch o) ->
  projectStageFactory_body models R1 schema options
  = projectStageFactory_body models R2 schema options.
Proof.
  intros HR. unfold projectStageFactory_body.
  rewrite (fold_result_ext (project_field models R1 schema options)
                           (project_field models R2 schema options));
    [reflexivity|].
  intros out key. unfold project_field.
  destruct (excluded (project_exclude options) key) as [[|]|e]; try reflexivity.
  destruct (populate_get (project_populate options) key) as [p|] eqn:Ep;
    [|reflexivity].
  assert (R1 = R1 -> forall sch, R1 sch (nested_options p) = R2 sch (nested_options p))
    as Hp.
  { intros _ sch. apply HR. pose proof (populate_get_size _ _ _ Ep).
    pose proof (project_populate_size options). pose proof (nested_options_size p). lia. }
  destruct p as [[|]|es]; try reflexivity;
    destruct (match field_get (fields schema) key with
              | Some f => ref f | None => None end) as [r|]; try reflexivity;
    destruct (getModel models r) as [m|e]; try reflexivity;
    now rewrite Hp.
Qed.

Lemma projectStageFactory_depth_irrelevant (n : nat) :
  forall (m : nat) (schema : Schema) (options : ProjectOptions),
    (options_size options < n)%nat ->
    (options_size options < m)%nat ->
    projectStageFactory_depth models n schema options
    = projectStageFactory_depth models m schema options.
Proof.
  induction n as [|n IH]; intros m schema options Hn Hm; [lia|].
  destruct m as [|m]; [lia|]. cbn [projectStageFactory_depth].
  apply projectStageFactory_body_ext. intros sch o Ho. apply IH; lia.
Qed.

(** Unfolding [projectStageFactory] once. *)
Lemma projectStageFactory_unfold (schema : Schema) (options : ProjectOptions) :
  projectStageFactory models schema options
  = projectStageFactory_body models (projectStageFactory models) schema options.
Proof.
  unfold projectStageFactory at 1. cbn [projectStageFactory_depth].
  apply projectStageFactory_body_ext. intros sch o Ho.
  unfold projectStageFactory. apply projectStageFactory_depth_irrelevant; lia.
Qed.

(** X23. The recursion of projectStageFactory is bounded by its populate
    descriptor: from the size of the descriptor on, the depth allowed to the
    recursive calls makes no difference to the result, and the function
    satisfies its own recursive equation. *)
Theorem projectStageFactory_recursion_is_bounded
        (n : nat) (schema : Schema) (options : ProjectOptions) :
  (options_size options < n)%nat ->
  projectStageFactory_depth models n schema options
  = projectStageFactory models schema options
  /\ projectStageFactory models schema options
     = projectStageFactory_body models (projectStageFactory models) schema options.
Proof.
  intros Hn. split; [|apply projectStageFactory_unfold].
  unfold projectStageFactory. apply projectStageFactory_depth_irrelevant; lia.
Qed.

(** The keys a projection keeps: [_id] always; a field of the schema unless
    it is excluded or its populate entry is [false]; the two timestamps when
    the schema has them and they are not excluded. *)
Definition projected (schema : Schema) (options : ProjectOptions) (key : string) : Prop :=
  key = "_id"
  \/ (In key (map fst (fields schema))
      /\ excluded (project_exclude options) key = Ok false
      /\ populate_get (project_populate options) key <> Some (PopulateFlag false))
  \/ (flag (timestamps schema) = true
      /\ (key = "updatedAt" \/ key = "createdAt")
      /\ excluded (project_exclude options) key = Ok false).

Lemma project_field_keys
      (R : Schema -> ProjectOptions -> result (list obj))
      (schema : Schema) (options : ProjectOptions) (out out' : obj) (key : string) :
  project_field models R schema options out key = Ok out' ->
  forall k, In k (keys out')
            <-> In k (keys out)
                \/ (k = project_toPrefix options +:+ key
                    /\ excluded (project_exclude options) key = Ok false
                    /\ populate_get (project_populate options) key
                       <> Some (PopulateFlag false)).
Proof.
  unfold project_field.
  destruct (excluded (project_exclude options) key) as [[|]|e]; try discriminate.
  { intros [= <-] k. intuition discriminate. }
  destruct (populate_get (project_populate options) key) as [[[|]|es]|].
  4:{ intros [= <-] k. rewrite In_keys_obj_set. intuition discriminate. }
  2:{ intros [= <-] k. intuition congruence. }
  all: destruct (match field_get (fields schema) key with
                 | Some f => ref f | None => None end) as [r|].
  all: try (intros [= <-] k; rewrite In_keys_obj_set; intuition discriminate).
  all: destruct (getModel models r) as [m|e]; try discriminate.
  all: destruct (R (static_schema m) _) as [stages|e]; try discriminate.
  all: intros [= <-] k; rewrite In_keys_obj_set; intuition discriminate.
Qed.

Lemma project_fields_keys
      (R : Schema -> ProjectOptions -> result (list obj))
      (schema : Schema) (options : ProjectOptions) (ks : list string) :
  forall out out' : obj,
    fold_result (project_field models R schema options) ks out = Ok out' ->
    forall k, In k (keys out')
              <-> In k (keys out)
                  \/ exists key,
                      In key ks
                      /\ k = project_toPrefix options +:+ key
                      /\ excluded (project_exclude options) key = Ok false
                      /\ populate_get (project_populate options) key
                         <> Some (PopulateFlag false).
Proof.
  induction ks as [|key ks IH]; intros out out' Hrun k.
  - injection Hrun as <-. split; [now left|]. intros [Hk|(key & [] & _)]. exact Hk.
  - cbn [fold_result] in Hrun.
    destruct (project_field models R schema options out key) as [out1|e] eqn:Estep;
      [|discriminate].
    rewrite (IH _ _ Hrun k), (project_field_keys _ _ _ _ _ _ Estep k). split.
    + intros [[Hk|(-> & Hex & Hpop)]|(key' & Hin & Hrest)].
      * now left.
      * right. exists key. split; [now left|]. now repeat split.
      * right. exists key'. split; [now right|exact Hrest].
    + intros [Hk|(key' & [<-|Hin] & Hrest)].
      * left. now left.
      * left. right. exact Hrest.
      * right. now exists key'.
Qed.

Lemma project_timestamp_keys (options : ProjectOptions) (out out' : obj) (key : string) :
  project_timestamp options out key = Ok out' ->
  forall k, In k (keys out')
            <-> In k (keys out)
                \/ (k = project_toPrefix options +:+ key
                    /\ excluded (project_exclude options) key = Ok false).
Proof.
  unfold project_timestamp.
  destruct (excluded (project_exclude options) key) as [[|]|e]; try discriminate.
  - intros [= <-] k. intuition discriminate.
  - intros [= <-] k. rewrite In_keys_obj_set. intuition.
Qed.

Lemma project_timestamps_keys (options : ProjectOptions) (ks : list string) :
  forall out out' : obj,
    fold_result (project_timestamp options) ks out = Ok out' ->
    forall k, In k (keys out')
              <-> In k (keys out)
                  \/ exists key,
                      In key ks
                      /\ k = project_toPrefix options +:+ key
                      /\ excluded (project_exclude options) key = Ok false.
Proof.
  induction ks as [|key ks IH]; intros out out' Hrun k.
  - injection Hrun as <-. split; [now left|]. intros [Hk|(key & [] & _)]. exact Hk.
  - cbn [fold_result] in Hrun.
    destruct (project_timestamp options out key) as [out1|e] eqn:Estep; [|discriminate].
    rewrite (IH _ _ Hrun k), (project_timestamp_keys _ _ _ _ Estep k). split.
    + intros [[Hk|(-> & Hex)]|(key' & Hin & Hrest)].
      * now left.
      * right. exists key. split; [now left|]. now split.
      * right. exists key'. split; [now right|exact Hrest].
    + intros [Hk|(key' & [<-|Hin] & Hrest)].
      * left. now left.
      * left. right. exact Hrest.
      * right. now exists key'.
Qed.

(** X24. What a projection keeps.  When projectStageFactory returns, it
    returns exactly one [$project] stage, and the keys of that stage are,
    under the [toPrefix], [_id], the fields of the schema that are neither
    excluded nor switched off by a [false] populate entry, and the
    timestamps when the schema has them and they are not excluded: an
    excluded field is never projected, [_id] always is. *)
Theorem projectStageFactory_projects_the_included_keys
        (schema : Schema) (options : ProjectOptions) (stages : list obj) :
  projectStageFactory models schema options = Ok stages ->
  exists out : obj,
    stages = [[("$project", VObj out)]]
    /\ forall k : string,
        In k (keys out)
        <-> exists key, k = project_toPrefix options +:+ key
                        /\ projected schema options key.
Proof.
  rewrite projectStageFactory_unfold. unfold projectStageFactory_body.
  destruct (fold_result _ (map fst (fields schema)) _) as [out1|e] eqn:Efields;
    [|discriminate].
  pose proof (project_fields_keys _ _ _ _ _ _ Efields) as Hfields.
  destruct (flag (timestamps schema)) eqn:Ets.
  - destruct (fold_result (project_timestamp options) _ out1) as [out2|e] eqn:Estamps;
      [|discriminate].
    pose proof (project_timestamps_keys _ _ _ _ Estamps) as Hstamps.
    intros [= <-]. exists out2. split; [reflexivity|]. intros k.
    rewrite Hstamps, Hfields. cbn [keys map fst In]. unfold projected. split.
    + intros [[[<-|[]]|(key & Hin & -> & Hex & Hpop)]|(key & Hin & -> & Hex)].
      * exists "_id". split; [reflexivity|now left].
      * exists key. split; [reflexivity|]. right. left. now repeat split.
      * exists key. split; [reflexivity|]. right. right. split; [exact Ets|].
        split; [|exact Hex]. destruct Hin as [<-|[<-|[]]]; [now left|now right].
    + intros (key & -> & [->|[(Hin & Hex & Hpop)|(_ & Hkey & Hex)]]).
      * left. left. now left.
      * left. right. now exists key.
      * right. exists key. split; [|now split].
        destruct Hkey as [->| ->]; [now left|right; now left].
  - intros [= <-]. exists out1. split; [reflexivity|]. intros k.
    rewrite Hfields. cbn [keys map fst In]. unfold projected. split.
    + intros [[<-|[]]|(key & Hin & -> & Hex & Hpop)].
      * exists "_id". split; [reflexivity|now left].
      * exists key. split; [reflexivity|]. right. left. now repeat split.
    + intros (key & -> & [->|[(Hin & Hex & Hpop)|(Hts & _)]]).
      * left. now left.
      * right. now exists key.
      * congruence.
Qed.

(** Options read off a descriptor that has none of the four option keys
    are the default options. *)
Lemma projectStageFactory_body_of_plain_descriptor
      (R : Schema -> ProjectOptions -> result (list obj))
      (schema : Schema) (es : list (string * Populate)) :
  (forall k, In k ["toPrefix"; "fromPrefix"; "populate"; "exclude"] ->
             populate_get es k = None) ->
  projectStageFactory_body models R schema (ProjectOptionsOf es)
  = projectStageFactory_body models R schema NoProjectOptions.
Proof.
  intros Hplain.
  assert (project_toPrefix (ProjectOptionsOf es) = project_toPrefix NoProjectOptions)
    as Ht by (cbn; now rewrite Hplain by (cbn; tauto)).
  assert (project_fromPrefix (ProjectOptionsOf es) = project_fromPrefix NoProjectOptions)
    as Hf by (cbn; now rewrite Hplain by (cbn; tauto)).
  assert (project_populate (ProjectOptionsOf es) = project_populate NoProjectOptions)
    as Hp by (cbn; now rewrite Hplain by (cbn; tauto)).
  assert (project_exclude (ProjectOptionsOf es) = project_exclude NoProjectOptions)
    as He by (cbn; now rewrite Hplain by (cbn; tauto)).
  unfold projectStageFactory_body. rewrite Ht, Hf.
  rewrite (fold_result_ext (project_field models R schema (ProjectOptionsOf es))
                           (project_field models R schema NoProjectOptions)).
  2:{ intros out key. unfold project_field. now rewrite Ht, Hf, Hp, He. }
  destruct (fold_result _ (map fst (fields schema)) _) as [out1|e]; [|reflexivity].
  destruct (flag (timestamps schema)); [|reflexivity].
  rewrite (fold_result_ext (project_timestamp (ProjectOptionsOf es))
                           (project_timestamp NoProjectOptions));
    [reflexivity|].
  intros out key. unfold project_timestamp. now rewrite Ht, Hf, He.
Qed.

Lemma populate_get_replaced
      (pre post : list (string * Populate)) (key k : string) (a b : Populate) :
  populate_get (pre ++ (key, a) :: post) k = populate_get (pre ++ (key, b) :: post) k
  \/ (populate_get (pre ++ (key, a) :: post) k = Some a
      /\ populate_get (pre ++ (key, b) :: post) k = Some b).
Proof.
  induction pre as [|[k' x] r IH]; cbn.
  - destruct (String.eqb k key); [now right|now left].
  - destruct (String.eqb k k'); [now left|exact IH].
Qed.

(** X25. A nested populate descriptor is read as options, not as a
    descriptor: unless it has one of the keys [toPrefix], [fromPrefix],
    [populate] and [exclude], it populates its field exactly as [true]
    does, and the fields it names in the referenced schema are not
    populated. *)
Theorem projectStageFactory_nested_descriptor_is_read_as_options
        (schema : Schema) (toPrefix fromPrefix : option string)
        (exclude : option (list value))
        (pre post : list (string * Populate)) (key : string)
        (es : list (string * Populate)) :
  (forall k, In k ["toPrefix"; "fromPrefix"; "populate"; "exclude"] ->
             populate_get es k = None) ->
  projectStageFactory models schema
    (ProjectOptionsBag toPrefix fromPrefix
                       (Some (pre ++ (key, PopulateNested es) :: post)) exclude)
  = projectStageFactory models schema
      (ProjectOptionsBag toPrefix fromPrefix
                         (Some (pre ++ (key, PopulateFlag true) :: post)) exclude).
Proof.
  intros Hplain. rewrite !projectStageFactory_unfold.
  unfold projectStageFactory_body.
  change (project_toPrefix (ProjectOptionsBag toPrefix fromPrefix
            (Some (pre ++ (key, PopulateNested es) :: post)) exclude))
    with (project_toPrefix (ProjectOptionsBag toPrefix fromPrefix
            (Some (pre ++ (key, PopulateFlag true) :: post)) exclude)).
  change (project_fromPrefix (ProjectOptionsBag toPrefix fromPrefix
            (Some (pre ++ (key, PopulateNested es) :: post)) exclude))
    with (project_fromPrefix (ProjectOptionsBag toPrefix fromPrefix
            (Some (pre ++ (key, PopulateFlag true) :: post)) exclude)).
  rewrite (fold_result_ext
             (project_field models (projectStageFactory models) schema
                (ProjectOptionsBag toPrefix fromPrefix
                   (Some (pre ++ (key, PopulateNested es) :: post)) exclude))
             (project_field models (projectStageFactory models) schema
                (ProjectOptionsBag toPrefix fromPrefix
                   (Some (pre ++ (key, PopulateFlag true) :: post)) exclude)));
    [reflexivity|].
  intros out k. unfold project_field.
  cbn [project_toPrefix project_fromPrefix project_populate project_exclude].
  destruct (excluded _ k) as [[|]|e]; try reflexivity.
  destruct (populate_get_replaced pre post key k (PopulateNested es) (PopulateFlag true))
    as [-> | [-> ->]]; [reflexivity|].
  destruct (match field_get (fields schema) k with
            | Some f => ref f | None => None end) as [r|]; [|reflexivity].
  destruct (getModel models r) as [m|e]; [|reflexivity].
  cbn [nested_options].
  now rewrite !projectStageFactory_unfold,
    (projectStageFactory_body_of_plain_descriptor _ _ es Hplain).
Qed.

End ProjectionProperties.

(** ** The same on the example registries *)

Lemma updates_store_validated_sets_only_witness :
  Forall (stores_validated_set accept_all Book false)
         (snd (updateOne mem_store library_models example_hash example_template accept_all
                         Book (QObject 0) [("title", VStr "Uno")] no_options
                         (world_of [[("title", VStr "One")]] library))).
Proof.
  exact (proj1 (updates_store_validated_sets_only
                  mem_store library_models example_hash example_template accept_all
                  Book (QObject 0) [("title", VStr "Uno")] no_options
                  (world_of [[("title", VStr "One")]] library)) eq_refl).
Defined.

Definition example_projection : ProjectOptions :=
  ProjectOptionsBag (Some "to.") (Some "from.")
                    (Some [("subModel", PopulateNested [("subSubModel", PopulateFlag true)])])
                    (Some [VStr "name"]).

Lemma projectStageFactory_recursion_is_bounded_witness :
  projectStageFactory_depth example_models 7 example_root_schema example_projection
  = projectStageFactory example_models example_root_schema example_projection
  /\ projectStageFactory example_models example_root_schema example_projection
     = projectStageFactory_body example_models (projectStageFactory example_models)
                                example_root_schema example_projection.
Proof.
  apply (projectStageFactory_recursion_is_bounded example_models 7 example_root_schema
           example_projection).
  vm_compute. lia.
Defined.

Lemma projectStageFactory_projects_the_included_keys_witness :
  exists out : obj,
    [[("$project",
       VObj [("to._id", VStr "$from._id");
             ("to.subModel",
              VObj [("_id", VStr "$_id"); ("subSubModel", VStr "$subSubModel")])])]]
    = [[("$project", VObj out)]]
    /\ forall k : string,
        In k (keys out)
        <-> exists key, k = project_toPrefix example_projection +:+ key
                        /\ projected example_root_schema example_projection key.
Proof.
  exact (projectStageFactory_projects_the_included_keys example_models
           example_root_schema example_projection _ eq_refl).
Defined.

Lemma projectStageFactory_nested_descriptor_is_read_as_options_witness :
  projectStageFactory example_models example_root_schema
    (ProjectOptionsBag None None
       (Some ([] ++ ("subModel", PopulateNested [("subSubModel", PopulateFlag true)]) :: []))
       None)
  = projectStageFactory example_models example_root_schema
      (ProjectOptionsBag None None
         (Some ([] ++ ("subModel", PopulateFlag true) :: [])) None).
Proof.
  apply (projectStageFactory_nested_descriptor_is_read_as_options example_models
           example_root_schema None None None [] [] "subModel"
           [("subSubModel", PopulateFlag true)]).
  intros k Hk. cbn in Hk.
  destruct Hk as [<- | [<- | [<- | [<- | []]]]]; reflexivity.
Defined.

Lemma identifyOne_and_count_read_only_witness :
  is_nullOrUndefined (VOid (oid_of "author-----x")) = false
  /\ exists docs doc,
      fst (fst (findMany mem_store library_models Author (Some (QObject 0))
                         (world_of [[("name", VStr "X")]] library)))
      = Ok (doc :: docs)
      /\ VOid (oid_of "author-----x") = member doc "_id".
Proof.
  exact (proj2 (proj2 (identifyOne_and_count_read_only
                         mem_store library_models (fun _ _ => "{}") Author (QObject 0)
                         (world_of [[("name", VStr "X")]] library)))
               (VOid (oid_of "author-----x")) eq_refl).
Defined.

(** ** The guards of pipelineFactory, and findOne *)

(** X26. pipelineFactory checks its descriptors before it builds anything:
    a [$lookup] that is neither absent nor an object, a [$group] that is
    neither absent, an object nor a string, or a [$sort] that is neither
    absent nor an object makes it throw, in this order of precedence, and
    no object is allocated or touched. *)
Theorem pipelineFactory_rejects_bad_descriptors
        (models : option (list (string * ModelClass))) (schema : Schema)
        (specs : PipelineFactorySpecs) (options : PipelineFactoryOptions) (h : heap) :
  let bad_lookup :=
    negb (is_undefined (specs_lookup specs) || is_object (specs_lookup specs)) in
  let bad_group :=
    negb (is_undefined (specs_group specs) || is_object (specs_group specs)
          || is_string (specs_group specs)) in
  let bad_sort :=
    negb (is_undefined (specs_sort specs) || is_object (specs_sort specs)) in
  bad_lookup || bad_group || bad_sort = true ->
  pipelineFactory models schema specs options h
  = (Throw (Error (if bad_lookup then "Bad $lookup descriptor provided"
                   else if bad_group then "Bad $group descriptor provided"
                   else "Bad $sort descriptor provided")), h).
Proof.
  intros bad_lookup bad_group bad_sort Hbad. subst bad_lookup bad_group bad_sort.
  unfold pipelineFactory. run.
  destruct (is_undefined (specs_lookup specs) || is_object (specs_lookup specs));
    [|reflexivity].
  destruct (is_undefined (specs_group specs) || is_object (specs_group specs)
            || is_string (specs_group specs)); [|reflexivity].
  destruct (is_undefined (specs_sort specs) || is_object (specs_sort specs));
    [discriminate Hbad|reflexivity].
Qed.

Lemma pipelineFactory_rejects_bad_descriptors_witness :
  pipelineFactory example_models example_root_schema
    {| specs_lookup := VObj [("subModel", VBool true)]; specs_match := None;
       specs_prune := None; specs_group := VNum 1; specs_sort := VStr "name" |}
    no_pipeline_options []
  = (Throw (Error "Bad $group descriptor provided"), []).
Proof.
  exact (pipelineFactory_rejects_bad_descriptors example_models example_root_schema
           {| specs_lookup := VObj [("subModel", VBool true)]; specs_match := None;
              specs_prune := None; specs_group := VNum 1; specs_sort := VStr "name" |}
           no_pipeline_options [] eq_refl).
Defined.

Section FindingOne.

Context {S : Type}.
Variable store : Store S.
Variable models : option (list (string * ModelClass)).

(** X27. findOne without a query draws a sample: it makes exactly one call,
    the aggregation of the model's collection whose only stage is
    [$sample] of size one, and it returns the document of the reply, null
    for an empty reply, and throws on a reply of more than one document.
    With a query it is findMany, reduced to its first document or null. *)
Theorem findOne_samples_or_takes_the_first
        (this : ModelClass) (w : World S) :
  (exists r w',
      findOne store models this None w
      = (r, w', [CallAggregate (collection (schema this))
                               [[("$sample", VObj [("size", VNum 1)])]]])
      /\ forall docs,
          fst (store_aggregate store (collection (schema this))
                               [[("$sample", VObj [("size", VNum 1)])]] (w_store w))
          = Ok docs ->
          r = match docs with
              | [] => Ok VNull
              | [doc] => Ok doc
              | _ => Throw (Error "More than 1 random document found even though only 1 was supposed to be found.")
              end)
  /\ forall query,
      findOne store models this (Some query) w
      = match findMany store models this (Some query) w with
        | (Ok docs, w', calls) => (Ok (hd VNull docs), w', calls)
        | (Throw e, w', calls) => (Throw e, w', calls)
        end.
Proof.
  split.
  - unfold findOne, getCollection. rewrite bind_run. cbn [ret M_monad].
    rewrite bind_run, liftH_run.
    change (pipeline_ models this None no_pipeline_options (w_heap w))
      with (@Ok (list obj) [], w_heap w).
    cbn [w_heap w_store w_now app]. rewrite bind_run.
    unfold collection_aggregate, call. cbn [w_heap w_store w_now].
    destruct (store_aggregate store _ _ (w_store w)) as [[docs|e] s'].
    + destruct docs as [|doc [|doc' docs]]; cbn; eexists _, _;
        (split; [reflexivity|]); now intros docs' [= <-].
    + eexists _, _. split; [reflexivity|]. cbn. discriminate.
  - intros query. unfold findOne. rewrite bind_run.
    destruct (findMany store models this (Some query) w) as [[[docs|e] w'] calls];
      [|reflexivity].
    destruct docs as [|doc docs]; cbn; now rewrite app_nil_r.
Qed.

End FindingOne.

(** ** Defaults and timestamps on the way to the store *)

(** [!is.undefined(fieldSpecs.default)] *)
Definition has_default (f : FieldSpecs) : bool :=
  match default f with
  | None | Some (DefaultValue VUndefined) => false
  | _ => true
  end.

(** A document with its defaults filled in and, when [stamped], with both
    timestamps set to dates (unless the schema declares a field of that
    name, which then has the say). *)
Definition completed (this : ModelClass) (stamped : bool) (doc : obj) : Prop :=
  (forall key f, field_get (fields (schema this)) key = Some f ->
                 has_default f = true -> hasOwnProperty doc key = true)
  /\ (stamped = true ->
      forall key, key = "createdAt" \/ key = "updatedAt" ->
                  field_get (fields (schema this)) key = None ->
                  is_date (prop doc key) = true).

Definition stores_completed (this : ModelClass) (stamped : bool) (c : StoreCall) : Prop :=
  match c with
  | CallInsertOne _ doc => completed this stamped doc
  | CallInsertMany _ docs => Forall (completed this stamped) docs
  | _ => True
  end.

(** An update whose [$set] carries a date as [updatedAt]. *)
Definition renewed (this : ModelClass) (u : obj) : Prop :=
  exists set : obj,
    prop u "$set" = VObj set
    /\ (field_get (fields (schema this)) "updatedAt" = None ->
        is_date (prop set "updatedAt") = true).

Lemma hasOwnProperty_obj_set (o : obj) (k key : string) (v : value) :
  hasOwnProperty (obj_set o k v) key = String.eqb key k || hasOwnProperty o key.
Proof.
  unfold hasOwnProperty. rewrite obj_get_obj_set. now destruct (String.eqb key k).
Qed.

Lemma hasOwnProperty_keys (o : obj) (k : string) :
  hasOwnProperty o k = true <-> In k (keys o).
Proof.
  unfold hasOwnProperty. pose proof (obj_get_None o k) as Hnone.
  destruct (obj_get o k) as [v|].
  - split; [|reflexivity]. intros _.
    destruct (in_dec String.string_dec k (keys o)) as [Hin|Hn]; [exact Hin|].
    apply Hnone in Hn. discriminate Hn.
  - split; [discriminate|]. intros Hin. exfalso. now apply (proj1 Hnone).
Qed.

Section Completion.

Context {S : Type}.
Variable store : Store S.
Variable models : option (list (string * ModelClass)).
Variable bcrypt_hash : string -> Z -> string.
Variable template : value -> string.
Variable validateFieldValue : value -> FieldSpecs -> bool.

Lemma fill_defaults_fills (this : ModelClass) (key : string) (f : FieldSpecs) (o : obj) :
  field_get (fields (schema this)) key = Some f ->
  has_default f = true ->
  hasOwnProperty (fill_defaults this o) key = true.
Proof.
  intros Hf Hdef. unfold fill_defaults.
  assert (In key (map fst (fields (schema this))) \/ hasOwnProperty o key = true) as Hin
    by (left; now apply field_get_In with f).
  revert o Hin.
  induction (map fst (fields (schema this))) as [|k ks IH]; intros o Hin.
  - now destruct Hin as [[]|Ho].
  - cbn [fold_left]. apply IH.
    assert (hasOwnProperty o key = true ->
            hasOwnProperty
              (if hasOwnProperty o k then o
               else match field_get (fields (schema this)) k with
                    | Some fieldSpecs =>
                        match default fieldSpecs with
                        | None | Some (DefaultValue VUndefined) => o
                        | Some (DefaultValue v) => obj_set o k v
                        | Some (DefaultFunction g) => obj_set o k (g tt)
                        end
                    | None => o
                    end) key = true) as Hkeep.
    { intros Ho. destruct (hasOwnProperty o k); [exact Ho|].
      destruct (field_get (fields (schema this)) k) as [fk|]; [|exact Ho].
      destruct (default fk) as [[v|g]|]; [destruct v| |];
        rewrite ?hasOwnProperty_obj_set, ?Ho, ?orb_true_r; reflexivity. }
    destruct Hin as [[<-|Hin]|Ho]; [|now left|right; now apply Hkeep].
    right. destruct (hasOwnProperty o k) eqn:Hk; [exact Hk|].
    rewrite Hf. unfold has_default in Hdef.
    destruct (default f) as [[v|g]|]; [destruct v| |]; try discriminate Hdef;
      rewrite hasOwnProperty_obj_set, String.eqb_refl; reflexivity.
Qed.

Lemma fill_defaults_other (this : ModelClass) (key : string) (o : obj) :
  field_get (fields (schema this)) key = None ->
  obj_get (fill_defaults this o) key = obj_get o key.
Proof.
  intros Hf. unfold fill_defaults. revert o.
  induction (map fst (fields (schema this))) as [|k ks IH]; intros o; [reflexivity|].
  cbn [fold_left]. rewrite IH.
  destruct (hasOwnProperty o k); [reflexivity|].
  destruct (field_get (fields (schema this)) k) as [fk|] eqn:Ek; [|reflexivity].
  assert (String.eqb key k = false) as Hne.
  { apply String.eqb_neq. intros ->. congruence. }
  destruct (default fk) as [[v|g]|]; [destruct v| |];
    rewrite ?obj_get_obj_set, ?Hne; reflexivity.
Qed.

Lemma stamp_run (o : obj) (key : string) (w : World S) :
  stamp o key w
  = (Ok (if is_date (prop o key) then o else obj_set o key (VDate (w_now w))), w, []).
Proof. unfold stamp. now destruct (is_date (prop o key)). Qed.

Lemma stamped_is_date (o : obj) (key : string) (now : Z) :
  is_date (prop (if is_date (prop o key) then o else obj_set o key (VDate now)) key)
  = true.
Proof.
  destruct (is_date (prop o key)) eqn:E; [exact E|].
  unfold prop. now rewrite obj_get_obj_set, String.eqb_refl.
Qed.

(** What [beforeInsert] returns. *)
Lemma beforeInsert_completes
      (this : ModelClass) (doc : obj) (options : Options)
      (w w' : World S) (t : list StoreCall) (a : obj) :
  beforeInsert store models bcrypt_hash template validateFieldValue this doc options w
  = (Ok a, w', t) ->
  completed this (is_true (timestamps (schema this))
                  && negb (is_true (ignoreTimestamps options))) a.
Proof.
  intros Hrun. unfold beforeInsert in Hrun.
  apply bind_ok_inv in Hrun as (d & w1 & t1 & t2 & _ & Hrun & _).
  apply bind_ok_inv in Hrun as (o & w2 & t3 & t4 & Hstamp & Hrun & _).
  apply bind_ok_inv in Hrun as (valid & w3 & t5 & t6 & _ & Hret & _).
  injection Hret as <- _ _. split.
  - intros key f Hf Hdef. apply hasOwnProperty_keys.
    rewrite formatDocument_keys. apply hasOwnProperty_keys.
    now apply fill_defaults_fills with f.
  - intros Hstamped key Hkey Hf. rewrite Hstamped in Hstamp.
    unfold prop. rewrite formatDocument_plain_value by (now rewrite Hf).
    rewrite fill_defaults_other by exact Hf. fold (prop o key).
    rewrite bind_run, stamp_run, stamp_run in Hstamp.
    injection Hstamp as <- _ _.
    destruct Hkey as [-> | ->]; [|apply stamped_is_date].
    destruct (is_date (prop _ "updatedAt")); [apply stamped_is_date|].
    unfold prop. rewrite obj_get_obj_set. cbn [String.eqb Ascii.eqb Bool.eqb].
    apply stamped_is_date.
Qed.

(** X28. What is inserted is complete: every document insertOne or
    insertMany hands to the store has each field for which the schema
    defines a default, and, when the schema has timestamps (and the caller
    of insertOne did not set [ignoreTimestamps]), dates as [createdAt] and
    [updatedAt]. *)
Theorem insertions_store_completed_documents
        (this : ModelClass) (doc : option obj) (docs : list obj) (options : Options)
        (w : World S) :
  Forall (stores_completed this (is_true (timestamps (schema this))
                                 && negb (is_true (ignoreTimestamps options))))
         (snd (insertOne store models bcrypt_hash template validateFieldValue this doc
                         options w))
  /\ Forall (stores_completed this (is_true (timestamps (schema this))))
            (snd (insertMany store models bcrypt_hash template validateFieldValue this
                             docs options w)).
Proof.
  split.
  - assert (emits (stores_completed this (is_true (timestamps (schema this))
                                          && negb (is_true (ignoreTimestamps options))))
                  (insertOne store models bcrypt_hash template validateFieldValue this doc
                             options) (fun _ => True)) as Hemits; [|apply Hemits].
    unfold insertOne.
    destruct (is_true (noInserts (schema this))); [apply emits_throw|].
    apply emits_bind
      with (R := completed this (is_true (timestamps (schema this))
                                 && negb (is_true (ignoreTimestamps options)))).
    { intros w0. split.
      - destruct (beforeInsert_emits store models bcrypt_hash template validateFieldValue
                    this (match doc with Some d => d | None => randomFields this [] false end)
                    (spread_options (only_strict true) options) w0) as [Hc _].
        rewrite Forall_forall in *. intros c Hin. specialize (Hc c Hin). now destruct c.
      - intros a Ha.
        destruct (beforeInsert _ _ _ _ _ _ _ _ w0) as [[r w1] t1] eqn:Hrun.
        cbn in Ha. subst r. apply beforeInsert_completes in Hrun.
        replace (is_true (ignoreTimestamps options))
          with (is_true (ignoreTimestamps (spread_options (only_strict true) options)));
          [exact Hrun|]. cbn. now destruct (ignoreTimestamps options). }
    intros t Ht. unfold getCollection.
    apply emits_bind with (R := fun _ => True); [now apply emits_ret|]. intros coll _.
    apply emits_bind with (R := fun _ => True); [now apply emits_call|].
    intros results _.
    apply emits_bind with (R := fun _ => True);
      [eapply emits_weaken; [apply emits_quiet, quiet_assert|trivial]|]. intros _ _.
    apply emits_bind with (R := fun _ => True);
      [eapply emits_weaken; [apply emits_quiet, quiet_assert|trivial]|]. intros _ _.
    destruct (ops results) as [|o os]; [now apply emits_ret|].
    apply emits_bind with (R := fun _ => True); [apply emits_quiet, quiet_liftH|].
    intros; now apply emits_ret.
  - assert (emits (stores_completed this (is_true (timestamps (schema this))))
                  (insertMany store models bcrypt_hash template validateFieldValue this
                              docs options) (fun _ => True)) as Hemits; [|apply Hemits].
    unfold insertMany.
    destruct (_ || _); [apply emits_throw|].
    apply emits_bind
      with (R := Forall (completed this (is_true (timestamps (schema this))))).
    { apply emits_map_st_all. intros d w0. split.
      - destruct (beforeInsert_emits store models bcrypt_hash template validateFieldValue
                    this d no_options w0) as [Hc _].
        rewrite Forall_forall in *. intros c Hin. specialize (Hc c Hin). now destruct c.
      - intros a Ha.
        destruct (beforeInsert _ _ _ _ _ _ _ _ w0) as [[r w1] t1] eqn:Hrun.
        cbn in Ha. subst r. apply beforeInsert_completes in Hrun.
        cbn [ignoreTimestamps no_options is_true negb] in Hrun.
        now rewrite andb_true_r in Hrun. }
    intros ts Hts. unfold getCollection.
    apply emits_bind with (R := fun _ => True); [now apply emits_ret|]. intros coll _.
    apply emits_bind with (R := fun _ => True); [now apply emits_call|].
    intros results _.
    apply emits_bind with (R := fun _ => True);
      [eapply emits_weaken; [apply emits_quiet, quiet_assert|trivial]|]. intros _ _.
    apply emits_bind with (R := fun _ => True); [|intros; now apply emits_ret].
    apply emits_for_each. intros o _. apply emits_quiet, quiet_liftH.
Qed.

(** The update [beforeUpdate] returns, when timestamps are stamped. *)
Lemma beforeUpdate_renews
      (this : ModelClass) (query : Query) (update : obj) (options : Options)
      (w w' : World S) (t : list StoreCall) (qu : Query * obj) :
  is_true (timestamps (schema this)) && negb (is_true (ignoreTimestamps options)) = true ->
  beforeUpdate store models bcrypt_hash template validateFieldValue this query update
               options w
  = (Ok qu, w', t) ->
  renewed this (snd qu).
Proof.
  intros Hstamped Hrun. unfold beforeUpdate in Hrun. rewrite Hstamped in Hrun.
  destruct (_ && _) in Hrun; [discriminate Hrun|].
  apply bind_ok_inv in Hrun as ([q u] & w1 & t1 & t2 & _ & Hrun & _).
  apply bind_ok_inv in Hrun as (qq & w2 & t3 & t4 & _ & Hrun & _).
  apply bind_ok_inv in Hrun as (uu & w3 & t5 & t6 & Hstamp & Hrun & _).
  apply bind_ok_inv in Hrun as (uu' & w4 & t7 & t8 & Hupsert & Hrun & _).
  apply bind_ok_inv in Hrun as (valid & w5 & t9 & t10 & _ & Hret & _).
  injection Hret as <- _ _. cbn [snd].
  rewrite bind_run, stamp_run in Hstamp. injection Hstamp as <- _ _.
  match type of Hupsert with
  | context [obj_set (obj_set ?base "$set" (VObj ?set)) "$set" _] =>
      set (stampedSet := set) in *; set (uu0 := base) in *
  end.
  assert (prop (obj_set uu0 "$set" (VObj stampedSet)) "$set" = VObj stampedSet) as Hset
    by (unfold prop; now rewrite obj_get_obj_set, String.eqb_refl).
  rewrite Hset in Hupsert. cbn [truthy props] in Hupsert.
  set (formatted := formatDocument bcrypt_hash template this stampedSet) in *.
  assert (prop uu' "$set" = VObj formatted) as Hfinal.
  { assert (prop (obj_set (obj_set uu0 "$set" (VObj stampedSet)) "$set" (VObj formatted))
                 "$set" = VObj formatted) as Hf
      by (unfold prop; now rewrite obj_get_obj_set, String.eqb_refl).
    destruct (is_true (upsert options)).
    - apply bind_ok_inv in Hupsert as (copy & w6 & t11 & t12 & _ & Hupsert & _).
      apply bind_ok_inv in Hupsert as (inserted & w7 & t13 & t14 & _ & Hupsert & _).
      destruct (negb _) in Hupsert; injection Hupsert as <- _ _; [|exact Hf].
      unfold prop. rewrite obj_get_obj_set. cbn [String.eqb Ascii.eqb Bool.eqb].
      exact Hf.
    - injection Hupsert as <- _ _. exact Hf. }
  exists formatted. split; [exact Hfinal|]. intros Hfield. subst formatted.
  unfold prop. rewrite formatDocument_plain_value by (now rewrite Hfield).
  apply stamped_is_date.
Qed.

(** X29. Every update renews [updatedAt]: on a schema with timestamps,
    unless the caller sets [ignoreTimestamps], the update that updateOne
    (without [skipHooks]) or updateMany hands to the store has a [$set]
    whose [updatedAt] is a date, whether or not the caller's update had a
    [$set] at all. *)
Theorem updates_renew_updatedAt
        (this : ModelClass) (query : Query) (update : obj) (options : Options)
        (w : World S) :
  is_true (timestamps (schema this)) && negb (is_true (ignoreTimestamps options)) = true ->
  (is_true (skipHooks options) = false ->
   Forall (stores_update (renewed this) this)
          (snd (updateOne store models bcrypt_hash template validateFieldValue this query
                          update options w)))
  /\ Forall (stores_update (renewed this) this)
            (snd (updateMany store models bcrypt_hash template validateFieldValue this
                             query update options w)).
Proof.
  intros Hstamped.
  assert (emits is_aggregate
                (beforeUpdate store models bcrypt_hash template validateFieldValue this
                              query update options)
                (fun qu => renewed this (snd qu))) as Hbefore.
  { intros w0. split.
    - apply (beforeUpdate_emits store models bcrypt_hash template validateFieldValue
               this query update options w0).
    - intros qu Hqu.
      destruct (beforeUpdate _ _ _ _ _ _ _ _ _ w0) as [[r w1] t1] eqn:Hrun.
      cbn in Hqu. subst r. now apply beforeUpdate_renews in Hrun. }
  split.
  - intros Hskip. apply updateOne_emits; [|intros _; exact Hbefore].
    rewrite Hskip. discriminate.
  - now apply updateMany_emits.
Qed.

End Completion.

(** A schema with timestamps. *)
Definition note_schema : Schema :=
  {| model := "Note"; collection := "notes"; timestamps := Some true;
     allowUpsert := None; noInserts := None; noInsertMany := None;
     noUpdates := None; noUpdateMany := None; noDeletes := None;
     noDeleteMany := None; cascade := None;
     fields := [("text", string_field (Some true))]; indexes := None |}.

Lemma updates_renew_updatedAt_witness :
  Forall (stores_update (renewed (Model note_schema)) (Model note_schema))
         (snd (updateOne mem_store library_models example_hash example_template accept_all
                         (Model note_schema) (QObject 0) [("$inc", VObj [("reads", VNum 1)])]
                         no_options
                         (world_of [[("text", VStr "a")]] [("notes", [[("text", VStr "a")]])]))).
Proof.
  exact (proj1 (updates_renew_updatedAt
                  mem_store library_models example_hash example_template accept_all
                  (Model note_schema) (QObject 0) [("$inc", VObj [("reads", VNum 1)])]
                  no_options
                  (world_of [[("text", VStr "a")]] [("notes", [[("text", VStr "a")]])])
                  eq_refl) eq_refl).
Defined.
